(** * Bronze tier AI employee: the task lifecycle engine

    A shallow embedding of [Bronze/orchestrator.py] (intent classifier,
    skills, scan loop) and [Bronze/filesystem_watcher.py] (file-drop
    detector), followed by the properties of the two programs.

    Conventions of the embedding.
    - A Python [str] is a list of characters; a character is a code point
      below 256 (Latin-1), held in an [ascii].  Text with higher code points
      is outside the model.  The classes [\d], [\w], [\s] and [str.lower]
      are the ones Python uses on that range.
    - A [float] obtained by [float(s)] from a decimal numeral with at most
      two fractional digits is held as its exact value in hundredths.  The
      only arithmetic done on it is the comparison with 500, which is exact
      on such values (500 is a double and rounding is monotone).
    - Wall-clock seconds ([time.time()]) are rationals.
    - Console output ([print]) is not modelled; the activity log, the error
      log and the detector's structured log lines are. *)

From stdpp Require Import gmap strings list.
From Stdlib Require Import Ascii String QArith Lqa.
Close Scope Q_scope.


(* ===================================================================== *)
(** * Characters and strings *)
(* ===================================================================== *)

Module Text.

Definition text := list ascii.

(** String literals of the source are written [T "..."]. *)
Definition T (s : string) : text := list_ascii_of_string s.

Definition code (c : ascii) : N := N_of_ascii c.

Definition in_range (lo hi : N) (c : ascii) : bool :=
  ((lo <=? code c) && (code c <=? hi))%N.

Definition is_code (n : N) (c : ascii) : bool := (code c =? n)%N.

(** [\d]: the decimal digits. *)
Definition is_digit (c : ascii) : bool := in_range 48 57 c.

Definition is_ascii_upper (c : ascii) : bool := in_range 65 90 c.
Definition is_ascii_lower (c : ascii) : bool := in_range 97 122 c.

(** [\s] and [str.isspace]: tab to carriage return, the four separators
    0x1c-0x1f, space, NEL (0x85) and the no-break space (0xa0). *)
Definition is_space (c : ascii) : bool :=
  in_range 9 13 c || in_range 28 32 c || is_code 133 c || is_code 160 c.

(** [\w]: alphanumeric code points and the underscore.  Above 127 these
    are the Latin-1 letters, the superscript digits and the vulgar
    fractions. *)
Definition is_word (c : ascii) : bool :=
  is_digit c || is_ascii_upper c || is_ascii_lower c || is_code 95 c
  || is_code 170 c || is_code 178 c || is_code 179 c || is_code 181 c
  || is_code 185 c || is_code 186 c || in_range 188 190 c
  || in_range 192 214 c || in_range 216 246 c || in_range 248 255 c.

(** [str.lower] on one character: A-Z and the Latin-1 capitals
    (0xc0-0xde without the multiplication sign) move down by 32. *)
Definition lower_char (c : ascii) : ascii :=
  if is_ascii_upper c || (in_range 192 222 c && negb (is_code 215 c))
  then ascii_of_N (code c + 32) else c.

Definition lower (s : text) : text := map lower_char s.

Definition newline : ascii := ascii_of_N 10.

Fixpoint lstrip (s : text) : text :=
  match s with
  | c :: s' => if is_space c then lstrip s' else s
  | [] => []
  end.

(** [str.strip()] *)
Definition strip (s : text) : text := rev (lstrip (rev (lstrip s))).

Definition text_eqb (a b : text) : bool := bool_decide (a = b).

End Text.

Import Text.

(* ===================================================================== *)
(** * Regular expressions, as the [re] module runs them *)
(* ===================================================================== *)

(** A backtracking matcher: alternatives are tried left to right, greedy
    repetition tries one more iteration before stopping, lazy repetition
    the other way round, and the first complete match found wins. *)

Module Re.

Inductive regex : Type :=
| Eps
| Chr (p : ascii → bool)              (* one character of a class *)
| Seq (r1 r2 : regex)
| Alt (r1 r2 : regex)                 (* r1|r2, r1 tried first *)
| Star (greedy : bool) (r : regex)    (* r* and r*? *)
| Group (i : nat) (r : regex)         (* capturing group number i *)
| WordB                               (* \b *)
| Eol.                                (* $ without re.MULTILINE *)

(** A position in the subject: the characters already passed (last one
    first), the characters ahead, and the groups captured so far. *)
Record mstate : Type := MState {
  seen : text;
  rest : text;
  caps : list (nat * text)
}.

Definition chr (c : ascii) : regex := Chr (Ascii.eqb c).

(** A literal character under [re.IGNORECASE]. *)
Definition chr_ci (c : ascii) : regex :=
  Chr (fun x => Ascii.eqb (lower_char x) (lower_char c)).

Fixpoint lit_with (f : ascii → regex) (s : text) : regex :=
  match s with
  | [] => Eps
  | [c] => f c
  | c :: s' => Seq (f c) (lit_with f s')
  end.

Definition lit (s : string) : regex := lit_with chr (T s).
Definition lit_ci (s : string) : regex := lit_with chr_ci (T s).

(** [r+], [r+?], [r?] *)
Definition Plus (r : regex) : regex := Seq r (Star true r).
Definition LazyPlus (r : regex) : regex := Seq r (Star false r).
Definition Opt (r : regex) : regex := Alt r Eps.

(** [.]: anything but a newline. *)
Definition dot : regex := Chr (fun c => negb (Ascii.eqb c newline)).

Definition digit : regex := Chr is_digit.
Definition space : regex := Chr is_space.

Definition head_is_word (s : text) : bool :=
  match s with
  | c :: _ => is_word c
  | [] => false
  end.

Definition at_word_boundary (st : mstate) : bool :=
  xorb (head_is_word (seen st)) (head_is_word (rest st)).

(** [$]: the end of the subject, or just before a final newline. *)
Definition at_end (st : mstate) : bool :=
  match rest st with
  | [] => true
  | [c] => Ascii.eqb c newline
  | _ => false
  end.

(** The text passed between two positions of the same subject. *)
Definition consumed (st st' : mstate) : text :=
  take (List.length (rest st) - List.length (rest st')) (rest st).

Definition set_cap (i : nat) (st st' : mstate) : mstate :=
  MState (seen st') (rest st') ((i, consumed st st') :: caps st').

(** [a <|> b]: the result of [a] if it has one, otherwise that of [b]. *)
Notation "a <|> b" :=
  (match a with Some x => Some x | None => b end)
  (at level 60, right associativity, only parsing).

(** [run r k st]: match [r] at [st], then continue with [k]; [None] makes
    the matcher backtrack.  An iteration of a repetition that passes no
    character is refused, which bounds the number of iterations by the
    number of characters ahead. *)
Fixpoint run (r : regex) (k : mstate → option mstate) (st : mstate)
  : option mstate :=
  match r with
  | Eps => k st
  | Chr p =>
      match rest st with
      | c :: t => if p c then k (MState (c :: seen st) t (caps st)) else None
      | [] => None
      end
  | Seq r1 r2 => run r1 (run r2 k) st
  | Alt r1 r2 => run r1 k st <|> run r2 k st
  | Star greedy r1 =>
      (fix iter (fuel : nat) (st : mstate) {struct fuel} : option mstate :=
         match fuel with
         | O => k st
         | S fuel' =>
             let again (st' : mstate) :=
               if (List.length (rest st') <? List.length (rest st))%nat
               then iter fuel' st' else None in
             if greedy
             then run r1 again st <|> k st
             else k st <|> run r1 again st
         end) (List.length (rest st)) st
  | Group i r1 => run r1 (fun st' => k (set_cap i st st')) st
  | WordB => if at_word_boundary st then k st else None
  | Eol => if at_end st then k st else None
  end.

(** A match object: the whole match ([group(0)]), the groups, and the
    text after the match. *)
Record rmatch : Type := RMatch {
  whole : text;
  groups : list (nat * text);
  after : text
}.

Fixpoint assoc (i : nat) (l : list (nat * text)) : option text :=
  match l with
  | (j, v) :: l' => if (i =? j)%nat then Some v else assoc i l'
  | [] => None
  end.

(** [m.group(i)]; [None] when the group took no part in the match. *)
Definition group (i : nat) (m : rmatch) : option text := assoc i (groups m).

(** [pattern.match] at one position. *)
Definition match_at (r : regex) (before ahead : text) : option rmatch :=
  let st := MState before ahead [] in
  match run r Some st with
  | Some st' => Some (RMatch (consumed st st') (caps st') (rest st'))
  | None => None
  end.

(** [re.search]: the first position, from the left, with a match. *)
Fixpoint search_from (r : regex) (before ahead : text) : option rmatch :=
  match match_at r before ahead with
  | Some m => Some m
  | None =>
      match ahead with
      | c :: ahead' => search_from r (c :: before) ahead'
      | [] => None
      end
  end.

Definition search (r : regex) (s : text) : option rmatch :=
  search_from r [] s.

(** [re.findall], as the list of match objects: successive searches, each
    starting where the previous match ended (one character further after
    an empty match). *)
Fixpoint findall_from (fuel : nat) (r : regex) (before ahead : text)
  : list rmatch :=
  match fuel with
  | O => []
  | S fuel' =>
      match match_at r before ahead with
      | Some m =>
          match whole m with
          | [] =>
              m :: match ahead with
                   | c :: ahead' => findall_from fuel' r (c :: before) ahead'
                   | [] => []
                   end
          | _ :: _ =>
              m :: findall_from fuel' r (rev (whole m) ++ before) (after m)
          end
      | None =>
          match ahead with
          | c :: ahead' => findall_from fuel' r (c :: before) ahead'
          | [] => []
          end
      end
  end.

Definition findall (r : regex) (s : text) : list rmatch :=
  findall_from (S (List.length s)) r [] s.

End Re.

Import Re.

(* ===================================================================== *)
(** * Skill: text analyzer ([orchestrator.analyze_intent]) *)
(* ===================================================================== *)

Module Analyzer.

Inductive intent_label : Type :=
| unknown | email_draft | payment_request | data_extraction
| payment_acknowledgment | general.

Inductive priority_label : Type := medium | high.

Inductive category_label : Type := other | communication | finance | admin.

(** Values held in the [entities] dictionary.  A float is held in
    hundredths: [VFloat 75000] is 750.0. *)
Inductive pyval : Type :=
| VNone
| VStr (s : text)
| VFloat (hundredths : N).

(** The two approval reasons of the source; the second one quotes the
    amount. *)
Inductive reason : Type :=
| email_reply_rule
| exceeds_threshold (hundredths : N).

(** The [results] dictionary. *)
Record IntentResult : Type := {
  intent : intent_label;
  confidence : Q;
  priority : priority_label;
  category : category_label;
  entities : gmap string pyval;
  requires_approval : bool;
  approval_reason : option reason
}.

Definition classify (i : intent_label) (c : category_label) (conf : Q)
    (r : IntentResult) : IntentResult :=
  {| intent := i; confidence := conf; priority := priority r;
     category := c; entities := entities r;
     requires_approval := requires_approval r;
     approval_reason := approval_reason r |}.

Definition set_entity (key : string) (v : pyval) (r : IntentResult)
  : IntentResult :=
  {| intent := intent r; confidence := confidence r; priority := priority r;
     category := category r; entities := <[key := v]> (entities r);
     requires_approval := requires_approval r;
     approval_reason := approval_reason r |}.

Definition set_approval (why : reason) (r : IntentResult) : IntentResult :=
  {| intent := intent r; confidence := confidence r; priority := priority r;
     category := category r; entities := entities r;
     requires_approval := true; approval_reason := Some why |}.

Definition set_priority (p : priority_label) (r : IntentResult)
  : IntentResult :=
  {| intent := intent r; confidence := confidence r; priority := p;
     category := category r; entities := entities r;
     requires_approval := requires_approval r;
     approval_reason := approval_reason r |}.

(** [{**analysis, "intent": i}] *)
Definition with_intent (i : intent_label) (r : IntentResult) : IntentResult :=
  classify i (category r) (confidence r) r.

(** ** The patterns *)

(** [\b(reply|respond|draft.*email|email.*response)\b] *)
Definition EMAIL_REPLY : regex :=
  Seq WordB
    (Seq (Group 1
            (Alt (lit "reply")
            (Alt (lit "respond")
            (Alt (Seq (lit "draft") (Seq (Star true dot) (lit "email")))
                 (Seq (lit "email") (Seq (Star true dot) (lit "response")))))))
         WordB).

(** [[\w\.-]+@[\w\.-]+] *)
Definition address_char (c : ascii) : bool :=
  is_word c || Ascii.eqb c "." || Ascii.eqb c "-".

Definition EMAIL_ADDRESS : regex :=
  Seq (Plus (Chr address_char)) (Seq (chr "@") (Plus (Chr address_char))).

(** [Subject:\s*(.+?)(?:\n|$)] with [re.IGNORECASE] *)
Definition SUBJECT : regex :=
  Seq (lit_ci "Subject:")
    (Seq (Star true space)
      (Seq (Group 1 (LazyPlus dot)) (Alt (chr newline) Eol))).

(** [\b(invoice|payment|pay|transfer|amount due)\b] *)
Definition PAYMENT : regex :=
  Seq WordB
    (Seq (Group 1
            (Alt (lit "invoice")
            (Alt (lit "payment")
            (Alt (lit "pay")
            (Alt (lit "transfer") (lit "amount due"))))))
         WordB).

(** [\$?(\d+(?:\.\d{2})?)] *)
Definition AMOUNT : regex :=
  Seq (Opt (chr "$"))
      (Group 1 (Seq (Plus digit) (Opt (Seq (chr ".") (Seq digit digit))))).

(** [invoice\s*#?\s*([A-Z0-9-]+)] with [re.IGNORECASE], on Latin-1 text:
    among the characters 0 to 255 the class matches the ASCII letters,
    the digits and the hyphen.  Beyond Latin-1 the class of the source
    also matches U+017F and U+212A, which fold to [s] and [k]; a text is
    a list of Latin-1 characters here. *)
Definition invoice_char (c : ascii) : bool :=
  is_ascii_upper c || is_ascii_lower c || is_digit c || Ascii.eqb c "-".

Definition INVOICE : regex :=
  Seq (lit_ci "invoice")
    (Seq (Star true space)
      (Seq (Opt (chr "#"))
        (Seq (Star true space) (Group 1 (Plus (Chr invoice_char)))))).

(** [from\s*:?\s*([^\n]+)|vendor\s*:?\s*([^\n]+)] with [re.IGNORECASE] *)
Definition after_label (label : string) (i : nat) : regex :=
  Seq (lit_ci label)
    (Seq (Star true space)
      (Seq (Opt (chr ":"))
        (Seq (Star true space) (Group i (Plus dot))))).

Definition VENDOR : regex := Alt (after_label "from" 1) (after_label "vendor" 2).

(** [\b(extract|parse|analyze|summarize)\b] *)
Definition EXTRACTION : regex :=
  Seq WordB
    (Seq (Group 1
            (Alt (lit "extract")
            (Alt (lit "parse")
            (Alt (lit "analyze") (lit "summarize")))))
         WordB).

(** ** Helpers standing for Python expressions *)

(** [m.group(i)] of a group that takes part in every match. *)
Definition group_text (i : nat) (m : rmatch) : text := default [] (group i m).

(** [m.group(i) or m.group(j)] *)
Definition group_or (i j : nat) (m : rmatch) : pyval :=
  match group i m with
  | Some (c :: s) => VStr (c :: s)
  | _ => match group j m with
         | Some s => VStr s
         | None => VNone
         end
  end.

Fixpoint digits_value (acc : N) (s : text) : option N :=
  match s with
  | [] => Some acc
  | c :: s' =>
      if is_digit c then digits_value (10 * acc + (code c - 48))%N s'
      else None
  end.

Fixpoint split_point (s : text) : text * option text :=
  match s with
  | [] => ([], None)
  | c :: s' =>
      if Ascii.eqb c "." then ([], Some s')
      else let '(a, b) := split_point s' in (c :: a, b)
  end.

(** [float(s)] on the numerals the amount pattern captures: digits, then
    possibly a point and two digits.  The value is in hundredths.  [None]
    stands for every other string; [analyze_intent] never passes one (see
    [analyze_intent_returns]). *)
Definition py_float (s : text) : option N :=
  match split_point s with
  | (c :: ip, None) => n ← digits_value 0 (c :: ip); Some (100 * n)%N
  | (c :: ip, Some [d1; d2]) =>
      n ← digits_value 0 (c :: ip);
      f ← digits_value 0 [d1; d2];
      Some (100 * n + f)%N
  | _ => None
  end.

(** The $500 threshold of [Company_Handbook.md], in hundredths. *)
Definition THRESHOLD : N := 50000.

(** ** The classifier *)

Definition initial_results : IntentResult :=
  {| intent := unknown; confidence := 0.0; priority := medium;
     category := other; entities := ∅;
     requires_approval := false; approval_reason := None |}.

(** [None] is an exception escaping from [analyze_intent]; the only
    expression that could raise is [float(amounts[0])]. *)
Definition analyze_intent (content : text) : option IntentResult :=
  let results := initial_results in
  let content_lower := lower content in
  match search EMAIL_REPLY content_lower with
  | Some _ =>
      (* Detect email reply request *)
      let results := classify email_draft communication 0.8 results in
      let results := set_approval email_reply_rule results in
      let emails := map whole (findall EMAIL_ADDRESS content) in
      let results :=
        match emails with
        | e :: _ => set_entity "sender" (VStr e) results
        | [] => results
        end in
      let results :=
        match search SUBJECT content with
        | Some subject =>
            set_entity "subject" (VStr (strip (group_text 1 subject))) results
        | None => results
        end in
      Some results
  | None =>
  match search PAYMENT content_lower with
  | Some _ =>
      (* Detect payment request *)
      let results := classify payment_request finance 0.9 results in
      let amounts := map (group_text 1) (findall AMOUNT content) in
      results ←
        match amounts with
        | a :: _ =>
            amount ← py_float a;
            let results := set_entity "amount" (VFloat amount) results in
            Some (if (THRESHOLD <? amount)%N
                  then set_priority high
                         (set_approval (exceeds_threshold amount) results)
                  else results)
        | [] => Some results
        end;
      let results :=
        match search INVOICE content with
        | Some invoice =>
            set_entity "invoice_number" (VStr (group_text 1 invoice)) results
        | None => results
        end in
      let results :=
        match search VENDOR content with
        | Some vendor => set_entity "vendor" (group_or 1 2 vendor) results
        | None => results
        end in
      Some results
  | None =>
  match search EXTRACTION content_lower with
  | Some _ =>
      (* Detect data extraction request *)
      Some (classify data_extraction admin 0.7 results)
  | None => Some results
  end end end.

End Analyzer.

Import Analyzer.


(* ===================================================================== *)
(** * The vault: folders, documents, logs *)
(* ===================================================================== *)

Module Vault.

(** [BRONZE_DIR] and the folders under it. *)
Inductive folder : Type :=
| NEEDS_ACTION_FOLDER | DONE_FOLDER | LOGS_FOLDER | PLANS_FOLDER
| PENDING_APPROVAL_FOLDER | APPROVED_FOLDER | REJECTED_FOLDER | BRONZE_DIR.

Global Instance folder_eq_dec : EqDecision folder.
Proof. solve_decision. Defined.

Definition folder_code (f : folder) : nat :=
  match f with
  | NEEDS_ACTION_FOLDER => 0 | DONE_FOLDER => 1 | LOGS_FOLDER => 2
  | PLANS_FOLDER => 3 | PENDING_APPROVAL_FOLDER => 4
  | APPROVED_FOLDER => 5 | REJECTED_FOLDER => 6 | BRONZE_DIR => 7
  end.

Definition folder_of_code (n : nat) : folder :=
  match n with
  | 0 => NEEDS_ACTION_FOLDER | 1 => DONE_FOLDER | 2 => LOGS_FOLDER
  | 3 => PLANS_FOLDER | 4 => PENDING_APPROVAL_FOLDER
  | 5 => APPROVED_FOLDER | 6 => REJECTED_FOLDER | _ => BRONZE_DIR
  end.

Global Instance folder_countable : Countable folder.
Proof.
  apply (inj_countable' folder_code folder_of_code). by intros [].
Defined.

(** A file directly inside one of the folders: [folder / name]. *)
Definition path : Type := folder * text.

(** The clock readings the source formats: [isoformat()],
    [strftime('%Y%m%d_%H%M%S')] and [strftime('%Y-%m-%d')]. *)
Record datetime : Type := {
  isoformat : text;
  stamp : text;
  day : text
}.

(** An f-string before rendering: literal pieces, [str] of a value, and a
    number under [:.2f]. *)
Inductive piece : Type :=
| Lit (s : string)
| Str (v : pyval)
| Txt (s : text)
| Fixed2 (hundredths : N).

Definition fstring : Type := list piece.

(** What the plan template is filled with. *)
Record plan_doc : Type := {
  plan_created : datetime;
  plan_task_name : fstring;
  plan_description : fstring;
  plan_analysis : IntentResult
}.

(** The two email templates and what they are filled with. *)
Inductive draft_kind : Type :=
| invoice_acknowledgment (invoice : pyval) (amount : N)
| generic_response.

Record email_doc : Type := {
  draft_created : datetime;
  draft_kind_of : draft_kind;
  draft_to : text;
  draft_subject : fstring;
  draft_body : text
}.

(** The [data] dictionary of the data extractor; a key is present when its
    field is [Some]. *)
Record extraction_data : Type := {
  x_email : option text;
  x_amounts : option (list N);
  x_dates : option (list text);
  x_invoice_number : option text;
  x_phone : option text
}.

Record extraction_doc : Type := {
  x_timestamp : datetime;
  x_schema : string;
  x_data : extraction_data
}.

Inductive document : Type :=
| PlanDoc (d : plan_doc)
| EmailDraftDoc (d : email_doc)
| ExtractionDoc (d : extraction_doc).

(** Entries of the daily activity log. *)
Inductive activity_action : Type :=
| intent_analyzed | task_processed | task_archived | dashboard_update.

Inductive activity_status : Type :=
| status_intent (i : intent_label) | completed | moved_to_done | updated.

Inductive activity_details : Type :=
| analysis_details (analysis : IntentResult)
| processed_details (i : intent_label) (requires_approval : bool)
| archived_details (destination : path)
| dashboard_details (needs_action pending done plans : nat).

Record activity_entry : Type := {
  a_timestamp : datetime;
  a_action : activity_action;
  a_file : path;
  a_status : activity_status;
  a_details : activity_details
}.

(** Exceptions. *)
Inductive exn : Type :=
| FileNotFoundError (p : path)
| OSError (p : path)
| PatternError                   (* raised by [Path.glob] *)
| ValueError
| TypeError
| AttributeError.

Inductive read_error : Type :=
| file_not_found (p : path)
| read_exception (e : exn).

(** Lines of [errors.log]. *)
Inductive error_message : Type :=
| failed_to_read_task_file (why : read_error)
| error_processing_task_file (task_file : path) (e : exn)
| failed_to_write_activity_log (e : exn)
| failed_to_update_dashboard (e : exn).

Record error_line : Type := {
  e_timestamp : datetime;
  e_message : error_message
}.

Record dashboard_doc : Type := {
  d_needs_action : nat;
  d_pending : nat;
  d_plans : nat;
  d_done : nat;
  d_recent : list activity_entry
}.

(** The [config] dictionary. *)
Record config_t : Type := {
  check_interval : N;
  max_iterations : nat;
  dry_run : bool
}.

Definition DEFAULT_CONFIG : config_t :=
  {| check_interval := 60; max_iterations := 5; dry_run := true |}.

(** What the program cannot change: its configuration, the clock, and
    which operations of the file system fail.  [clock n] is the [n]-th
    reading of [datetime.now()]. *)
Record env : Type := {
  config : config_t;
  clock : nat → datetime;
  read_fails : path → bool;
  write_fails : path → bool;
  move_fails : path → bool
}.

(** The state of the vault.  [Needs_Action] is kept in directory order, as
    [glob] lists it; it holds the task files and the copies of the dropped
    files, all read as text. *)
Record vault : Type := {
  ticks : nat;
  dirs : gset folder;
  needs_action : list (text * text);
  done : gmap text text;
  artifacts : gmap path document;
  activity : gmap text (list activity_entry);
  errors : list error_line;
  dashboard : option dashboard_doc
}.

Definition set_ticks (n : nat) (v : vault) : vault :=
  {| ticks := n; dirs := dirs v; needs_action := needs_action v;
     done := done v; artifacts := artifacts v; activity := activity v;
     errors := errors v; dashboard := dashboard v |}.

Definition set_dirs (d : gset folder) (v : vault) : vault :=
  {| ticks := ticks v; dirs := d; needs_action := needs_action v;
     done := done v; artifacts := artifacts v; activity := activity v;
     errors := errors v; dashboard := dashboard v |}.

Definition set_needs_action (l : list (text * text)) (v : vault) : vault :=
  {| ticks := ticks v; dirs := dirs v; needs_action := l;
     done := done v; artifacts := artifacts v; activity := activity v;
     errors := errors v; dashboard := dashboard v |}.

Definition set_done (m : gmap text text) (v : vault) : vault :=
  {| ticks := ticks v; dirs := dirs v; needs_action := needs_action v;
     done := m; artifacts := artifacts v; activity := activity v;
     errors := errors v; dashboard := dashboard v |}.

Definition set_artifacts (m : gmap path document) (v : vault) : vault :=
  {| ticks := ticks v; dirs := dirs v; needs_action := needs_action v;
     done := done v; artifacts := m; activity := activity v;
     errors := errors v; dashboard := dashboard v |}.

Definition set_activity (m : gmap text (list activity_entry)) (v : vault)
  : vault :=
  {| ticks := ticks v; dirs := dirs v; needs_action := needs_action v;
     done := done v; artifacts := artifacts v; activity := m;
     errors := errors v; dashboard := dashboard v |}.

Definition set_errors (l : list error_line) (v : vault) : vault :=
  {| ticks := ticks v; dirs := dirs v; needs_action := needs_action v;
     done := done v; artifacts := artifacts v; activity := activity v;
     errors := l; dashboard := dashboard v |}.

Definition set_dashboard (d : option dashboard_doc) (v : vault) : vault :=
  {| ticks := ticks v; dirs := dirs v; needs_action := needs_action v;
     done := done v; artifacts := artifacts v; activity := activity v;
     errors := errors v; dashboard := d |}.

(** ** Computations on the vault that may raise *)

Inductive result (A : Type) : Type :=
| Ok (a : A)
| Raise (e : exn).
Arguments Ok {A} a.
Arguments Raise {A} e.

Definition M (A : Type) : Type := env → vault → result A * vault.

Definition ret {A} (a : A) : M A := fun _ v => (Ok a, v).

Definition bind {A B} (m : M A) (f : A → M B) : M B :=
  fun e v =>
    match m e v with
    | (Ok a, v') => f a e v'
    | (Raise x, v') => (Raise x, v')
    end.

Definition raise {A} (x : exn) : M A := fun _ v => (Raise x, v).

(** [try: body except Exception as e: handler(e)] *)
Definition try_except {A} (body : M A) (handler : exn → M A) : M A :=
  fun e v =>
    match body e v with
    | (Ok a, v') => (Ok a, v')
    | (Raise x, v') => handler x e v'
    end.

Definition ask : M env := fun e v => (Ok e, v).
Definition get : M vault := fun _ v => (Ok v, v).
Definition modify (f : vault → vault) : M unit := fun _ v => (Ok tt, f v).

(** [for x in l: body(x)] *)
Fixpoint for_each {A} (l : list A) (body : A → M unit) : M unit :=
  match l with
  | [] => ret tt
  | x :: l' => bind (body x) (fun _ => for_each l' body)
  end.

Global Instance M_ret : MRet M := @ret.
Global Instance M_bind : MBind M := fun A B f m => bind m f.

End Vault.

Import Vault.


(* ===================================================================== *)
(** * The orchestrator ([orchestrator.py]) *)
(* ===================================================================== *)

Module Orchestrator.

Definition ERROR_LOG_FILE : path := (LOGS_FOLDER, T "errors.log").
Definition DASHBOARD_FILE : path := (BRONZE_DIR, T "Dashboard.md").

(** ** Paths and folder listings *)

Fixpoint file_content (name : text) (l : list (text * text)) : option text :=
  match l with
  | [] => None
  | (n, c) :: l' => if text_eqb n name then Some c else file_content name l'
  end.

Definition remove_file (name : text) (l : list (text * text))
  : list (text * text) :=
  filter (fun f => f.1 ≠ name) l.

Fixpoint is_suffix_rev (s r : text) : bool :=
  match s, r with
  | [], _ => true
  | c :: s', d :: r' => Ascii.eqb c d && is_suffix_rev s' r'
  | _ :: _, [] => false
  end.

(** [name.endswith(s)] *)
Definition ends_with (s name : text) : bool := is_suffix_rev (rev s) (rev name).

(** What [glob("*.md")] selects. *)
Definition is_md (name : text) : bool := ends_with (T ".md") name.

Fixpoint is_prefix (s t : text) : bool :=
  match s, t with
  | [], _ => true
  | c :: s', d :: t' => Ascii.eqb c d && is_prefix s' t'
  | _ :: _, [] => false
  end.

(** [s in t] *)
Fixpoint is_infix (s t : text) : bool :=
  is_prefix s t ||
  match t with
  | [] => false
  | _ :: t' => is_infix s t'
  end.

Fixpoint index_of (c : ascii) (s : text) : option nat :=
  match s with
  | [] => None
  | d :: s' => if Ascii.eqb c d then Some 0 else S <$> index_of c s'
  end.

(** [Path.stem]: the name without its last suffix; a leading or a final
    point does not start a suffix. *)
Definition stem (name : text) : text :=
  match index_of "." (rev name) with
  | Some j =>
      let i := List.length name - 1 - j in
      if (0 <? i) && (0 <? j) then take i name else name
  | None => name
  end.

(** ** File operations *)

Inductive status : Type :=
| success
| error (e : exn).

Definition now : M datetime :=
  fun e v => (Ok (clock e (ticks v)), set_ticks (S (ticks v)) v).

(** [folder.mkdir(parents=True, exist_ok=True)]; creating a folder under
    [BRONZE_DIR] does not fail. *)
Definition mkdir (f : folder) : M unit :=
  modify (fun v => set_dirs ({[f]} ∪ dirs v) v).

(** [read_file], for a file of [Needs_Action] given by its name. *)
Definition read_file (name : text) : M (read_error + text) :=
  let file_path := (NEEDS_ACTION_FOLDER, name) in
  e ← ask; v ← get;
  match file_content name (needs_action v) with
  | None => mret (inl (file_not_found file_path))
  | Some content =>
      if read_fails e file_path
      then mret (inl (read_exception (OSError file_path)))
      else mret (inr content)
  end.

Definition write_file (file_path : path) (content : document) : M status :=
  mkdir file_path.1;;
  e ← ask;
  if dry_run (config e) then mret success
  else if write_fails e file_path then mret (error (OSError file_path))
  else
    modify (fun v => set_artifacts (<[file_path := content]> (artifacts v)) v);;
    mret success.

(** [shutil.move] of a file of [Needs_Action] into [Done].  The vault
    follows the files of [Needs_Action] only: a source in another folder,
    or a folder as a source, which [Path.glob] returns for a pattern with
    [..] or a separator, is not described. *)
Definition shutil_move (src dst : text) : M unit :=
  e ← ask; v ← get;
  match file_content src (needs_action v) with
  | None => raise (FileNotFoundError (NEEDS_ACTION_FOLDER, src))
  | Some content =>
      if move_fails e (NEEDS_ACTION_FOLDER, src)
      then raise (OSError (NEEDS_ACTION_FOLDER, src))
      else if bool_decide (DONE_FOLDER ∈ dirs v)
      then modify (fun v =>
             set_done (<[dst := content]> (done v))
               (set_needs_action (remove_file src (needs_action v)) v))
      else raise (FileNotFoundError (DONE_FOLDER, dst))
  end.

(** ** Logs *)

Definition log_error (message : error_message) : M unit :=
  mkdir LOGS_FOLDER;;
  timestamp ← now;
  e ← ask;
  if write_fails e ERROR_LOG_FILE then mret tt
  else
    modify (fun v =>
      set_errors
        (errors v ++ [{| e_timestamp := timestamp; e_message := message |}]) v).

(** [log_activity].  A write of the day's log that fails is taken to fail
    when the file is opened, and the log is then left as it was; the
    source opens the file with mode ['w'], so that a write that fails
    later would leave it truncated. *)
Definition log_activity (action : activity_action) (file : path)
    (st : activity_status) (details : activity_details) : M unit :=
  mkdir LOGS_FOLDER;;
  today ← now;
  let log_file := (LOGS_FOLDER, day today ++ T ".json") in
  timestamp ← now;
  let log_entry :=
    {| a_timestamp := timestamp; a_action := action; a_file := file;
       a_status := st; a_details := details |} in
  try_except
    (e ← ask; v ← get;
     logs ← match activity v !! day today with
            | Some logs =>
                if read_fails e log_file then raise (OSError log_file)
                else mret logs
            | None => mret []
            end;
     if write_fails e log_file then raise (OSError log_file)
     else
       modify (fun v =>
         set_activity (<[day today := logs ++ [log_entry]]> (activity v)) v))
    (fun x => log_error (failed_to_write_activity_log x)).

(** ** Skill: email drafter *)

Record email_info : Type := {
  from : pyval;
  subject : fstring;
  body : text
}.

(** A value used as a number ([amount > 500]). *)
Definition as_number (v : pyval) : M N :=
  match v with
  | VFloat h => mret h
  | _ => raise TypeError
  end.

(** A value under [:.2f]. *)
Definition format_2f (v : pyval) : M N :=
  match v with
  | VFloat h => mret h
  | VStr _ => raise ValueError
  | VNone => raise TypeError
  end.

Definition draft_email_response (original_email : email_info)
    (analysis : IntentResult) : M status :=
  let sender := from original_email in
  created ← now;
  kind ←
    match intent analysis with
    | payment_acknowledgment =>
        let invoice :=
          default (VStr (T "UNKNOWN")) (entities analysis !! "invoice_number") in
        amount ← as_number (default (VFloat 0) (entities analysis !! "amount"));
        mret (invoice_acknowledgment invoice amount)
    | _ => mret generic_response
    end;
  to ← match sender with
       | VStr s => mret s
       | _ => raise AttributeError        (* sender.split('@') *)
       end;
  t ← now;
  let draft_path :=
    (PENDING_APPROVAL_FOLDER, T "email_draft_" ++ stamp t ++ T ".md") in
  write_file draft_path
    (EmailDraftDoc
       {| draft_created := created; draft_kind_of := kind; draft_to := to;
          draft_subject := Lit "Re: " :: subject original_email;
          draft_body := body original_email |}).


(** ** Skill: task planner *)

Definition get_tool_for_intent (i : intent_label) : string :=
  match i with
  | email_draft => "email_drafter"
  | payment_request => "email_drafter, data_extractor"
  | data_extraction => "data_extractor"
  | unknown => "task_planner"
  | _ => "file_processor"
  end.

Definition create_task_plan (task_name description : fstring)
    (analysis : IntentResult) : M status :=
  created ← now;
  t ← now;
  let plan_path := (PLANS_FOLDER, T "plan_" ++ stamp t ++ T ".md") in
  write_file plan_path
    (PlanDoc
       {| plan_created := created; plan_task_name := task_name;
          plan_description := description; plan_analysis := analysis |}).



(** ** Skill: data extractor *)

(** [\$?(\d{1,3}(?:,\d{3})*(?:\.\d{2})?)] *)
Definition GROUPED_AMOUNT : regex :=
  Seq (Opt (chr "$"))
    (Group 1
       (Seq (Seq digit (Opt (Seq digit (Opt digit))))
         (Seq (Star true (Seq (chr ",") (Seq digit (Seq digit digit))))
              (Opt (Seq (chr ".") (Seq digit digit)))))).

Definition digits (n : nat) : regex :=
  Nat.iter n (Seq digit) Eps.

(** [\d{4}-\d{2}-\d{2}|\d{2}/\d{2}/\d{4}] *)
Definition DATE : regex :=
  Alt (Seq (digits 4) (Seq (chr "-") (Seq (digits 2) (Seq (chr "-") (digits 2)))))
      (Seq (digits 2) (Seq (chr "/") (Seq (digits 2) (Seq (chr "/") (digits 4))))).

(** [\(?\d{3}\)?[\s-]?\d{3}[\s-]?\d{4}] *)
Definition PHONE : regex :=
  let sep := Opt (Chr (fun c => is_space c || Ascii.eqb c "-")) in
  Seq (Opt (chr "("))
    (Seq (digits 3)
      (Seq (Opt (chr ")"))
        (Seq sep (Seq (digits 3) (Seq sep (digits 4)))))).

(** [a.replace(',', '')] *)
Definition remove_commas (s : text) : text :=
  filter (fun c => c ≠ ","%char) s.

(** [[float(a.replace(',', '')) for a in amounts
      if 0 < float(a.replace(',', '')) < 100000]]; [None] when [float]
    raises. *)
Fixpoint clean_amounts (amounts : list text) : option (list N) :=
  match amounts with
  | [] => Some []
  | a :: amounts' =>
      x ← py_float (remove_commas a);
      l ← clean_amounts amounts';
      Some (if (0 <? x)%N && (x <? 10000000)%N then x :: l else l)
  end.

Definition nonempty {A} (l : list A) : option (list A) :=
  match l with
  | [] => None
  | _ => Some l
  end.

Definition extract_data_from_content (content : text) : M extraction_data :=
  let emails := map whole (findall EMAIL_ADDRESS content) in
  let amounts := map (group_text 1) (findall GROUPED_AMOUNT content) in
  cleaned ← match clean_amounts amounts with
            | Some l => mret l
            | None => raise ValueError
            end;
  let data :=
    {| x_email := head emails;
       x_amounts := nonempty cleaned;
       x_dates := nonempty (map whole (findall DATE content));
       x_invoice_number := group_text 1 <$> search INVOICE content;
       x_phone := whole <$> search PHONE content |} in
  timestamp ← now;
  t ← now;
  let log_path := (LOGS_FOLDER, T "extraction_" ++ stamp t ++ T ".json") in
  e ← ask;
  v ← get;
  (if dry_run (config e) then mret tt
   else if write_fails e log_path then raise (OSError log_path)
   else if bool_decide (LOGS_FOLDER ∉ dirs v)
   then raise (FileNotFoundError log_path)
   else
     modify (fun v =>
       set_artifacts
         (<[log_path :=
              ExtractionDoc {| x_timestamp := timestamp; x_schema := "auto";
                               x_data := data |}]> (artifacts v)) v));;
  mret data.

(** ** Processing one task *)

(** [original_name:\s*(.+)] and [source_path:\s*(.+)] *)
Definition field_line (label : string) : regex :=
  Seq (lit label) (Seq (Star true space) (Group 1 (Plus dot))).

Definition ORIGINAL_NAME : regex := field_line "original_name:".
Definition SOURCE_PATH : regex := field_line "source_path:".

(** [x or y] on strings. *)
Definition text_or (x y : text) : text :=
  match x with
  | [] => y
  | _ => x
  end.

Definition entity (analysis : IntentResult) (key : string) (dflt : pyval)
  : pyval :=
  default dflt (entities analysis !! key).

Section WithGlob.

(** [NEEDS_ACTION_FOLDER.glob(pattern)]: from the names of the folder, in
    directory order, the ones the pattern selects; [None] when pathlib
    refuses the pattern.  This covers the patterns for which [Path.glob]
    stays among the files of [Needs_Action]; with [..] or a separator in
    the pattern it reaches other folders, which a list of names of the
    folder cannot show. *)
Variable glob : list text → text → option (list text).

Definition needs_action_glob (pattern : text) : M (list text) :=
  v ← get;
  match glob (needs_action v).*1 pattern with
  | Some names => mret names
  | None => raise PatternError
  end.

(** Step 2: find and read the dropped file. *)
Definition read_source (source_file : option text) (task_name : text)
  : M text :=
  match source_file with
  | Some (_ :: _) =>
      possible_files ← needs_action_glob task_name;
      match possible_files with
      | pf :: _ =>
          source_result ← read_file pf;
          match source_result with
          | inr content => mret content
          | inl _ => mret []
          end
      | [] => mret []
      end
  | _ => mret []
  end.

(** Step 4: route to the skill of the intent. *)
Definition route (task_name task_content source_content analysis_content : text)
    (analysis : IntentResult) : M unit :=
  match intent analysis with
  | email_draft =>
      let email :=
        {| from := entity analysis "sender" (VStr (T "unknown@example.com"));
           subject := [Str (entity analysis "subject" (VStr (T "No Subject")))];
           body := match source_content with
                   | [] => take 500 task_content
                   | _ => take 500 source_content
                   end |} in
      draft_email_response email
        (with_intent
           (if is_infix (T "invoice") (lower analysis_content)
            then payment_acknowledgment else general) analysis);;
      mret tt
  | payment_request =>
      (* Create plan and draft acknowledgment email *)
      let invoice_number := entity analysis "invoice_number" (VStr (T "Unknown")) in
      amount ← format_2f (entity analysis "amount" (VFloat 0));
      create_task_plan
        [Lit "Payment Processing - "; Str invoice_number]
        [Lit "Process payment of $"; Fixed2 amount; Lit " from ";
         Str (entity analysis "vendor" (VStr (T "Unknown")))]
        analysis;;
      let email :=
        {| from := entity analysis "vendor" (VStr (T "vendor@example.com"));
           subject := [Lit "Invoice "; Str invoice_number];
           body := match source_content with
                   | [] => T "Invoice received"
                   | _ => take 500 source_content
                   end |} in
      draft_email_response email (with_intent payment_acknowledgment analysis);;
      mret tt
  | data_extraction =>
      extract_data_from_content (text_or source_content analysis_content);;
      create_task_plan
        [Lit "Data Extraction - "; Txt task_name]
        [Lit "Extract structured data from "; Txt task_name]
        analysis;;
      mret tt
  | _ =>
      (* Unknown intent - create generic plan *)
      create_task_plan [Txt task_name] [Lit "Process task: "; Txt task_name]
        analysis;;
      mret tt
  end.

(** Step 6: move the task, and the dropped file, to [Done]. *)
Definition archive (task_file : text) (source_file : option text)
    (task_name : text) : M unit :=
  e ← ask;
  if dry_run (config e) then mret tt
  else
    shutil_move task_file task_file;;
    match source_file with
    | Some (_ :: _) =>
        possible_files ← needs_action_glob task_name;
        for_each possible_files (fun pf =>
          if bool_decide (pf ≠ task_file) then shutil_move pf pf else mret tt)
    | _ => mret tt
    end;;
    log_activity task_archived (NEEDS_ACTION_FOLDER, task_file) moved_to_done
      (archived_details (DONE_FOLDER, task_file)).

(** The [try] block of [process_task_file], for a task file of
    [Needs_Action] given by its name. *)
Definition process_task_body (task_file : text) : M unit :=
  let task_path := (NEEDS_ACTION_FOLDER, task_file) in
  (* Step 1: read task file *)
  task_result ← read_file task_file;
  match task_result with
  | inl why => log_error (failed_to_read_task_file why)
  | inr task_content =>
      let original_name := search ORIGINAL_NAME task_content in
      let source_path := search SOURCE_PATH task_content in
      let task_name :=
        match original_name with
        | Some m => strip (group_text 1 m)
        | None => stem task_file
        end in
      let source_file := (fun m => strip (group_text 1 m)) <$> source_path in
      source_content ← read_source source_file task_name;
      let analysis_content := task_content ++ [newline] ++ source_content in
      (* Step 3: analyze intent *)
      analysis ← match analyze_intent analysis_content with
                 | Some a => mret a
                 | None => raise ValueError
                 end;
      log_activity intent_analyzed task_path (status_intent (intent analysis))
        (analysis_details analysis);;
      route task_name task_content source_content analysis_content analysis;;
      (* Step 5: log completion *)
      log_activity task_processed task_path completed
        (processed_details (intent analysis) (requires_approval analysis));;
      archive task_file source_file task_name
  end.

(** [process_task_file] on a terminal that accepts every line; the lines
    it prints before the [try] block and in the handler are in
    [Console.process_task_file]. *)
Definition process_task_file (task_file : text) : M unit :=
  try_except (process_task_body task_file)
    (fun x =>
       log_error (error_processing_task_file (NEEDS_ACTION_FOLDER, task_file) x)).

(** ** The scan *)

Definition ensure_folders_exist : M unit :=
  for_each
    [NEEDS_ACTION_FOLDER; DONE_FOLDER; LOGS_FOLDER; PLANS_FOLDER;
     APPROVED_FOLDER; REJECTED_FOLDER; PENDING_APPROVAL_FOLDER]
    mkdir.

Definition count_md (names : list text) : nat :=
  List.length (List.filter is_md names).

Definition artifact_names (f : folder) (v : vault) : list text :=
  (filter (fun p => p.1 = f) (elements (dom (artifacts v)))).*2.

(** [get_folder_count] *)
Definition get_folder_count (f : folder) : M nat :=
  v ← get;
  if bool_decide (f ∈ dirs v) then
    mret (match f with
          | NEEDS_ACTION_FOLDER => count_md (needs_action v).*1
          | DONE_FOLDER => count_md (elements (dom (done v)))
          | _ => count_md (artifact_names f v)
          end)
  else mret 0.

(** [logs[-limit:]] *)
Definition last_n {A} (n : nat) (l : list A) : list A :=
  drop (List.length l - n) l.

Definition get_recent_activities (limit : nat) : M (list activity_entry) :=
  today ← now;
  e ← ask; v ← get;
  match activity v !! day today with
  | Some logs =>
      if read_fails e (LOGS_FOLDER, day today ++ T ".json") then mret []
      else mret (last_n limit logs)
  | None => mret []
  end.

Definition update_dashboard : M unit :=
  try_except
    (needs_action_count ← get_folder_count NEEDS_ACTION_FOLDER;
     pending_count ← get_folder_count PENDING_APPROVAL_FOLDER;
     done_count ← get_folder_count DONE_FOLDER;
     plans_count ← get_folder_count PLANS_FOLDER;
     recent_activities ← get_recent_activities 5;
     e ← ask;
     (if dry_run (config e) then mret tt
      else if write_fails e DASHBOARD_FILE then raise (OSError DASHBOARD_FILE)
      else
        modify (set_dashboard
          (Some {| d_needs_action := needs_action_count;
                   d_pending := pending_count; d_plans := plans_count;
                   d_done := done_count; d_recent := recent_activities |})));;
     log_activity dashboard_update DASHBOARD_FILE updated
       (dashboard_details needs_action_count pending_count done_count
          plans_count))
    (fun x => log_error (failed_to_update_dashboard x)).

(** The loop of [scan_and_process] over the task files found. *)
Definition process_all (task_files : list text) : M unit :=
  for_each task_files process_task_file.

(** [scan_and_process] on a terminal that accepts every line; the lines
    it prints, and the readings of the clock made for them, are in
    [Console.scan_and_process]. *)
Definition scan_and_process : M unit :=
  ensure_folders_exist;;
  v ← get;
  let task_files := List.filter is_md (needs_action v).*1 in
  match task_files with
  | [] => mret tt
  | _ =>
      process_all task_files;;
      (* Update dashboard after processing *)
      update_dashboard
  end.

End WithGlob.

End Orchestrator.

(* ===================================================================== *)
(** * The orchestrator on its console *)
(* ===================================================================== *)

(** [Module Orchestrator] describes the functions on a terminal that
    accepts every line.  This module adds the lines they print and the
    readings of the clock made for them: [print] raises when the terminal
    refuses a line (a [UnicodeEncodeError], which is a [ValueError], for
    a text the terminal cannot encode), and a [print] outside a [try]
    block lets the exception out of its function. *)
Module Console.
Import Orchestrator.

Inductive line : Type :=
| Rule                                        (* '=' * 60 *)
| Processing_task (name : text)
| Step (n : nat)                              (* "[n/6] ..." *)
| Task_name (task_name : text)
| Source (source_file : option text)
| Read_source_file (name : text)
| Intent_is (i : intent_label)
| Category_is (c : category_label)
| Confidence_is (q : Q)
| Requires_approval_is (b : bool)
| Email_draft_created
| Plan_created
| Generic_plan_created
| Data_extracted (data : extraction_data)
| Fields (data : extraction_data)
| Task_moved
| Task_complete
| Error_processing_task (x : exn)
| Traceback (x : exn)                         (* traceback.print_exc() *)
| Failed_to_write_error_log (x : exn)
| Dashboard_updated (at_time : datetime)
    (needs_action pending plans done : nat)
| Error_updating_dashboard (x : exn)
| No_tasks_found (at_time : datetime)
| Found_tasks (at_time : datetime) (n : nat).

Section WithConsole.

Variable glob : list text → text → option (list text).

(** The lines the terminal refuses. *)
Variable refuses : line → bool.

Definition print (l : line) : M unit :=
  if refuses l then raise ValueError else mret tt.

(** [log_error]: when the error log cannot be written, the failure is
    printed. *)
Definition log_error (message : error_message) : M unit :=
  mkdir LOGS_FOLDER;;
  timestamp ← now;
  e ← ask;
  if write_fails e ERROR_LOG_FILE
  then print (Failed_to_write_error_log (OSError ERROR_LOG_FILE))
  else
    modify (fun v =>
      set_errors
        (errors v ++ [{| e_timestamp := timestamp; e_message := message |}]) v).

Definition log_activity (action : activity_action) (file : path)
    (st : activity_status) (details : activity_details) : M unit :=
  mkdir LOGS_FOLDER;;
  today ← now;
  let log_file := (LOGS_FOLDER, day today ++ T ".json") in
  timestamp ← now;
  let log_entry :=
    {| a_timestamp := timestamp; a_action := action; a_file := file;
       a_status := st; a_details := details |} in
  try_except
    (e ← ask; v ← get;
     logs ← match activity v !! day today with
            | Some logs =>
                if read_fails e log_file then raise (OSError log_file)
                else mret logs
            | None => mret []
            end;
     if write_fails e log_file then raise (OSError log_file)
     else
       modify (fun v =>
         set_activity (<[day today := logs ++ [log_entry]]> (activity v)) v))
    (fun x => log_error (failed_to_write_activity_log x)).

Definition update_dashboard : M unit :=
  try_except
    (needs_action_count ← get_folder_count NEEDS_ACTION_FOLDER;
     pending_count ← get_folder_count PENDING_APPROVAL_FOLDER;
     done_count ← get_folder_count DONE_FOLDER;
     plans_count ← get_folder_count PLANS_FOLDER;
     recent_activities ← get_recent_activities 5;
     e ← ask;
     (if dry_run (config e) then mret tt
      else if write_fails e DASHBOARD_FILE then raise (OSError DASHBOARD_FILE)
      else
        modify (set_dashboard
          (Some {| d_needs_action := needs_action_count;
                   d_pending := pending_count; d_plans := plans_count;
                   d_done := done_count; d_recent := recent_activities |})));;
     log_activity dashboard_update DASHBOARD_FILE updated
       (dashboard_details needs_action_count pending_count done_count
          plans_count);;
     t ← now;
     print (Dashboard_updated t needs_action_count pending_count plans_count
              done_count))
    (fun x =>
       log_error (failed_to_update_dashboard x);;
       print (Error_updating_dashboard x)).

(** Step 2: find and read the dropped file. *)
Definition read_source (source_file : option text) (task_name : text)
  : M text :=
  match source_file with
  | Some (_ :: _) =>
      possible_files ← needs_action_glob glob task_name;
      match possible_files with
      | pf :: _ =>
          source_result ← read_file pf;
          match source_result with
          | inr content => print (Read_source_file pf);; mret content
          | inl _ => mret []
          end
      | [] => mret []
      end
  | _ => mret []
  end.

(** Step 4: route to the skill of the intent. *)
Definition route (task_name task_content source_content analysis_content : text)
    (analysis : IntentResult) : M unit :=
  match intent analysis with
  | email_draft =>
      let email :=
        {| from := entity analysis "sender" (VStr (T "unknown@example.com"));
           subject := [Str (entity analysis "subject" (VStr (T "No Subject")))];
           body := match source_content with
                   | [] => take 500 task_content
                   | _ => take 500 source_content
                   end |} in
      draft_email_response email
        (with_intent
           (if is_infix (T "invoice") (lower analysis_content)
            then payment_acknowledgment else general) analysis);;
      print Email_draft_created
  | payment_request =>
      let invoice_number := entity analysis "invoice_number" (VStr (T "Unknown")) in
      amount ← format_2f (entity analysis "amount" (VFloat 0));
      create_task_plan
        [Lit "Payment Processing - "; Str invoice_number]
        [Lit "Process payment of $"; Fixed2 amount; Lit " from ";
         Str (entity analysis "vendor" (VStr (T "Unknown")))]
        analysis;;
      print Plan_created;;
      let email :=
        {| from := entity analysis "vendor" (VStr (T "vendor@example.com"));
           subject := [Lit "Invoice "; Str invoice_number];
           body := match source_content with
                   | [] => T "Invoice received"
                   | _ => take 500 source_content
                   end |} in
      draft_email_response email (with_intent payment_acknowledgment analysis);;
      print Email_draft_created
  | data_extraction =>
      data ← extract_data_from_content (text_or source_content analysis_content);
      print (Data_extracted data);;
      print (Fields data);;
      create_task_plan
        [Lit "Data Extraction - "; Txt task_name]
        [Lit "Extract structured data from "; Txt task_name]
        analysis;;
      print Plan_created
  | _ =>
      create_task_plan [Txt task_name] [Lit "Process task: "; Txt task_name]
        analysis;;
      print Generic_plan_created
  end.

(** Step 6: move the task, and the dropped file, to [Done]. *)
Definition archive (task_file : text) (source_file : option text)
    (task_name : text) : M unit :=
  e ← ask;
  if dry_run (config e) then mret tt
  else
    shutil_move task_file task_file;;
    match source_file with
    | Some (_ :: _) =>
        possible_files ← needs_action_glob glob task_name;
        for_each possible_files (fun pf =>
          if bool_decide (pf ≠ task_file) then shutil_move pf pf else mret tt)
    | _ => mret tt
    end;;
    log_activity task_archived (NEEDS_ACTION_FOLDER, task_file) moved_to_done
      (archived_details (DONE_FOLDER, task_file)).

(** The [try] block of [process_task_file]. *)
Definition process_task_body (task_file : text) : M unit :=
  let task_path := (NEEDS_ACTION_FOLDER, task_file) in
  print (Step 1);;
  task_result ← read_file task_file;
  match task_result with
  | inl why => log_error (failed_to_read_task_file why)
  | inr task_content =>
      let original_name := search ORIGINAL_NAME task_content in
      let source_path := search SOURCE_PATH task_content in
      let task_name :=
        match original_name with
        | Some m => strip (group_text 1 m)
        | None => stem task_file
        end in
      let source_file := (fun m => strip (group_text 1 m)) <$> source_path in
      print (Task_name task_name);;
      print (Source source_file);;
      source_content ← read_source source_file task_name;
      let analysis_content := task_content ++ [newline] ++ source_content in
      print (Step 3);;
      analysis ← match analyze_intent analysis_content with
                 | Some a => mret a
                 | None => raise ValueError
                 end;
      print (Intent_is (intent analysis));;
      print (Category_is (category analysis));;
      print (Confidence_is (confidence analysis));;
      print (Requires_approval_is (requires_approval analysis));;
      log_activity intent_analyzed task_path (status_intent (intent analysis))
        (analysis_details analysis);;
      print (Step 4);;
      route task_name task_content source_content analysis_content analysis;;
      print (Step 5);;
      log_activity task_processed task_path completed
        (processed_details (intent analysis) (requires_approval analysis));;
      print (Step 6);;
      archive task_file source_file task_name;;
      print Task_moved;;
      print Task_complete
  end.

(** [process_task_file]: the banner is printed before the [try] block,
    the error report in the handler. *)
Definition process_task_file (task_file : text) : M unit :=
  print Rule;;
  print (Processing_task task_file);;
  print Rule;;
  try_except (process_task_body task_file)
    (fun x =>
       log_error (error_processing_task_file (NEEDS_ACTION_FOLDER, task_file) x);;
       print (Error_processing_task x);;
       print (Traceback x)).

(** The loop of [scan_and_process] over the task files found. *)
Definition process_all (task_files : list text) : M unit :=
  for_each task_files process_task_file.

Definition scan_and_process : M unit :=
  ensure_folders_exist;;
  v ← get;
  let task_files := List.filter is_md (needs_action v).*1 in
  match task_files with
  | [] => t ← now; print (No_tasks_found t)
  | _ =>
      t ← now;
      print (Found_tasks t (List.length task_files));;
      process_all task_files;;
      update_dashboard
  end.

End WithConsole.

(** A terminal that accepts every line. *)
Definition accepting : line → bool := fun _ => false.


End Console.

(* ===================================================================== *)
(** * The file-drop detector ([filesystem_watcher.py]) *)
(* ===================================================================== *)

Module Watcher.

Definition SUPPORTED_EXTENSIONS : list text :=
  [T ".txt"; T ".pdf"; T ".doc"; T ".docx"; T ".md"].

(** ** Paths *)

(** [Path.name]: the last component of a path. *)
Fixpoint name_from (acc : text) (p : text) : text :=
  match p with
  | [] => acc
  | c :: p' => if Ascii.eqb c "/" then name_from p' p' else name_from acc p'
  end.

Definition name (p : text) : text := name_from p p.

(** [Path.suffix]: from the last point of the name on; empty when the
    name has no point, starts with its only point, or ends with one. *)
Definition suffix (p : text) : text :=
  let n := name p in
  match Orchestrator.index_of "." (rev n) with
  | Some j =>
      let i := List.length n - 1 - j in
      if (0 <? i) && (0 <? j) then drop i n else []
  | None => []
  end.

Definition supported (p : text) : bool :=
  bool_decide (lower (suffix p) ∈ SUPPORTED_EXTENSIONS).

(** ** State *)

(** The key [f"{file_path}_{st_size}_{st_mtime}"], as the triple it is
    built from; the text determines the triple. *)
Definition file_key : Type := text * N * Z.

Inductive event_type : Type := created | modified | moved | poll | scan.

(** The task document written to [Needs_Action]. *)
Record task_doc : Type := {
  original_name : text;
  source_path : text;
  size : N;
  detected : text
}.

(** Changes made to the [Needs_Action] folder. *)
Inductive fs_op : Type :=
| write_task (task_filename : text) (task : task_doc)
| copy_file (src : text) (dest_name : text).

Inductive exn : Type :=
| stat_failed
| write_failed
| copy_failed.

(** The [log_entry] dictionary. *)
Record log_entry : Type := {
  l_timestamp : text;
  l_event_type : event_type;
  l_file : text;
  l_task_file : text;
  l_size : N;
  l_dry_run : bool
}.

(** Lines sent to the logger. *)
Inductive log_line : Type :=
| DETECTED (kind : event_type) (file_name : text)
| POLL_found (file_name : text)
| SCAN_processing (file_name : text)
| IGNORED (sfx : text)
| SKIP_processed (file_name : text)
| WARNING_disappeared (file_path : text)
| SKIP_empty (file_name : text)
| PROCESSING (file_name : text) (file_size : N) (kind : event_type)
| DRY_RUN_would_create (task_filename : text)
| DRY_RUN_would_copy (dest_name : text)
| SUCCESS_task_created (task_filename : text)
| SUCCESS_file_copied (dest_name : text)
| LOG (entry : log_entry)
| ERROR (file_path : text) (e : exn).

Record detector : Type := {
  PROCESSED_FILES : gset file_key;
  file_timers : gmap text Q;
  operations : list fs_op;       (* oldest first *)
  logged : list log_line         (* oldest first *)
}.

Definition log (l : log_line) (d : detector) : detector :=
  {| PROCESSED_FILES := PROCESSED_FILES d; file_timers := file_timers d;
     operations := operations d; logged := logged d ++ [l] |}.

Definition perform (op : fs_op) (d : detector) : detector :=
  {| PROCESSED_FILES := PROCESSED_FILES d; file_timers := file_timers d;
     operations := operations d ++ [op]; logged := logged d |}.

Definition mark_processed (k : file_key) (d : detector) : detector :=
  {| PROCESSED_FILES := {[k]} ∪ PROCESSED_FILES d;
     file_timers := file_timers d;
     operations := operations d; logged := logged d |}.

Definition set_timer (p : text) (now : Q) (d : detector) : detector :=
  {| PROCESSED_FILES := PROCESSED_FILES d;
     file_timers := <[p := now]> (file_timers d);
     operations := operations d; logged := logged d |}.

(** What the outside world shows and does while one event is handled. *)
Record observation : Type := {
  o_is_directory : bool;          (* event.is_directory *)
  o_time : Q;                     (* time.time() *)
  o_is_file : bool;               (* file_path.is_file(), in the poll *)
  o_poll_stat : option (N * Z);   (* the poll's own stat() *)
  o_stat : option (N * Z);        (* st_size and st_mtime; None: stat() raises *)
  o_exists : bool;                (* file_path.exists() after the settle delay *)
  o_size : option N;              (* st_size after the delay; None: stat() raises *)
  o_now : text;                   (* datetime.now().isoformat() *)
  o_write_fails : bool;           (* writing the task file raises *)
  o_copy_fails : bool             (* shutil.copy2 raises *)
}.

(** [timestamp.replace(':', '-').replace('.', '-')] *)
Definition safe (timestamp : text) : text :=
  map (fun c => if Ascii.eqb c ":" || Ascii.eqb c "." then "-"%char else c)
      timestamp.

Section WithMode.

Variable DRY_RUN : bool.

(** The [except Exception] branch of [process_file]. *)
Definition failed (file_path : text) (e : exn) (d : detector) : detector :=
  log (ERROR file_path e) d.

Definition process_file (file_path : text) (kind : event_type)
    (o : observation) (d : detector) : detector :=
  (* Check file extension *)
  if negb (supported file_path) then log (IGNORED (suffix file_path)) d
  else
  (* Check if already processed *)
  match o_stat o with
  | None => failed file_path stat_failed d
  | Some (st_size, st_mtime) =>
  let key : file_key := (file_path, st_size, st_mtime) in
  if bool_decide (key ∈ PROCESSED_FILES d)
  then log (SKIP_processed (name file_path)) d
  else
  (* Wait for file to be fully written *)
  if negb (o_exists o) then log (WARNING_disappeared file_path) d
  else
  match o_size o with
  | None => failed file_path stat_failed d
  | Some file_size =>
  (* Skip empty files *)
  if (file_size =? 0)%N then log (SKIP_empty (name file_path)) d
  else
  let timestamp := o_now o in
  let original := name file_path in
  let d := log (PROCESSING original file_size kind) d in
  let task :=
    {| original_name := original; source_path := file_path;
       size := file_size; detected := timestamp |} in
  let task_filename := T "task_" ++ safe timestamp ++ T ".md" in
  let written : detector * option exn :=
    if DRY_RUN then
      (log (DRY_RUN_would_copy original)
         (log (DRY_RUN_would_create task_filename) d), None)
    else if o_write_fails o then (d, Some write_failed)
    else
      let d := perform (write_task task_filename task) d in
      let d := log (SUCCESS_task_created task_filename) d in
      (* Copy the dropped file to Needs_Action *)
      if o_copy_fails o then (d, Some copy_failed)
      else
        (log (SUCCESS_file_copied original)
           (perform (copy_file file_path original) d), None) in
  match written with
  | (d, Some e) => failed file_path e d
  | (d, None) =>
      (* Log the action *)
      let d :=
        log (LOG {| l_timestamp := timestamp; l_event_type := kind;
                    l_file := file_path; l_task_file := task_filename;
                    l_size := file_size; l_dry_run := DRY_RUN |}) d in
      (* Mark as processed *)
      mark_processed key d
  end
  end end.

(** ** Event handlers *)

Definition on_created (src_path : text) (o : observation) (d : detector)
  : detector :=
  if o_is_directory o then d
  else process_file src_path created o (log (DETECTED created (name src_path)) d).

Definition on_modified (src_path : text) (o : observation) (d : detector)
  : detector :=
  if o_is_directory o then d
  else if negb (supported src_path) then d
  else
    (* Debounce: only process if not recently processed *)
    let now := o_time o in
    let last_time := default 0%Q (file_timers d !! src_path) in
    if Qlt_le_dec 2 (now - last_time) then
      process_file src_path modified o
        (set_timer src_path now (log (DETECTED modified (name src_path)) d))
    else d.

Definition on_moved (dest_path : text) (o : observation) (d : detector)
  : detector :=
  if o_is_directory o then d
  else process_file dest_path moved o (log (DETECTED moved (name dest_path)) d).

(** One file of the periodic poll in [main]. *)
Definition poll_file (file_path : text) (o : observation) (d : detector)
  : detector :=
  if o_is_file o && supported file_path then
    match o_poll_stat o with
    | Some (st_size, st_mtime) =>
        if bool_decide ((file_path, st_size, st_mtime) ∉ PROCESSED_FILES d)
        then process_file file_path poll o (log (POLL_found (name file_path)) d)
        else d
    | None => d
    end
  else d.

(** One file of [scan_existing_files]. *)
Definition scan_file (file_path : text) (o : observation) (d : detector)
  : detector :=
  if o_is_file o && supported file_path then
    process_file file_path scan o (log (SCAN_processing (name file_path)) d)
  else d.

(** An event reaching the detector, with what the world does meanwhile. *)
Record event : Type := {
  ev_kind : event_type;
  ev_path : text;
  ev_world : observation
}.

Definition handle (ev : event) (d : detector) : detector :=
  match ev_kind ev with
  | created => on_created (ev_path ev) (ev_world ev) d
  | modified => on_modified (ev_path ev) (ev_world ev) d
  | moved => on_moved (ev_path ev) (ev_world ev) d
  | poll => poll_file (ev_path ev) (ev_world ev) d
  | scan => scan_file (ev_path ev) (ev_world ev) d
  end.

(** Events handled one after the other. *)
Definition handle_all (evs : list event) (d : detector) : detector :=
  fold_left (fun d ev => handle ev d) evs d.

End WithMode.

Definition initial : detector :=
  {| PROCESSED_FILES := ∅; file_timers := ∅; operations := []; logged := [] |}.

End Watcher.

(* ===================================================================== *)
(** * Notions used in the statements *)
(* ===================================================================== *)

(** ** What the matcher can return *)

(** [Matches r st st']: the pattern [r] can take the matcher from position
    [st] to position [st']. *)
Inductive Matches : regex → mstate → mstate → Prop :=
| M_Eps st : Matches Eps st st
| M_Chr p c t st :
    rest st = c :: t → p c = true →
    Matches (Chr p) st (MState (c :: seen st) t (caps st))
| M_Seq r1 r2 st st1 st2 :
    Matches r1 st st1 → Matches r2 st1 st2 → Matches (Seq r1 r2) st st2
| M_AltL r1 r2 st st' : Matches r1 st st' → Matches (Alt r1 r2) st st'
| M_AltR r1 r2 st st' : Matches r2 st st' → Matches (Alt r1 r2) st st'
| M_StarStop g r st : Matches (Star g r) st st
| M_StarStep g r st st1 st2 :
    Matches r st st1 → Matches (Star g r) st1 st2 →
    Matches (Star g r) st st2
| M_Group i r st st' :
    Matches r st st' → Matches (Group i r) st (set_cap i st st')
| M_WordB st : at_word_boundary st = true → Matches WordB st st
| M_Eol st : at_end st = true → Matches Eol st st.

(** The numerals of the amount pattern: digits, then possibly a point and
    two digits. *)
Definition all_digits (w : text) : Prop := Forall (fun c => is_digit c = true) w.

Definition amount_numeral (w : text) : Prop :=
  ∃ ip, ip ≠ [] ∧ all_digits ip ∧
    (w = ip ∨ ∃ d1 d2, is_digit d1 = true ∧ is_digit d2 = true ∧
                        w = ip ++ "."%char :: [d1; d2]).

(** ** Keywords *)

(** [has_word w s]: [w] occurs in [s] as a whole word, that is, with no
    word character just before or just after it. *)
Fixpoint has_word_from (w before ahead : text) : bool :=
  (negb (head_is_word before) && Orchestrator.is_prefix w ahead
   && negb (head_is_word (drop (List.length w) ahead)))
  || match ahead with
     | [] => false
     | c :: ahead' => has_word_from w (c :: before) ahead'
     end.

Definition has_word (w s : text) : bool := has_word_from w [] s.

(** A text contains a keyword when its lower-cased form has it as a whole
    word. *)
Definition contains_keyword (w : string) (content : text) : Prop :=
  has_word (T w) (lower content) = true.

(** The rules of the classifier, as tests on the content. *)
Definition email_rule (content : text) : bool :=
  bool_decide (is_Some (search EMAIL_REPLY (lower content))).
Definition payment_rule (content : text) : bool :=
  bool_decide (is_Some (search PAYMENT (lower content))).
Definition extraction_rule (content : text) : bool :=
  bool_decide (is_Some (search EXTRACTION (lower content))).

(** [amounts[0]], and its value in hundredths. *)
Definition first_amount (content : text) : option N :=
  a ← head (map (group_text 1) (findall AMOUNT content)); py_float a.

(** ** Texts used as examples *)

Definition pay_500 : text := T "Please pay 500.00 today".
Definition pay_500_01 : text := T "Please pay $500.01 today".

Definition invoice_and_extract : text :=
  T "Extract the totals from the attached invoice".

(** A text with both keywords on which the email-reply rule fires. *)
Definition reply_invoice_extract : text :=
  T "Please reply: extract the total of the invoice".

Definition pay_the_vendor : text := T "Please pay the vendor this week".

(** A text with a payment keyword, no digit, and a request to reply. *)
Definition reply_about_payment : text :=
  T "Please reply to the vendor about the payment".

(** ** Counting what the detector did *)

Module Detector.
Import Watcher.

Definition is_task_write (op : fs_op) : bool :=
  match op with
  | write_task _ _ => true
  | copy_file _ _ => false
  end.

(** The number of task documents written so far. *)
Definition tasks_written (d : detector) : nat :=
  List.length (List.filter is_task_write (operations d)).

Definition is_completion (l : log_line) : bool :=
  match l with
  | LOG _ => true
  | _ => false
  end.

(** The number of times the task-creation path ran to its end: it ends by
    logging the [log_entry]. *)
Definition completions (d : detector) : nat :=
  List.length (List.filter is_completion (logged d)).




(** What [process_file] needs from the world to reach the end of the
    task-creation path. *)
Definition lets_through (DRY_RUN : bool) (o : observation) : bool :=
  o_exists o &&
  match o_size o with
  | Some n => negb (n =? 0)%N
  | None => false
  end &&
  (DRY_RUN || (negb (o_write_fails o) && negb (o_copy_fails o))).

(** An exception is raised while the file is processed. *)
Definition raises (DRY_RUN : bool) (o : observation) : bool :=
  match o_stat o with
  | None => true
  | Some _ =>
      o_exists o &&
      match o_size o with
      | None => true
      | Some n => negb (n =? 0)%N && negb DRY_RUN
                  && (o_write_fails o || o_copy_fails o)
      end
  end.

(** The task document is written and the copy of the dropped file then
    raises. *)
Definition fails_after_write (DRY_RUN : bool) (o : observation) : bool :=
  match o_stat o, o_size o with
  | Some _, Some n =>
      o_exists o && negb (n =? 0)%N && negb DRY_RUN
      && negb (o_write_fails o) && o_copy_fails o
  | _, _ => false
  end.

(** The ways [process_file] can end: the file is rejected, its fingerprint
    is already processed, an exception is raised, or the task-creation
    path runs to its end. *)
Inductive ending (DRY_RUN : bool) (p : text) (o : observation)
    (d d' : detector) : Prop :=
| ends_rejected :
    supported p = false ∨ o_exists o = false ∨ o_size o = Some 0%N →
    supported p = false ∨ raises DRY_RUN o = false →
    PROCESSED_FILES d' = PROCESSED_FILES d →
    completions d' = completions d →
    operations d' = operations d →
    ending DRY_RUN p o d d'
| ends_skipped sz mt :
    o_stat o = Some (sz, mt) → (p, sz, mt) ∈ PROCESSED_FILES d →
    PROCESSED_FILES d' = PROCESSED_FILES d →
    completions d' = completions d →
    operations d' = operations d →
    ending DRY_RUN p o d d'
| ends_failed e :
    supported p = true → raises DRY_RUN o = true →
    (∀ sz mt, o_stat o = Some (sz, mt) → (p, sz, mt) ∉ PROCESSED_FILES d) →
    PROCESSED_FILES d' = PROCESSED_FILES d →
    completions d' = completions d →
    (if fails_after_write DRY_RUN o
     then ∃ f t, operations d' = operations d ++ [write_task f t]
     else operations d' = operations d) →
    last (logged d') = Some (ERROR p e) →
    ending DRY_RUN p o d d'
| ends_completed sz mt entry :
    supported p = true → lets_through DRY_RUN o = true →
    o_stat o = Some (sz, mt) → (p, sz, mt) ∉ PROCESSED_FILES d →
    PROCESSED_FILES d' = {[(p, sz, mt)]} ∪ PROCESSED_FILES d →
    completions d' = S (completions d) →
    last (logged d') = Some (LOG entry) →
    (if DRY_RUN then operations d' = operations d
     else ∃ f t, operations d'
                 = operations d ++ [write_task f t; copy_file p (name p)]) →
    ending DRY_RUN p o d d'.

(** [on_modified] let the event through: it logged the detection and
    called [process_file]; a debounced event leaves the log as it was. *)
Definition triggered (DRY_RUN : bool) (p : text) (o : observation)
    (d : detector) : bool :=
  negb (List.length (logged (on_modified DRY_RUN p o d))
        =? List.length (logged d))%nat.

(** The time of the last accepted trigger of a path, 0 before the first. *)
Definition last_trigger (p : text) (d : detector) : Q :=
  default 0%Q (file_timers d !! p).

Definition modified_on (p : text) (ev : event) : Prop :=
  ev_kind ev = modified ∧ ev_path ev = p.

(** Observations and events used as examples. *)
Definition report : text := T "/vault/Drop_Folder/report.txt".

Definition seen_ok : observation :=
  {| o_is_directory := false; o_time := 100; o_is_file := true;
     o_poll_stat := Some (44%N, 7%Z); o_stat := Some (44%N, 7%Z);
     o_exists := true; o_size := Some 44%N;
     o_now := T "2026-01-05T10:00:00.000001";
     o_write_fails := false; o_copy_fails := false |}.

Definition at_time (t : Q) (o : observation) : observation :=
  {| o_is_directory := o_is_directory o; o_time := t;
     o_is_file := o_is_file o; o_poll_stat := o_poll_stat o;
     o_stat := o_stat o; o_exists := o_exists o; o_size := o_size o;
     o_now := o_now o; o_write_fails := o_write_fails o;
     o_copy_fails := o_copy_fails o |}.

Definition gone : observation :=
  {| o_is_directory := false; o_time := 100; o_is_file := true;
     o_poll_stat := Some (44%N, 7%Z); o_stat := Some (44%N, 7%Z);
     o_exists := false; o_size := None;
     o_now := T "2026-01-05T10:00:00.000001";
     o_write_fails := false; o_copy_fails := false |}.

Definition report_key : file_key := (report, 44%N, 7%Z).

Definition report_created : event :=
  {| ev_kind := created; ev_path := report; ev_world := seen_ok |}.

Definition report_polled : event :=
  {| ev_kind := poll; ev_path := report; ev_world := seen_ok |}.

Definition report_modified (t : Q) : event :=
  {| ev_kind := modified; ev_path := report; ev_world := at_time t seen_ok |}.

(** The same file seen three times. *)
Definition report_events : list event :=
  [report_created; report_modified 100; report_polled].






End Detector.

(** ** Statements about computations on the vault *)

(** The documents of the vault are left as they were: nothing is written
    to, moved from or moved into [Needs_Action], [Done], [Plans],
    [Pending_Approval], the extraction logs or the dashboard. *)
Definition same_documents (v v' : vault) : Prop :=
  needs_action v' = needs_action v ∧ done v' = done v ∧
  artifacts v' = artifacts v ∧ dashboard v' = dashboard v.

(** [keeps C R m]: in an environment that satisfies [C], running [m]
    relates the vault before to the vault after by [R], whether [m]
    returns or raises. *)
Definition keeps {A} (C : env → Prop) (R : vault → vault → Prop) (m : M A)
  : Prop :=
  ∀ e v, C e → R v (m e v).2.

(** [returns m]: [m] never lets an exception out. *)
Definition returns {A} (m : M A) : Prop :=
  ∀ e v, ∃ a, (m e v).1 = Ok a.

Definition dry (e : env) : Prop := dry_run (config e) = true.

(** The same environment with [dry_run] switched. *)
Definition in_mode (mode : bool) (e : env) : env :=
  {| config := {| check_interval := check_interval (config e);
                  max_iterations := max_iterations (config e);
                  dry_run := mode |};
     clock := clock e; read_fails := read_fails e;
     write_fails := write_fails e; move_fails := move_fails e |}.

(** Two vaults that differ at most by their artifacts and dashboard. *)
Definition same_but_artifacts (v1 v2 : vault) : Prop :=
  ticks v1 = ticks v2 ∧ dirs v1 = dirs v2 ∧
  needs_action v1 = needs_action v2 ∧ done v1 = done v2 ∧
  activity v1 = activity v2 ∧ errors v1 = errors v2.

(** Two such vaults, the folders of the first satisfying [J]. *)
Definition alike (J : gset folder → Prop) (v1 v2 : vault) : Prop :=
  same_but_artifacts v1 v2 ∧ J (dirs v1).

Definition has_logs (d : gset folder) : Prop := LOGS_FOLDER ∈ d.

(** [lockstep e P Q m]: started in two vaults related by [P], the live run
    and the dry run of [m] give the same result and end in two vaults
    related by [Q]. *)
Definition lockstep {A} (e : env) (P Q : vault → vault → Prop) (m : M A)
  : Prop :=
  ∀ v1 v2, P v1 v2 →
    (m (in_mode false e) v1).1 = (m (in_mode true e) v2).1 ∧
    Q (m (in_mode false e) v1).2 (m (in_mode true e) v2).2.

(** The activity log of the first vault is that of the second, or that of
    the second with one [task_archived] entry added at the end of a day. *)
Definition archived_more (v1 v2 : vault) : Prop :=
  activity v1 = activity v2 ∨
  ∃ d entry, a_action entry = task_archived ∧
    activity v1 = <[d := default [] (activity v2 !! d) ++ [entry]]> (activity v2).

(** [trails e P m]: started in two vaults related by [P], the live run of
    [m] leaves the activity log of the dry run, or one [task_archived]
    entry more. *)
Definition trails {A} (e : env) (P : vault → vault → Prop) (m : M A) : Prop :=
  ∀ v1 v2, P v1 v2 →
    archived_more (m (in_mode false e) v1).2 (m (in_mode true e) v2).2.

Definition no_write_fails (e : env) : Prop := ∀ p, write_fails e p = false.

Definition any_folders (d : gset folder) : Prop := True.

(** ** A vault used as an example *)

(** A clock that ticks once a second: the [n]-th reading is [n] seconds
    after ten o'clock, for the first minute. *)
Definition two_digits (n : nat) : text :=
  [ascii_of_nat (48 + n / 10); ascii_of_nat (48 + n mod 10)].

Definition example_clock (n : nat) : datetime :=
  {| isoformat := T "2026-01-05T10:00:" ++ two_digits n;
     stamp := T "20260105_1000" ++ two_digits n;
     day := T "2026-01-05" |}.

Definition example_env (mode : bool) : env :=
  {| config := {| check_interval := 60; max_iterations := 5; dry_run := mode |};
     clock := example_clock;
     read_fails := fun _ => false;
     write_fails := fun _ => false;
     move_fails := fun _ => false |}.

Definition all_folders : gset folder :=
  list_to_set
    [NEEDS_ACTION_FOLDER; DONE_FOLDER; LOGS_FOLDER; PLANS_FOLDER;
     APPROVED_FOLDER; REJECTED_FOLDER; PENDING_APPROVAL_FOLDER].

(** A vault whose only document is one task file. *)
Definition vault_with (task_file content : text) : vault :=
  {| ticks := 0; dirs := all_folders;
     needs_action := [(task_file, content)];
     done := ∅; artifacts := ∅; activity := ∅; errors := [];
     dashboard := None |}.

Definition scenario_A : text :=
  T "Invoice #INV-2024 from Acme Corp for $750.00".


Definition task_A : text := T "task_A.md".

(** [glob] for patterns without wildcard characters: the name itself, if
    the folder has it. *)
Definition glob_exact (names : list text) (pattern : text)
  : option (list text) :=
  Some (filter (fun n => n = pattern) names).

(** A vault in which the [Done] folder is missing. *)
Definition vault_without_done : vault :=
  {| ticks := 0; dirs := ∅;
     needs_action := [(task_A, T "The sky is blue today")];
     done := ∅; artifacts := ∅; activity := ∅; errors := [];
     dashboard := None |}.

(** The vault after scenario A has been processed once, in live mode. *)
Definition vault_A_done : vault :=
  (Orchestrator.process_task_file glob_exact task_A (example_env false)
     (vault_with task_A scenario_A)).2.



(** A vault with one unclassified task and no folder yet. *)
Definition vault_bare : vault := vault_without_done.





(* ===================================================================== *)
(** * Further notions: what the detector leaves behind *)
(* ===================================================================== *)

Module Trace.
Import Watcher.

(** The task document [process_file] builds for a file seen with a given
    size at a given time, and the name it is written under. *)
Definition task_for (file_path : text) (file_size : N) (timestamp : text)
  : task_doc :=
  {| original_name := name file_path; source_path := file_path;
     size := file_size; detected := timestamp |}.

Definition task_filename (timestamp : text) : text :=
  T "task_" ++ safe timestamp ++ T ".md".

(** An operation the detector may perform: writing the task document of a
    supported, non-empty file under the name made from its time stamp, or
    copying a supported file under its own name. *)
Definition sound_op (op : fs_op) : Prop :=
  match op with
  | write_task f t =>
      supported (source_path t) = true ∧ size t ≠ 0%N ∧
      t = task_for (source_path t) (size t) (detected t) ∧
      f = task_filename (detected t)
  | copy_file src dest => supported src = true ∧ dest = name src
  end.


(** An event that the handlers drop before anything is recorded for its
    file: a directory event, an event on a file whose extension is not
    supported, or a polled or scanned entry that is not a file. *)
Definition dropped (ev : event) : Prop :=
  supported (ev_path ev) = false ∨
  match ev_kind ev with
  | created | modified | moved => o_is_directory (ev_world ev) = true
  | poll | scan => o_is_file (ev_world ev) = false
  end.

(** Two detectors that remember the same fingerprints and timers. *)
Definition same_memory (d1 d2 : detector) : Prop :=
  PROCESSED_FILES d1 = PROCESSED_FILES d2 ∧ file_timers d1 = file_timers d2.

(** Nothing fails while the event is handled. *)
Definition no_failure (ev : event) : Prop :=
  o_write_fails (ev_world ev) = false ∧ o_copy_fails (ev_world ev) = false.

(** Events used as examples. *)
Definition folder_created : event :=
  {| ev_kind := created; ev_path := T "/vault/Drop_Folder/archive.md";
     ev_world :=
       {| o_is_directory := true; o_time := 100; o_is_file := false;
          o_poll_stat := Some (4096%N, 7%Z); o_stat := Some (4096%N, 7%Z);
          o_exists := true; o_size := Some 4096%N;
          o_now := T "2026-01-05T10:00:00.000001";
          o_write_fails := false; o_copy_fails := false |} |}.

Definition picture_modified : event :=
  {| ev_kind := modified; ev_path := T "/vault/Drop_Folder/photo.PNG";
     ev_world := Detector.seen_ok |}.

End Trace.



(* ===================================================================== *)
(** * The run of the orchestrator ([orchestrator.main]) *)
(* ===================================================================== *)

Module Run.
Import Orchestrator.

Section WithGlob.

Variable glob : list text → text → option (list text).

(** [while running and iteration < config['max_iterations']]: nothing in
    the program clears [running], so the loop makes [max_iterations]
    scans.  Sleeping between two scans changes nothing in the vault. *)
Fixpoint scans (n : nat) : M unit :=
  match n with
  | O => mret tt
  | S n' => scan_and_process glob;; scans n'
  end.

(** [main], once [load_config] has filled [config], for a configuration
    whose [check_interval] is a number that is not negative and whose
    [max_iterations] is a natural number, as [config_t] has them:
    [time.sleep] then only waits, and the comparison with
    [max_iterations] does not raise.  Console lines and an interruption
    from the keyboard are not modelled. *)
Definition main : M unit :=
  ensure_folders_exist;;
  update_dashboard;;
  e ← ask;
  scans (max_iterations (config e));;
  update_dashboard.

End WithGlob.

End Run.

(** ** What no run undoes *)

(** Any environment. *)
Definition always (e : env) : Prop := True.

(** The two logs are only added to: the log of each day and the error log
    keep what they hold, in order, at their beginning. *)
Definition append_only (v v' : vault) : Prop :=
  errors v `prefix_of` errors v' ∧
  ∀ d l, activity v !! d = Some l → ∃ l', activity v' !! d = Some (l ++ l').

(** Artifacts are written to the given folders only, and none is removed. *)
Definition writes_within (folders : list folder) (v v' : vault) : Prop :=
  dom (artifacts v) ⊆ dom (artifacts v') ∧
  ∀ p, p.1 ∉ folders → artifacts v' !! p = artifacts v !! p.

Definition OUTPUT_FOLDERS : list folder :=
  [PLANS_FOLDER; PENDING_APPROVAL_FOLDER; LOGS_FOLDER].

(** Files only go from [Needs_Action] to [Done], under their name and with
    their content: [Needs_Action] loses files and gets none, [Done] loses
    no name, and what [Done] holds under a name either was there or comes
    from [Needs_Action]. *)
Definition moves_to_done (v v' : vault) : Prop :=
  needs_action v' `sublist_of` needs_action v ∧
  dom (done v) ⊆ dom (done v') ∧
  ∀ n c, done v' !! n = Some c →
         done v !! n = Some c ∨ (n, c) ∈ needs_action v.

(** Folders stay, and the clock is only read forward. *)
Definition folders_kept (v v' : vault) : Prop :=
  dirs v ⊆ dirs v' ∧ ticks v ≤ ticks v'.

Definition steady (v v' : vault) : Prop :=
  folders_kept v v' ∧ append_only v v' ∧
  writes_within OUTPUT_FOLDERS v v' ∧ moves_to_done v v'.

(** A vault whose only file is not a task document. *)
Definition vault_idle : vault :=
  {| ticks := 0; dirs := ∅;
     needs_action := [(T "report.txt", T "Quarterly figures")];
     done := ∅; artifacts := ∅; activity := ∅; errors := [];
     dashboard := None |}.


(* ===================================================================== *)
(** * Further notions: what the classifier returns *)
(* ===================================================================== *)

(** A pattern without capturing group. *)
Fixpoint groupless (r : regex) : bool :=
  match r with
  | Group _ _ => false
  | Seq r1 r2 | Alt r1 r2 => groupless r1 && groupless r2
  | Star _ r1 => groupless r1
  | Eps | Chr _ | WordB | Eol => true
  end.

(** What [analyze_intent] can put under a key of [entities]: a float
    under [amount]; a string with an [@] under [sender]; a string under
    [subject]; a non-empty string of letters, digits and hyphens under
    [invoice_number]; a non-empty string without newline under [vendor]. *)
Definition entity_of_classifier (key : string) (v : pyval) : Prop :=
  match v with
  | VFloat _ => key = "amount"
  | VStr s =>
      (key = "sender" ∧ "@"%char ∈ s) ∨
      key = "subject" ∨
      (key = "invoice_number" ∧ s ≠ [] ∧
       Forall (fun c => invoice_char c = true) s) ∨
      (key = "vendor" ∧ s ≠ [] ∧ newline ∉ s)
  | VNone => False
  end.

(** The result of [analyze_intent], by intent. *)
Definition shape_of_result (r : IntentResult) : Prop :=
  match intent r with
  | email_draft =>
      category r = communication ∧ confidence r = 0.8%Q ∧
      priority r = medium ∧ requires_approval r = true ∧
      approval_reason r = Some email_reply_rule ∧
      entities r !! "amount" = None
  | payment_request =>
      category r = finance ∧ confidence r = 0.9%Q ∧
      match entities r !! "amount" with
      | Some (VFloat x) =>
          if (THRESHOLD <? x)%N
          then priority r = high ∧ requires_approval r = true ∧
               approval_reason r = Some (exceeds_threshold x)
          else priority r = medium ∧ requires_approval r = false ∧
               approval_reason r = None
      | Some _ => False
      | None => priority r = medium ∧ requires_approval r = false ∧
                approval_reason r = None
      end
  | data_extraction => r = classify data_extraction admin 0.7%Q initial_results
  | unknown => r = initial_results
  | payment_acknowledgment | general => False
  end.


(* ===================================================================== *)
(** * Further notions: the data extractor *)
(* ===================================================================== *)

(** An amount kept by the filter [0 < x < 100000], in hundredths. *)
Definition kept_amount (x : N) : Prop := (0 < x < 10000000)%N.

(** The extraction log can be written: the run is dry, or the [Logs]
    folder exists and no write into it fails. *)
Definition extraction_log_writable (e : env) (v : vault) : Prop :=
  dry_run (config e) = false →
  LOGS_FOLDER ∈ dirs v ∧ ∀ n, write_fails e (LOGS_FOLDER, n) = false.

(** A text with two amounts, one of them outside the range kept. *)
Definition two_amounts : text := T "Totals: $1,250.00 and 250,000.00 (ref 0)".


(* ===================================================================== *)
(** * Further notions: a task processed without a fault *)
(* ===================================================================== *)

(** [Needs_Action] and [Done] are as they were, and no folder is gone. *)
Definition files_kept (v v' : vault) : Prop :=
  needs_action v' = needs_action v ∧ done v' = done v ∧ dirs v ⊆ dirs v'.

(** [glob] refuses no pattern and lists names of the folder, each once
    when the folder holds each name once. *)
Definition glob_lists (glob : list text → text → option (list text)) : Prop :=
  ∀ names pattern, ∃ l,
    glob names pattern = Some l ∧ l ⊆ names ∧ (NoDup names → NoDup l).

(** What archiving a task needs from the environment: a live run in which
    the task file can be read, no move fails and no write into [Logs]
    fails.  Writes into [Plans] and [Pending_Approval] may fail. *)
Definition lets_archive (e : env) (task_file : text) : Prop :=
  dry_run (config e) = false ∧
  read_fails e (NEEDS_ACTION_FOLDER, task_file) = false ∧
  (∀ p, move_fails e p = false) ∧
  (∀ n, write_fails e (LOGS_FOLDER, n) = false).

(** An environment in which no plan and no draft can be written. *)
Definition no_artifact_env : env :=
  {| config := {| check_interval := 60; max_iterations := 5; dry_run := false |};
     clock := example_clock;
     read_fails := fun _ => false;
     write_fails := fun p => bool_decide (p.1 ≠ LOGS_FOLDER);
     move_fails := fun _ => false |}.


(* ===================================================================== *)
(** * Further notions: the first amount of a text *)
(* ===================================================================== *)

(** The digits a text starts with, and what follows them. *)
Fixpoint digits_of (s : text) : text * text :=
  match s with
  | c :: s' =>
      if is_digit c then let '(d, r) := digits_of s' in (c :: d, r)
      else ([], s)
  | [] => ([], [])
  end.

(** A point and two digits, if the text starts with them. *)
Definition fraction_of (r : text) : text :=
  match r with
  | p :: d1 :: d2 :: _ =>
      if Ascii.eqb "." p && is_digit d1 && is_digit d2 then [p; d1; d2]
      else []
  | _ => []
  end.

(** The numeral a text starts with: its leading digits, with a point and
    two digits when they follow. *)
Definition numeral_at (s : text) : text :=
  (digits_of s).1 ++ fraction_of (digits_of s).2.

(** The numeral at the first digit of a text. *)
Fixpoint first_numeral (s : text) : option text :=
  match s with
  | [] => None
  | c :: s' => if is_digit c then Some (numeral_at s) else first_numeral s'
  end.

(** The position of the matcher after it has passed [w]. *)
Definition advance (w : text) (st : mstate) : mstate :=
  MState (rev w ++ seen st) (drop (List.length w) (rest st)) (caps st).


(* ===================================================================== *)
(** * Further notions: the task document the detector writes *)
(* ===================================================================== *)

Module Handoff.
Import Watcher.

(** [str(n)] for a natural number. *)
Fixpoint decimal_from (fuel : nat) (n : N) (acc : text) : text :=
  match fuel with
  | O => acc
  | S fuel' =>
      let acc' := ascii_of_N (48 + n mod 10) :: acc in
      if (n <? 10)%N then acc' else decimal_from fuel' (n / 10) acc'
  end.

Definition decimal (n : N) : text :=
  decimal_from (S (N.to_nat (N.size n))) n [].

(** The text [process_file] writes into the task file: the f-string
    [task_content], with [file_path] absolute. *)
Definition task_content (t : task_doc) : text :=
  T "---" ++ [newline] ++
  T "type: file_drop" ++ [newline] ++
  T "original_name: " ++ original_name t ++ [newline] ++
  T "source_path: " ++ source_path t ++ [newline] ++
  T "size: " ++ decimal (size t) ++ [newline] ++
  T "detected: " ++ detected t ++ [newline] ++
  T "priority: medium" ++ [newline] ++
  T "status: pending" ++ [newline] ++
  T "---" ++ [newline] ++
  [newline] ++
  T "# File Dropped: " ++ original_name t ++ [newline] ++
  [newline] ++
  T "A new file has been dropped in the Drop_Folder and requires processing."
    ++ [newline] ++
  [newline] ++
  T "**File Details:**" ++ [newline] ++
  T "- Name: " ++ original_name t ++ [newline] ++
  T "- Size: " ++ decimal (size t) ++ T " bytes" ++ [newline] ++
  T "- Detected: " ++ detected t ++ [newline] ++
  T "- Source: " ++ source_path t ++ [newline] ++
  [newline] ++
  T "**Action Required:**" ++ [newline] ++
  T "Please review and process this file." ++ [newline].

(** What the orchestrator analyses for a task: [task_content + "\n" +
    source_content]. *)
Definition analysis_content (t : task_doc) (source_content : text) : text :=
  task_content t ++ [newline] ++ source_content.

Definition digit_free (s : text) : Prop :=
  Forall (fun c => is_digit c = false) s.

(** The task document of an invoice of 2048 bytes that states a total
    of 120 dollars. *)
Definition invoice_task : task_doc :=
  Trace.task_for (T "/vault/Drop_Folder/invoice.txt") 2048
    (T "2026-01-05T10:00:00.000001").

Definition invoice_text : text := T "Total due: $120.00".

End Handoff.


(* ===================================================================== *)
(** * Further notions: names in the task document *)
(* ===================================================================== *)



(* ===================================================================== *)
(** * Further notions: what the dashboard shows *)
(* ===================================================================== *)

(** The dashboard can be written: the run is live and the write of
    [Dashboard.md] does not fail. *)
Definition dashboard_writable (e : env) : Prop :=
  dry_run (config e) = false ∧ write_fails e Orchestrator.DASHBOARD_FILE = false.

(** The four counts of a dashboard are those [get_folder_count] gives on
    the vault. *)
Definition shows (d : dashboard_doc) (e : env) (v : vault) : Prop :=
  Orchestrator.get_folder_count NEEDS_ACTION_FOLDER e v
    = (Ok (d_needs_action d), v) ∧
  Orchestrator.get_folder_count PENDING_APPROVAL_FOLDER e v
    = (Ok (d_pending d), v) ∧
  Orchestrator.get_folder_count DONE_FOLDER e v = (Ok (d_done d), v) ∧
  Orchestrator.get_folder_count PLANS_FOLDER e v = (Ok (d_plans d), v).

(** The vault holds a dashboard that shows it, with at most five recent
    activities. *)
Definition dashboard_current (e : env) (v : vault) : Prop :=
  ∃ d, dashboard v = Some d ∧ shows d e v ∧ List.length (d_recent d) ≤ 5.


(* ===================================================================== *)
(** * Further notions: what the routing step writes *)
(* ===================================================================== *)





(* ===================================================================== *)
(** * Further notions: what becomes of the files *)
(* ===================================================================== *)

(** No file of [Needs_Action] is lost: each is still there, or its name
    has left the folder and [Done] holds it with its content. *)
Definition no_file_lost (v v' : vault) : Prop :=
  ∀ n c, (n, c) ∈ needs_action v →
    (n, c) ∈ needs_action v' ∨
    ((n ∉ (needs_action v').*1) ∧ done v' !! n = Some c).

(** No name comes into [Needs_Action], and [Done] changes only under
    the names of [Needs_Action]. *)
Definition done_elsewhere_kept (v v' : vault) : Prop :=
  ∀ n, n ∉ (needs_action v).*1 →
    (n ∉ (needs_action v').*1) ∧ done v' !! n = done v !! n.

(** What a step keeps of a folder that holds each name once. *)
Definition conserves (v v' : vault) : Prop :=
  NoDup (needs_action v).*1 →
  NoDup (needs_action v').*1 ∧ done_elsewhere_kept v v' ∧ no_file_lost v v'.

(* ===================================================================== *)
(** * Properties of the matcher *)
(* ===================================================================== *)

Lemma run_sound r : ∀ k st res,
  run r k st = Some res → ∃ st', Matches r st st' ∧ k st' = Some res.
Proof.
  induction r as [|p|r1 IH1 r2 IH2|r1 IH1 r2 IH2|g r1 IH1|i r1 IH1| |];
    intros k st res H; simpl in H.
  - eauto using Matches.
  - destruct (rest st) as [|c t] eqn:E; [done|].
    destruct (p c) eqn:Ep; [|done]. eauto using Matches.
  - apply IH1 in H as (st1 & M1 & H). apply IH2 in H as (st2 & M2 & H).
    eauto using Matches.
  - destruct (run r1 k st) eqn:E1.
    + inversion H; subst. apply IH1 in E1 as (st' & M & E). eauto using Matches.
    + apply IH2 in H as (st' & M & E). eauto using Matches.
  - remember (List.length (rest st)) as n eqn:Hn in H. clear Hn.
    revert st res H. induction n as [|n IHn]; intros st res H; simpl in H.
    + eauto using Matches.
    + destruct g.
      * destruct (run r1 _ st) eqn:E1.
        -- inversion H; subst. apply IH1 in E1 as (st1 & M1 & Hx).
           destruct (_ <? _)%nat; [|done].
           apply IHn in Hx as (st2 & M2 & Hx). eauto using Matches.
        -- eauto using Matches.
      * destruct (k st) eqn:E1.
        -- inversion H; subst. eauto using Matches.
        -- apply IH1 in H as (st1 & M1 & Hx).
           destruct (_ <? _)%nat; [|done].
           apply IHn in Hx as (st2 & M2 & Hx). eauto using Matches.
  - apply IH1 in H as (st' & M & E). eauto using Matches.
  - destruct (at_word_boundary st) eqn:E; [|done]. eauto using Matches.
  - destruct (at_end st) eqn:E; [|done]. eauto using Matches.
Qed.

(** A match only moves forward in the subject. *)
Lemma Matches_rest r st st' :
  Matches r st st' → ∃ w, rest st = w ++ rest st'.
Proof.
  induction 1 as [st|p c t st E _|r1 r2 st st1 st2 _ [w1 E1] _ [w2 E2]
                 | | | |g r st st1 st2 _ [w1 E1] _ [w2 E2]| | |];
    simpl; try (by exists []); try done.
  - exists [c]. by rewrite E.
  - exists (w1 ++ w2). by rewrite E1, E2, app_assoc.
  - exists (w1 ++ w2). by rewrite E1, E2, app_assoc.
Qed.

Lemma consumed_app w st st' : rest st = w ++ rest st' → consumed st st' = w.
Proof.
  intros E. unfold consumed. rewrite E, length_app.
  replace (List.length w + List.length (rest st') - List.length (rest st'))
    with (List.length w) by lia.
  by rewrite take_app_length.
Qed.

Lemma Matches_Chr p st st' :
  Matches (Chr p) st st' → ∃ c, rest st = c :: rest st' ∧ p c = true.
Proof. inversion 1; subst; simpl; eauto. Qed.

Lemma Matches_Star_Chr g p st st' :
  Matches (Star g (Chr p)) st st' →
  ∃ w, rest st = w ++ rest st' ∧ Forall (fun c => p c = true) w.
Proof.
  intros H. remember (Star g (Chr p)) as r eqn:Er.
  induction H as [| | | | |g' r' st|g' r' st st1 st2 H1 _ H2 IH2| | |];
    try discriminate.
  - by exists [].
  - injection Er as -> ->.
    destruct (Matches_Chr _ _ _ H1) as (c & E1 & Hc).
    destruct (IH2 eq_refl) as (w & E2 & Hw).
    exists (c :: w). split; [by rewrite E1, E2|by constructor].
Qed.

(** What group 1 of the amount pattern holds, and where the match lies. *)
Lemma Matches_AMOUNT st st' :
  Matches AMOUNT st st' →
  ∃ pre w, assoc 1 (caps st') = Some w ∧ amount_numeral w ∧
           rest st = pre ++ w ++ rest st'.
Proof.
  unfold AMOUNT, Opt, Plus. intros H.
  inversion H as [| |? ? ? st1 ? Hpre Hgrp| | | | | | |]; subst; clear H.
  apply Matches_rest in Hpre as [pre Epre].
  inversion Hgrp as [| | | | | | |? ? ? st2 Hin| |]; subst; clear Hgrp.
  inversion Hin as [| |? ? ? st3 ? Hint Hfrac| | | | | | |]; subst; clear Hin.
  inversion Hint as [| |? ? ? st4 ? Hd Hds| | | | | | |]; subst; clear Hint.
  apply Matches_Chr in Hd as (c & Ec & Hc).
  apply Matches_Star_Chr in Hds as (ds & Eds & Hds).
  assert (Eint : rest st1 = (c :: ds) ++ rest st3) by (by rewrite Ec, Eds).
  assert (Hint : all_digits (c :: ds)) by (by constructor).
  inversion Hfrac as [| | |? ? ? ? Hf|? ? ? ? Hf| | | | |]; subst; clear Hfrac.
  - inversion Hf as [| |? ? ? st5 ? Hp Hdd| | | | | | |]; subst; clear Hf.
    inversion Hdd as [| |? ? ? st6 ? Hd1 Hd2| | | | | | |]; subst; clear Hdd.
    apply Matches_Chr in Hp as (cp & Ep & Hp).
    apply Matches_Chr in Hd1 as (d1 & E1 & Hd1).
    apply Matches_Chr in Hd2 as (d2 & E2 & Hd2).
    apply Ascii.eqb_eq in Hp. subst cp.
    assert (E : rest st1 = ((c :: ds) ++ "."%char :: [d1; d2]) ++ rest st2).
    { rewrite Eint, Ep, E1, E2. by rewrite <- !app_assoc. }
    exists pre, ((c :: ds) ++ "."%char :: [d1; d2]). simpl assoc.
    rewrite (consumed_app _ _ _ E). split_and!; [done| |by rewrite Epre, E].
    exists (c :: ds). split_and!; [done|done|]. right. by exists d1, d2.
  - inversion Hf; subst.
    exists pre, (c :: ds). simpl assoc.
    rewrite (consumed_app _ _ _ Eint). split_and!; [done| |by rewrite Epre, Eint].
    exists (c :: ds). split_and!; [done|done|by left].
Qed.

Lemma match_at_AMOUNT before ahead m :
  match_at AMOUNT before ahead = Some m →
  ∃ pre w, group 1 m = Some w ∧ amount_numeral w ∧
           ahead = pre ++ w ++ after m.
Proof.
  unfold match_at. destruct (run AMOUNT Some _) as [st'|] eqn:E; [|done].
  intros [= <-]. apply run_sound in E as (st1 & HM & [= ->]).
  apply Matches_AMOUNT in HM as (pre & w & ? & ? & ?). by exists pre, w.
Qed.

(** Everything [findall] returns is a match at some position. *)
Lemma findall_from_match r m : ∀ fuel before ahead,
  m ∈ findall_from fuel r before ahead →
  ∃ b a, match_at r b a = Some m.
Proof.
  induction fuel as [|fuel IH]; intros before ahead; simpl; [by inversion 1|].
  destruct (match_at r before ahead) as [m'|] eqn:E.
  - destruct (whole m').
    + intros [->|H]%elem_of_cons; [eauto|].
      destruct ahead; [by inversion H|eauto].
    + intros [->|H]%elem_of_cons; eauto.
  - destruct ahead; [by inversion 1|eauto].
Qed.

Lemma findall_match r s m :
  m ∈ findall r s → ∃ b a, match_at r b a = Some m.
Proof. apply findall_from_match. Qed.

(** ** [float] on the numerals of the amount pattern *)

Lemma digit_not_point c : is_digit c = true → Ascii.eqb c "." = false.
Proof.
  intros H. destruct (Ascii.eqb_spec c ".") as [->|]; [|done].
  by vm_compute in H.
Qed.

Lemma split_point_digits ip rest :
  all_digits ip →
  split_point (ip ++ rest) = ((ip ++ (split_point rest).1), (split_point rest).2).
Proof.
  induction 1 as [|c ip Hc _ IH]; simpl; [by destruct (split_point rest)|].
  rewrite (digit_not_point _ Hc), IH. done.
Qed.

Lemma digits_value_total ip : ∀ acc,
  all_digits ip → ∃ n, digits_value acc ip = Some n.
Proof.
  induction ip as [|c ip IH]; intros acc H; simpl; [eauto|].
  inversion H as [|? ? Hc Hip]; subst. rewrite Hc. by apply IH.
Qed.

Lemma py_float_numeral w : amount_numeral w → ∃ x, py_float w = Some x.
Proof.
  intros (ip & Hne & Hip & [->|(d1 & d2 & H1 & H2 & ->)]); unfold py_float;
    destruct (digits_value_total ip 0%N Hip) as [n Hn].
  - rewrite <- (app_nil_r ip), split_point_digits by done.
    rewrite app_nil_r. destruct ip as [|c ip]; [done|].
    cbn -[digits_value N.mul N.add]. rewrite Hn. simpl. eauto.
  - rewrite split_point_digits by done.
    destruct ip as [|c ip]; [done|].
    destruct (digits_value_total [d1; d2] 0%N) as [f Hf];
      [by repeat constructor|].
    cbn -[digits_value N.mul N.add]. rewrite app_nil_r, Hn.
    cbn -[digits_value N.mul N.add]. rewrite Hf. simpl. eauto.
Qed.
(** [float(amounts[0])] does not raise. *)
Lemma first_amount_defined content a l :
  map (group_text 1) (findall AMOUNT content) = a :: l →
  ∃ x, py_float a = Some x.
Proof.
  intros H. destruct (findall AMOUNT content) as [|m ms] eqn:E; [done|].
  injection H as <- _.
  destruct (findall_match AMOUNT content m) as (b & ah & Hm);
    [rewrite E; by left|].
  apply match_at_AMOUNT in Hm as (pre & w & Hg & Hw & _).
  unfold group_text. rewrite Hg. simpl. by apply py_float_numeral.
Qed.

(** [analyze_intent] returns a result on every text. *)
Lemma analyze_intent_returns content : ∃ r, analyze_intent content = Some r.
Proof.
  unfold analyze_intent.
  destruct (search EMAIL_REPLY _); [eauto|].
  destruct (search PAYMENT _); [|destruct (search EXTRACTION _); eauto].
  destruct (map (group_text 1) (findall AMOUNT content)) as [|a l] eqn:E.
  - simpl. eauto.
  - destruct (first_amount_defined _ _ _ E) as [x ->]. simpl. eauto.
Qed.
(* ===================================================================== *)
(** * The classifier *)
(* ===================================================================== *)

Lemma is_prefix_app w : ∀ t,
  Orchestrator.is_prefix w t = true → t = w ++ drop (List.length w) t.
Proof.
  induction w as [|c w IH]; intros [|d t]; simpl; try done.
  intros [Hc Hw]%andb_true_iff. apply Ascii.eqb_eq in Hc as ->.
  f_equal. by apply IH.
Qed.

(** The payment rule fires on the whole word "invoice". *)
Lemma match_at_PAYMENT_invoice before post :
  head_is_word before = false → head_is_word post = false →
  is_Some (match_at PAYMENT before (T "invoice" ++ post)).
Proof.
  intros Hb Hp. unfold match_at, PAYMENT.
  cbn. unfold at_word_boundary. cbn. rewrite Hb. cbn.
  unfold at_word_boundary. cbn. rewrite Hp. cbn. eauto.
Qed.

Lemma search_from_match r : ∀ ahead before,
  is_Some (match_at r before ahead) → is_Some (search_from r before ahead).
Proof.
  intros [|c ahead] before [m Hm]; simpl; rewrite Hm; eauto.
Qed.

Lemma has_word_invoice_search : ∀ ahead before,
  has_word_from (T "invoice") before ahead = true →
  is_Some (search_from PAYMENT before ahead).
Proof.
  induction ahead as [|c ahead IH]; intros before H.
  - simpl in H. rewrite orb_false_r, andb_false_r in H. done.
  - unfold has_word_from in H; fold has_word_from in H.
    apply orb_true_iff in H as [H|H].
    + apply search_from_match.
      apply andb_true_iff in H as [[Hb Hp]%andb_true_iff Ha].
      apply negb_true_iff in Hb, Ha. apply is_prefix_app in Hp.
      rewrite Hp. by apply match_at_PAYMENT_invoice.
    + apply IH in H. simpl. destruct (match_at PAYMENT before (c :: ahead)); eauto.
Qed.

Lemma invoice_keyword_payment_rule content :
  contains_keyword "invoice" content → payment_rule content = true.
Proof.
  intros H. apply bool_decide_eq_true. by apply has_word_invoice_search.
Qed.

(** The rules are tried in the order email reply, payment, extraction,
    default, and the first one that fires decides the intent. *)
Lemma analyze_intent_first_match content :
  ∃ r, analyze_intent content = Some r ∧
    intent r = (if email_rule content then email_draft
                else if payment_rule content then payment_request
                else if extraction_rule content then data_extraction
                else unknown).
Proof.
  destruct (analyze_intent_returns content) as [r Hr]. exists r. split; [done|].
  revert Hr. unfold analyze_intent, email_rule, payment_rule, extraction_rule.
  destruct (search EMAIL_REPLY _) as [me|].
  { intros [= <-]. rewrite bool_decide_eq_true_2 by eauto.
    destruct (map whole _); destruct (search SUBJECT _); done. }
  rewrite (bool_decide_eq_false_2 (is_Some None)) by (by intros [? ?]).
  destruct (search PAYMENT _) as [mp|].
  { rewrite bool_decide_eq_true_2 by eauto.
    destruct (map (group_text 1) _) as [|a l]; simpl.
    - intros [= <-]. destruct (search INVOICE _); destruct (search VENDOR _); done.
    - destruct (py_float a) as [x|]; simpl; [|done]. intros [= <-].
      destruct (THRESHOLD <? x)%N;
        destruct (search INVOICE _); destruct (search VENDOR _); done. }
  rewrite (bool_decide_eq_false_2 (is_Some None)) by (by intros [? ?]).
  destruct (search EXTRACTION _) as [mx|].
  { rewrite bool_decide_eq_true_2 by eauto. by intros [= <-]. }
  rewrite (bool_decide_eq_false_2 (is_Some None)) by (by intros [? ?]).
  by intros [= <-].
Qed.

(** What the payment branch leaves in the result, by the first amount. *)
Lemma analyze_intent_payment content r :
  analyze_intent content = Some r → intent r = payment_request →
  match first_amount content with
  | Some x =>
      entities r !! "amount" = Some (VFloat x) ∧
      if (THRESHOLD <? x)%N
      then requires_approval r = true ∧ priority r = high ∧
           approval_reason r = Some (exceeds_threshold x)
      else requires_approval r = false ∧ priority r = medium ∧
           approval_reason r = None
  | None =>
      findall AMOUNT content = [] ∧
      entities r !! "amount" = None ∧ requires_approval r = false ∧
      priority r = medium ∧ approval_reason r = None
  end.
Proof.
  unfold analyze_intent, first_amount.
  destruct (search EMAIL_REPLY _) as [me|].
  { intros [= <-]. destruct (map whole _); destruct (search SUBJECT _); done. }
  destruct (search PAYMENT _) as [mp|];
    [|destruct (search EXTRACTION _); by intros [= <-]].
  destruct (map (group_text 1) (findall AMOUNT content)) as [|a l] eqn:E; simpl.
  - intros [= <-] _. split; [by destruct (findall AMOUNT content)|].
    destruct (search INVOICE _); destruct (search VENDOR _); simpl;
      rewrite ?lookup_insert_ne by done; done.
  - destruct (py_float a) as [x|]; simpl; [|done]. intros [= <-] _.
    destruct (THRESHOLD <? x)%N;
      destruct (search INVOICE _); destruct (search VENDOR _); simpl;
      rewrite ?lookup_insert_ne by done; rewrite lookup_insert_eq; done.
Qed.

(** C2: for every content classified as a payment request, a first amount
    of exactly 500 leaves [requires_approval] false and the priority
    medium, and a first amount of 500.01 or more sets [requires_approval]
    and raises the priority to high.  Amounts are in hundredths. *)
Theorem C2_threshold content r x :
  analyze_intent content = Some r →
  intent r = payment_request →
  first_amount content = Some x →
  entities r !! "amount" = Some (VFloat x) ∧
  (x = 50000%N → requires_approval r = false ∧ priority r = medium) ∧
  ((50001 ≤ x)%N → requires_approval r = true ∧ priority r = high).
Proof.
  intros Hr Hi Hx. pose proof (analyze_intent_payment _ _ Hr Hi) as H.
  rewrite Hx in H. destruct H as [He H]. split; [done|]. unfold THRESHOLD in H.
  split; intros Hv.
  - subst x. simpl in H. tauto.
  - destruct (N.ltb_spec 50000 x); [tauto|lia].
Qed.

Lemma C2_threshold_witness :
  (∃ r, analyze_intent pay_500 = Some r ∧
        requires_approval r = false ∧ priority r = medium) ∧
  (∃ r, analyze_intent pay_500_01 = Some r ∧
        requires_approval r = true ∧ priority r = high).
Proof.
  split.
  - destruct (analyze_intent pay_500) as [r|] eqn:E; [|by vm_compute in E].
    exists r. split; [done|].
    apply (C2_threshold pay_500 r 50000%N E).
    + by vm_compute in E; injection E as <-.
    + by vm_compute.
    + done.
  - destruct (analyze_intent pay_500_01) as [r|] eqn:E; [|by vm_compute in E].
    exists r. split; [done|].
    apply (C2_threshold pay_500_01 r 50001%N E).
    + by vm_compute in E; injection E as <-.
    + by vm_compute.
    + done.
Defined.

(** C5, as amended: the rules are tried in the fixed order email reply,
    payment, extraction, default, and the first one that fires decides the
    intent alone.  A text that contains both "invoice" and "extract" as
    whole words is never classified as a data extraction; it is a payment
    request unless the email-reply rule, which comes first, fires on it. *)
Theorem C5_rule_order content :
  ∃ r, analyze_intent content = Some r ∧
    intent r = (if email_rule content then email_draft
                else if payment_rule content then payment_request
                else if extraction_rule content then data_extraction
                else unknown) ∧
    (contains_keyword "invoice" content →
     contains_keyword "extract" content →
     intent r ≠ data_extraction ∧
     (email_rule content = false → intent r = payment_request)).
Proof.
  destruct (analyze_intent_first_match content) as (r & Hr & Hi).
  exists r. split_and!; [done|done|]. intros Hinv _.
  apply invoice_keyword_payment_rule in Hinv. rewrite Hinv in Hi.
  destruct (email_rule content); rewrite Hi; done.
Qed.

Lemma C5_rule_order_witness :
  ∃ r, analyze_intent invoice_and_extract = Some r ∧
       intent r = payment_request.
Proof.
  destruct (C5_rule_order invoice_and_extract) as (r & Hr & _ & H).
  exists r. split; [done|].
  apply H; vm_compute; reflexivity.
Defined.

(** C5 as stated fails: this text contains both keywords and its intent is
    [email_draft], not [payment_request]. *)
Lemma C5_counterexample :
  contains_keyword "invoice" reply_invoice_extract ∧
  contains_keyword "extract" reply_invoice_extract ∧
  intent <$> analyze_intent reply_invoice_extract = Some email_draft ∧
  intent <$> analyze_intent reply_invoice_extract ≠ Some payment_request.
Proof. vm_compute. by split_and!. Qed.

(** No digit, no amount. *)
Lemma numeral_has_digit w : amount_numeral w → Exists (fun c => is_digit c = true) w.
Proof.
  intros (ip & Hne & Hip & Hw). destruct ip as [|c ip]; [done|].
  inversion Hip; subst.
  destruct Hw as [->|(d1 & d2 & _ & _ & ->)]; by apply Exists_cons_hd.
Qed.

Lemma match_at_AMOUNT_digit before ahead :
  Forall (fun c => is_digit c = false) ahead → match_at AMOUNT before ahead = None.
Proof.
  intros Hno. destruct (match_at AMOUNT before ahead) as [m|] eqn:E; [|done].
  apply match_at_AMOUNT in E as (pre & w & _ & Hw & ->).
  apply numeral_has_digit in Hw.
  apply Forall_app in Hno as [_ [Hno _]%Forall_app].
  apply Exists_exists in Hw as (c & Hc & Hd).
  rewrite Forall_forall in Hno. by rewrite (Hno c Hc) in Hd.
Qed.

Lemma findall_AMOUNT_no_digit content :
  Forall (fun c => is_digit c = false) content → findall AMOUNT content = [].
Proof.
  unfold findall. generalize (S (List.length content)) (@nil ascii).
  intros fuel. revert content.
  induction fuel as [|fuel IH]; intros ahead before Hno; simpl; [done|].
  rewrite match_at_AMOUNT_digit by done.
  destruct ahead as [|c ahead]; [done|]. apply IH. by inversion Hno.
Qed.

(** C9, as amended: for every text on which the payment rule fires, the
    email-reply rule (tried first) does not, and in which the amount
    pattern finds nothing, [analyze_intent] returns [payment_request] with
    [requires_approval] false, priority medium and no amount entity: the
    threshold test is skipped. *)
Theorem C9_no_amount content :
  email_rule content = false →
  payment_rule content = true →
  findall AMOUNT content = [] →
  ∃ r, analyze_intent content = Some r ∧
       intent r = payment_request ∧ requires_approval r = false ∧
       priority r = medium ∧ entities r !! "amount" = None ∧
       approval_reason r = None.
Proof.
  intros He Hp Hno.
  destruct (analyze_intent_first_match content) as (r & Hr & Hi).
  rewrite He, Hp in Hi. exists r. split_and!; [done|done|..];
    pose proof (analyze_intent_payment _ _ Hr Hi) as H;
    unfold first_amount in H; rewrite Hno in H; simpl in H; tauto.
Qed.

Lemma C9_no_amount_witness :
  ∃ r, analyze_intent pay_the_vendor = Some r ∧
       intent r = payment_request ∧ requires_approval r = false ∧
       priority r = medium ∧ entities r !! "amount" = None ∧
       approval_reason r = None.
Proof.
  apply (C9_no_amount pay_the_vendor).
  - vm_compute; reflexivity.
  - vm_compute; reflexivity.
  - apply findall_AMOUNT_no_digit. vm_compute. repeat constructor.
Defined.

(** C9 as stated fails: the payment rule fires on this text and the
    amount pattern finds nothing in it, yet the result is an [email_draft]
    that requires approval. *)
Lemma C9_counterexample :
  payment_rule reply_about_payment = true ∧
  findall AMOUNT reply_about_payment = [] ∧
  (∃ r, analyze_intent reply_about_payment = Some r ∧
        intent r = email_draft ∧ requires_approval r = true) ∧
  ¬ (∃ r, analyze_intent reply_about_payment = Some r ∧
          intent r = payment_request ∧ requires_approval r = false).
Proof.
  split_and!.
  - by vm_compute.
  - by vm_compute.
  - destruct (analyze_intent reply_about_payment) as [r|] eqn:E;
      [|by vm_compute in E].
    exists r. vm_compute in E. by injection E as <-.
  - intros (r & E & Hi & _). vm_compute in E. by injection E as <-.
Qed.

(* ===================================================================== *)
(** * The detector *)
(* ===================================================================== *)

Section DetectorProperties.
Import Watcher Detector.

Variable DRY_RUN : bool.

Lemma completions_log l d :
  completions (log l d) = (completions d + if is_completion l then 1 else 0)%nat.
Proof.
  unfold completions, log. simpl. rewrite List.filter_app, length_app. simpl.
  by destruct (is_completion l).
Qed.

Lemma tasks_written_perform op d :
  tasks_written (perform op d)
  = (tasks_written d + if is_task_write op then 1 else 0)%nat.
Proof.
  unfold tasks_written, perform. simpl. rewrite List.filter_app, length_app.
  simpl. by destruct (is_task_write op).
Qed.

Lemma completions_mark k d : completions (mark_processed k d) = completions d.
Proof. done. Qed.

Lemma completions_set_timer p now d :
  completions (set_timer p now d) = completions d.
Proof. done. Qed.

Lemma completions_perform op d : completions (perform op d) = completions d.
Proof. done. Qed.

Ltac close_ending :=
  unfold raises, fails_after_write, lets_through, tasks_written;
  simpl;
  repeat first [rewrite completions_mark | rewrite completions_log
               | rewrite completions_perform];
  rewrite ?List.filter_app, ?length_app, ?last_snoc;
  simpl;
  repeat match goal with H : _ = _ |- _ => rewrite H end;
  simpl;
  first [done | lia | by eauto | by (rewrite <- app_assoc; simpl; eauto)
        | by (rewrite app_nil_r; eauto)
        | by (intros ? ? [= <- <-]) | by (intros ? ? [=])].

Lemma process_file_ending p kind o d :
  ending DRY_RUN p o d (process_file DRY_RUN p kind o d)
  ∧ file_timers (process_file DRY_RUN p kind o d) = file_timers d.
Proof.
  unfold process_file, failed.
  destruct (supported p) eqn:Hs; simpl.
  2:{ split; [|done]. apply ends_rejected; [by left|by left|close_ending..]. }
  destruct (o_stat o) as [[sz mt]|] eqn:Hst.
  2:{ split; [|done]. eapply ends_failed; close_ending. }
  case_bool_decide as Hk.
  { split; [|done]. by eapply ends_skipped; [done|done|close_ending..]. }
  destruct (o_exists o) eqn:Hex; simpl.
  2:{ split; [|done].
      apply ends_rejected; [by right; left|right; close_ending|close_ending..]. }
  destruct (o_size o) as [n|] eqn:Hsz.
  2:{ split; [|done]. eapply ends_failed; close_ending. }
  destruct (n =? 0)%N eqn:Hn.
  { split; [|done].
    apply ends_rejected;
      [right; right; by apply N.eqb_eq in Hn as ->|right; close_ending
      |close_ending..]. }
  destruct DRY_RUN eqn:Hdry.
  { split; [|done]. eapply ends_completed; [done| |done|done|..]; close_ending. }
  destruct (o_write_fails o) eqn:Hw.
  { split; [|done]. eapply ends_failed; close_ending. }
  destruct (o_copy_fails o) eqn:Hc.
  { split; [|done]. eapply ends_failed; close_ending. }
  split; [|done]. eapply ends_completed; [done| |done|done|..]; close_ending.
Qed.


Lemma lets_through_raises o :
  lets_through DRY_RUN o = true → is_Some (o_stat o) → raises DRY_RUN o = false.
Proof.
  unfold lets_through, raises. intros H [st ->].
  destruct (o_exists o); [|done]. destruct (o_size o) as [n|]; [|done].
  destruct (n =? 0)%N; [done|]. simpl in *.
  destruct DRY_RUN; [done|]. simpl in *.
  by destruct (o_write_fails o), (o_copy_fails o).
Qed.

(** With the world letting it through, a supported file whose
    fingerprint is not yet processed is taken to the end of the
    task-creation path. *)
Lemma process_file_completes p kind o d sz mt :
  supported p = true → lets_through DRY_RUN o = true →
  o_stat o = Some (sz, mt) → (p, sz, mt) ∉ PROCESSED_FILES d →
  let d' := process_file DRY_RUN p kind o d in
  PROCESSED_FILES d' = {[(p, sz, mt)]} ∪ PROCESSED_FILES d ∧
  completions d' = S (completions d).
Proof.
  intros Hs Hl Hst Hk d'.
  destruct (process_file_ending p kind o d) as [[H _|sz' mt' H|e _ H|sz' mt' ? _ _ H] _].
  - exfalso. unfold lets_through in Hl.
    destruct H as [H|[H|H]]; [congruence|by rewrite H in Hl|by rewrite H, andb_false_r in Hl].
  - congruence.
  - rewrite lets_through_raises in H; [done|done|rewrite Hst; eauto].
  - rewrite Hst in H. by injection H as <- <-.
Qed.







End DetectorProperties.

Section DetectorMarking.
Import Watcher Detector.

Variable DRY_RUN : bool.

(** C10: [process_file] adds the fingerprint to the processed set only
    when the task-creation path has run to its end (the dry-run branch
    included); when the file is rejected (unsupported extension, gone
    after the settle delay, empty) or an exception is raised, the set is
    left as it was, so that a later event with the same fingerprint is
    processed again instead of being skipped. *)
Theorem C10_marked_on_completion p kind o d :
  let d' := process_file DRY_RUN p kind o d in
  (PROCESSED_FILES d' ≠ PROCESSED_FILES d →
   supported p = true ∧ lets_through DRY_RUN o = true ∧
   (∃ entry, last (logged d') = Some (LOG entry)) ∧
   (∃ sz mt, o_stat o = Some (sz, mt) ∧
             PROCESSED_FILES d' = {[(p, sz, mt)]} ∪ PROCESSED_FILES d) ∧
   (if DRY_RUN then operations d' = operations d
    else ∃ f t, operations d'
                = operations d ++ [write_task f t; copy_file p (name p)])) ∧
  (supported p = false ∨ o_exists o = false ∨ o_size o = Some 0%N ∨
   raises DRY_RUN o = true →
   PROCESSED_FILES d' = PROCESSED_FILES d) ∧
  (∀ sz mt kind2 o2,
     supported p = true →
     o_exists o = false ∨ o_size o = Some 0%N ∨ raises DRY_RUN o = true →
     o_stat o2 = Some (sz, mt) → (p, sz, mt) ∉ PROCESSED_FILES d →
     lets_through DRY_RUN o2 = true →
     let d'' := process_file DRY_RUN p kind2 o2 d' in
     (p, sz, mt) ∈ PROCESSED_FILES d'' ∧ completions d'' = S (completions d')).
Proof.
  intros d'.
  assert (Hrej : supported p = false ∨ o_exists o = false ∨
                 o_size o = Some 0%N ∨ raises DRY_RUN o = true →
                 PROCESSED_FILES d' = PROCESSED_FILES d).
  { intros Hc.
    destruct (process_file_ending DRY_RUN p kind o d)
      as [[| | |sz mt entry Hs Hl Hst Hk E1 E2 E3 E4] _]; try done.
    exfalso. unfold lets_through in Hl.
    destruct Hc as [Hc|[Hc|[Hc|Hc]]].
    - congruence.
    - by rewrite Hc in Hl.
    - by rewrite Hc, andb_false_r in Hl.
    - rewrite lets_through_raises in Hc; [done|done|rewrite Hst; eauto]. }
  split_and!; [|done|].
  - intros Hne.
    destruct (process_file_ending DRY_RUN p kind o d)
      as [[| | |sz mt entry Hs Hl Hst Hk E1 E2 E3 E4] _]; try done.
    split_and!; eauto.
  - intros sz mt kind2 o2 Hs Hc Hst2 Hk Hl d''.
    assert (HP : PROCESSED_FILES d' = PROCESSED_FILES d) by (apply Hrej; tauto).
    destruct (process_file_completes DRY_RUN p kind2 o2 d' sz mt) as [E1 E2];
      [done|done|done|by rewrite HP|].
    split; [|done]. subst d''. rewrite E1. apply elem_of_union. left.
    by apply elem_of_singleton.
Qed.

End DetectorMarking.

Lemma C10_marked_on_completion_witness :
  let d' := Watcher.process_file false Detector.report Watcher.poll Detector.gone Watcher.initial in
  Watcher.PROCESSED_FILES d' = Watcher.PROCESSED_FILES Watcher.initial ∧
  let d'' := Watcher.process_file false Detector.report Watcher.poll Detector.seen_ok d' in
  Detector.report_key ∈ Watcher.PROCESSED_FILES d'' ∧ Detector.completions d'' = S (Detector.completions d').
Proof.
  destruct (C10_marked_on_completion false Detector.report Watcher.poll Detector.gone Watcher.initial)
    as (_ & Hrej & Hretry).
  split.
  - apply Hrej. right. left. reflexivity.
  - apply (Hretry 44%N 7%Z Watcher.poll Detector.seen_ok).
    + vm_compute; reflexivity.
    + left. reflexivity.
    + reflexivity.
    + apply not_elem_of_empty.
    + vm_compute; reflexivity.
Defined.


Section DetectorExamples.
Import Watcher Detector.




End DetectorExamples.

Section Debounce.
Import Watcher Detector.

Variable DRY_RUN : bool.

(** Every path through [process_file] logs something. *)
Lemma process_file_logs p kind o d :
  (List.length (logged d)
   < List.length (logged (process_file DRY_RUN p kind o d)))%nat.
Proof.
  unfold process_file, failed.
  destruct (supported p); simpl; [|rewrite length_app; simpl; lia].
  destruct (o_stat o) as [[sz mt]|]; [|simpl; rewrite length_app; simpl; lia].
  case_bool_decide; [simpl; rewrite length_app; simpl; lia|].
  destruct (o_exists o); simpl; [|rewrite length_app; simpl; lia].
  destruct (o_size o) as [n|]; [|simpl; rewrite length_app; simpl; lia].
  destruct (n =? 0)%N; [simpl; rewrite length_app; simpl; lia|].
  destruct DRY_RUN, (o_write_fails o), (o_copy_fails o); simpl;
    rewrite ?length_app; simpl; lia.
Qed.

Lemma triggered_spec p o d :
  triggered DRY_RUN p o d = true ↔
  o_is_directory o = false ∧ supported p = true ∧
  (2 < o_time o - last_trigger p d)%Q.
Proof.
  unfold triggered, on_modified, last_trigger.
  destruct (o_is_directory o).
  { rewrite Nat.eqb_refl. simpl. split; [done|]. by intros [? _]. }
  destruct (supported p); simpl.
  2:{ rewrite Nat.eqb_refl. simpl. split; [done|]. by intros (_ & ? & _). }
  destruct (Qlt_le_dec _ _) as [Hlt|Hle].
  - split; [done|]. intros _. apply negb_true_iff, Nat.eqb_neq.
    match goal with
    | |- List.length (logged (process_file _ _ _ _ ?d0)) ≠ _ =>
        pose proof (process_file_logs p modified o d0) as Hl
    end.
    simpl in Hl. rewrite length_app in Hl. simpl in Hl. lia.
  - rewrite Nat.eqb_refl. simpl. split; [done|].
    intros (_ & _ & Hlt). exfalso. by apply (Qle_not_lt _ _ Hle).
Qed.

Lemma on_modified_last_trigger p o d :
  last_trigger p (on_modified DRY_RUN p o d)
  = if triggered DRY_RUN p o d then o_time o else last_trigger p d.
Proof.
  destruct (triggered DRY_RUN p o d) eqn:Ht.
  - apply triggered_spec in Ht as (Hd & Hs & Hlt).
    unfold last_trigger, on_modified in *. rewrite Hd, Hs. simpl.
    destruct (Qlt_le_dec _ _) as [_|Hle]; [|by apply Qle_not_lt in Hle].
    destruct (process_file_ending DRY_RUN p modified o
                (set_timer p (o_time o) (log (DETECTED modified (name p)) d)))
      as [_ ->].
    simpl. by rewrite lookup_insert_eq.
  - unfold triggered in Ht. apply negb_false_iff, Nat.eqb_eq in Ht.
    unfold last_trigger, on_modified in *.
    destruct (o_is_directory o); [done|]. destruct (supported p); [|done].
    simpl in *. destruct (Qlt_le_dec _ _); [|done].
    match type of Ht with
    | List.length (logged (process_file _ _ _ _ ?d0)) = _ =>
        pose proof (process_file_logs p modified o d0) as Hl
    end.
    simpl in Hl. rewrite length_app in Hl. simpl in Hl. lia.
Qed.

(** Only a modified event on a path touches the timer of that path. *)
Lemma handle_keeps_timer p ev d :
  ¬ modified_on p ev →
  file_timers (handle DRY_RUN ev d) !! p = file_timers d !! p.
Proof.
  intros Hno. unfold handle, on_created, on_modified, on_moved, poll_file,
    scan_file.
  destruct (ev_kind ev) eqn:Ek;
    repeat match goal with
           | |- context [if ?x then _ else _] => destruct x
           | |- context [match ?x with _ => _ end] => destruct x as [[? ?]|]
           end;
    try done;
    match goal with
    | |- file_timers (process_file _ ?q ?k ?o ?d0) !! _ = _ =>
        destruct (process_file_ending DRY_RUN q k o d0) as [_ ->]
    end; simpl; try done.
  apply lookup_insert_ne. intros E. apply Hno. by split.
Qed.

Lemma handle_all_keeps_timer p evs : ∀ d,
  Forall (fun ev => ¬ modified_on p ev) evs →
  file_timers (handle_all DRY_RUN evs d) !! p = file_timers d !! p.
Proof.
  induction evs as [|ev evs IH]; intros d Hall; [done|].
  apply Forall_cons in Hall as [Hev Hevs]. unfold handle_all in *. simpl.
  rewrite IH by done. by apply handle_keeps_timer.
Qed.

(** A modified event is dropped, and then changes nothing, or it is
    let through: the detection is logged, the timer of the path is set
    and [process_file] runs. *)
Lemma on_modified_triggered p o d :
  on_modified DRY_RUN p o d
  = if triggered DRY_RUN p o d
    then process_file DRY_RUN p modified o
           (set_timer p (o_time o) (log (DETECTED modified (name p)) d))
    else d.
Proof.
  destruct (triggered DRY_RUN p o d) eqn:Ht.
  - apply triggered_spec in Ht as (Hd & Hs & Hlt).
    unfold last_trigger in Hlt. unfold on_modified. rewrite Hd, Hs. simpl.
    destruct (Qlt_le_dec _ _) as [_|Hle]; [done|].
    by apply Qle_not_lt in Hle.
  - unfold triggered in Ht. apply negb_false_iff, Nat.eqb_eq in Ht.
    unfold on_modified in *.
    destruct (o_is_directory o); [done|]. destruct (supported p); [|done].
    simpl in *. destruct (Qlt_le_dec _ _); [|done].
    match type of Ht with
    | List.length (logged (process_file _ _ _ _ ?d0)) = _ =>
        pose proof (process_file_logs p modified o d0) as Hl
    end.
    simpl in Hl. rewrite length_app in Hl. simpl in Hl. lia.
Qed.

(** C8: a modified event is either dropped, leaving the detector as it
    was, or let through to [process_file]; of two modified events on one
    path, the second at most 2 seconds after the first, at most one is
    let through, whatever other events come in between; a modified event
    that comes more than 2 seconds after the previous one on its path is
    let through, whether or not the previous one was (the clock not
    having gone back behind the last accepted trigger), and it is
    processed on its own: when its fingerprint is new and the file can be
    handled, the task-creation path runs to its end and marks the
    fingerprint. *)
Theorem C8_debounce p o1 o2 mid d :
  Forall (fun ev => ¬ modified_on p ev) mid →
  let d1 := on_modified DRY_RUN p o1 d in
  let d2 := handle_all DRY_RUN mid d1 in
  let d3 := on_modified DRY_RUN p o2 d2 in
  let processed o d0 :=
    process_file DRY_RUN p modified o
      (set_timer p (o_time o) (log (DETECTED modified (name p)) d0)) in
  (d1 = if triggered DRY_RUN p o1 d then processed o1 d else d) ∧
  (d3 = if triggered DRY_RUN p o2 d2 then processed o2 d2 else d2) ∧
  ((o_time o2 - o_time o1 <= 2)%Q →
   ¬ (triggered DRY_RUN p o1 d = true ∧ triggered DRY_RUN p o2 d2 = true)) ∧
  (supported p = true → o_is_directory o2 = false →
   (last_trigger p d <= o_time o1)%Q → (2 < o_time o2 - o_time o1)%Q →
   triggered DRY_RUN p o2 d2 = true ∧
   ∀ sz mt, o_stat o2 = Some (sz, mt) → (p, sz, mt) ∉ PROCESSED_FILES d2 →
     lets_through DRY_RUN o2 = true →
     (p, sz, mt) ∈ PROCESSED_FILES d3 ∧ completions d3 = S (completions d2)).
Proof.
  intros Hmid d1 d2 d3 processed.
  assert (Hlast : last_trigger p d2
                  = if triggered DRY_RUN p o1 d then o_time o1
                    else last_trigger p d).
  { unfold last_trigger at 1. subst d2.
    rewrite handle_all_keeps_timer by done. apply on_modified_last_trigger. }
  split_and!.
  - apply on_modified_triggered.
  - apply on_modified_triggered.
  - intros Hw [H1 H2]. apply triggered_spec in H2 as (_ & _ & H2).
    rewrite Hlast, H1 in H2. apply (Qle_not_lt _ _ Hw H2).
  - intros Hs Hd Hmono Hgap.
    assert (Ht : triggered DRY_RUN p o2 d2 = true).
    { apply triggered_spec. split_and!; [done|done|].
      rewrite Hlast. destruct (triggered DRY_RUN p o1 d); [done|]. lra. }
    split; [done|]. intros sz mt Hst Hk Hl.
    subst d3. rewrite on_modified_triggered, Ht.
    destruct (process_file_completes DRY_RUN p modified o2
                (set_timer p (o_time o2) (log (DETECTED modified (name p)) d2))
                sz mt) as [E1 E2]; [done..|].
    rewrite E1, E2. split.
    + apply elem_of_union. left. by apply elem_of_singleton.
    + by rewrite completions_set_timer, completions_log, Nat.add_0_r.
Qed.

End Debounce.

Section DebounceExamples.
Import Watcher Detector.

Lemma C8_debounce_witness :
  let d1 := on_modified false report (at_time 100 gone) initial in
  let d3 := on_modified false report (at_time 103 seen_ok) d1 in
  on_modified false report (at_time 101 seen_ok) d1 = d1 ∧
  report_key ∈ PROCESSED_FILES d3 ∧ completions d3 = S (completions d1).
Proof.
  intros d1 d3. split.
  - destruct (C8_debounce false report (at_time 100 gone)
                (at_time 101 seen_ok) [] initial (Forall_nil_2 _))
      as (_ & H2 & H3 & _).
    simpl in H2, H3.
    destruct (triggered false report (at_time 101 seen_ok)
                (on_modified false report (at_time 100 gone) initial)) eqn:Ht;
      [|exact H2].
    exfalso. apply H3; [apply Qle_bool_iff; vm_compute; reflexivity|].
    split; [vm_compute; reflexivity|reflexivity].
  - destruct (C8_debounce false report (at_time 100 gone)
                (at_time 103 seen_ok) [] initial (Forall_nil_2 _))
      as (_ & _ & _ & H4).
    destruct H4 as [_ H4].
    + vm_compute; reflexivity.
    + reflexivity.
    + apply Qle_bool_iff; vm_compute; reflexivity.
    + vm_compute; reflexivity.
    + apply (H4 44%N 7%Z).
      * reflexivity.
      * apply (bool_decide_unpack _). by vm_compute.
      * vm_compute; reflexivity.
Defined.

End DebounceExamples.
Import Orchestrator.

(* ===================================================================== *)
(** * The orchestrator *)
(* ===================================================================== *)

(** ** Computations that never raise *)

Lemma returns_ret {A} (a : A) : returns (mret a).
Proof. intros e v. by exists a. Qed.

Lemma returns_bind {A B} (m : M A) (f : A → M B) :
  returns m → (∀ a, returns (f a)) → returns (m ≫= f).
Proof.
  intros Hm Hf e v. unfold mbind, M_bind, bind.
  destruct (Hm e v) as [a Ha]. destruct (m e v) as [[a'|x] v']; [|done].
  apply Hf.
Qed.

Lemma returns_try {A} (body : M A) (handler : exn → M A) :
  (∀ x, returns (handler x)) → returns (try_except body handler).
Proof.
  intros Hh e v. unfold try_except.
  destruct (body e v) as [[a|x] v']; [by exists a|apply Hh].
Qed.

Lemma returns_ask : returns ask.
Proof. intros e v. by exists e. Qed.

Lemma returns_get : returns get.
Proof. intros e v. by exists v. Qed.

Lemma returns_modify f : returns (modify f).
Proof. intros e v. by exists tt. Qed.

Lemma returns_now : returns now.
Proof. intros e v. by eexists. Qed.

Lemma returns_mkdir f : returns (mkdir f).
Proof. apply returns_modify. Qed.

Lemma returns_for_each {A} (l : list A) (body : A → M unit) :
  (∀ x, returns (body x)) → returns (for_each l body).
Proof.
  intros Hb. induction l as [|x l IH]; simpl; [apply returns_ret|].
  apply (returns_bind (body x)); [apply Hb|by intros _].
Qed.

Create HintDb returns discriminated.
Hint Resolve returns_ret returns_ask returns_get returns_modify returns_now
  returns_mkdir : returns.

Ltac returns_step :=
  first
    [ apply returns_bind; [|intros ?]
    | apply returns_try; intros ?
    | apply returns_for_each; intros ?
    | solve [auto with returns]
    | match goal with
      | |- returns (match ?x with _ => _ end) => destruct x
      end ].

Ltac returns_all := repeat returns_step.

Lemma returns_log_error message : returns (log_error message).
Proof. unfold log_error. returns_all. Qed.
Hint Resolve returns_log_error : returns.

Lemma returns_log_activity action file st details :
  returns (log_activity action file st details).
Proof. unfold log_activity. returns_all. Qed.
Hint Resolve returns_log_activity : returns.

Lemma returns_read_file name : returns (read_file name).
Proof. unfold read_file. returns_all. Qed.

Lemma returns_write_file file_path content :
  returns (write_file file_path content).
Proof. unfold write_file. returns_all. Qed.
Hint Resolve returns_read_file returns_write_file : returns.

Section Scan.

Variable glob : list text → text → option (list text).

(** No exception leaves [process_task_file]. *)
Lemma returns_process_task_file task_file :
  returns (process_task_file glob task_file).
Proof. unfold process_task_file. returns_all. Qed.

Lemma process_task_file_ok task_file e v :
  ∃ v', process_task_file glob task_file e v = (Ok tt, v').
Proof.
  destruct (returns_process_task_file task_file e v) as [[] H].
  destruct (process_task_file glob task_file e v) as [r v']. simpl in H.
  subst r. by exists v'.
Qed.

Lemma process_all_visits_all e task_files : ∀ v,
  process_all glob task_files e v
  = (Ok tt, fold_left (fun v t => (process_task_file glob t e v).2) task_files v).
Proof.
  unfold process_all.
  induction task_files as [|t ts IH]; intros v; simpl; [done|].
  unfold mbind, M_bind, bind.
  destruct (process_task_file_ok t e v) as [v' ->]. simpl. apply IH.
Qed.

End Scan.
Import Orchestrator.

(** What [log_error] does. *)
Lemma log_error_run message e v :
  log_error message e v
  = (Ok tt,
     let v1 := set_ticks (S (ticks v)) (set_dirs ({[LOGS_FOLDER]} ∪ dirs v) v) in
     if write_fails e ERROR_LOG_FILE then v1
     else set_errors
            (errors v ++ [{| e_timestamp := clock e (ticks v);
                             e_message := message |}]) v1).
Proof.
  unfold log_error, mkdir, now, modify, ask, mbind, M_bind, bind, mret, M_ret,
    ret.
  simpl. by destruct (write_fails e ERROR_LOG_FILE).
Qed.

(** ** The console *)


Lemma print_refused refuses l e v :
  refuses l = true → Console.print refuses l e v = (Raise ValueError, v).
Proof. intros H. unfold Console.print. by rewrite H. Qed.


(** On a terminal that accepts every line the functions are those of
    [Module Orchestrator]. *)
Lemma accepting_log_error : Console.log_error Console.accepting = log_error.
Proof. reflexivity. Qed.

Lemma accepting_log_activity :
  Console.log_activity Console.accepting = log_activity.
Proof. reflexivity. Qed.

Lemma accepting_read_source glob :
  Console.read_source glob Console.accepting = read_source glob.
Proof. reflexivity. Qed.

Lemma accepting_route : Console.route Console.accepting = route.
Proof. reflexivity. Qed.

Lemma accepting_archive glob :
  Console.archive glob Console.accepting = archive glob.
Proof. reflexivity. Qed.

Ltac run_both :=
  repeat match goal with
         | |- context [match ?t with _ => _ end] => destruct t
         end;
  repeat match goal with a : unit |- _ => destruct a end;
  try reflexivity.

Lemma accepting_process_task_body glob task_file e v :
  Console.process_task_body glob Console.accepting task_file e v
  = process_task_body glob task_file e v.
Proof.
  unfold Console.process_task_body, process_task_body.
  rewrite accepting_log_error, accepting_log_activity, accepting_route,
    (accepting_read_source glob), (accepting_archive glob).
  cbv beta iota zeta delta
    [mbind M_bind bind mret M_ret ret raise Console.print Console.accepting].
  run_both.
Qed.

Lemma accepting_process_task_file glob task_file e v :
  Console.process_task_file glob Console.accepting task_file e v
  = process_task_file glob task_file e v.
Proof.
  unfold Console.process_task_file, process_task_file, try_except.
  rewrite accepting_log_error.
  cbv beta iota zeta delta
    [mbind M_bind bind mret M_ret ret raise Console.print Console.accepting].
  rewrite accepting_process_task_body.
  run_both.
Qed.

Section ConsoleScan.

Variable glob : list text → text → option (list text).
Variable refuses : Console.line → bool.



End ConsoleScan.




Import Orchestrator.

(** C6, as amended: when the task document is already absent, the
    transition to [Done] is not counted as a success but recorded as an
    error.  [shutil.move] raises [FileNotFoundError] and changes nothing;
    [process_task_file] fails to read the document, writes one line to
    the error log and returns without an exception; the documents of the
    vault, [Done] included, and the activity log stay as they were, so the
    destination gets no duplicate. *)
Theorem C6_absent_source glob e v task_file :
  file_content task_file (needs_action v) = None →
  shutil_move task_file task_file e v
  = (Raise (FileNotFoundError (NEEDS_ACTION_FOLDER, task_file)), v) ∧
  ∃ v', process_task_file glob task_file e v = (Ok tt, v') ∧
        same_documents v v' ∧ activity v' = activity v ∧
        (write_fails e ERROR_LOG_FILE = false →
         errors v'
         = errors v ++
           [{| e_timestamp := clock e (ticks v);
               e_message :=
                 failed_to_read_task_file
                   (file_not_found (NEEDS_ACTION_FOLDER, task_file)) |}]).
Proof.
  intros Habs. split.
  - unfold shutil_move, mbind, M_bind, bind, ask, get. simpl. by rewrite Habs.
  - unfold process_task_file, try_except, process_task_body.
    unfold mbind at 1. unfold M_bind, bind.
    unfold read_file, mbind, M_bind, bind, ask, get. simpl. rewrite Habs. simpl.
    rewrite log_error_run. eexists. split; [done|].
    destruct (write_fails e ERROR_LOG_FILE); simpl; by split_and!.
Qed.

Lemma C6_absent_source_witness :
  ∃ v', process_task_file glob_exact task_A (example_env false) vault_A_done
        = (Ok tt, v') ∧
        done v' = done vault_A_done ∧
        errors v'
        = errors vault_A_done ++
          [{| e_timestamp := clock (example_env false) (ticks vault_A_done);
              e_message :=
                failed_to_read_task_file
                  (file_not_found (NEEDS_ACTION_FOLDER, task_A)) |}].
Proof.
  destruct (C6_absent_source glob_exact (example_env false) vault_A_done task_A)
    as (_ & v' & Hv' & (_ & Hd & _) & _ & He).
  - vm_compute. reflexivity.
  - exists v'. split_and!; [exact Hv'|exact Hd|].
    apply He. reflexivity.
Defined.

(** C6 as stated fails: after scenario A has been processed, its task
    document is in [Done] and no longer in [Needs_Action]; moving it again
    raises [FileNotFoundError], and processing the same task file again
    adds a line to the error log, which was empty. *)
Lemma C6_counterexample :
  file_content task_A (needs_action vault_A_done) = None ∧
  done vault_A_done !! task_A = Some scenario_A ∧
  errors vault_A_done = [] ∧
  (shutil_move task_A task_A (example_env false) vault_A_done).1
  = Raise (FileNotFoundError (NEEDS_ACTION_FOLDER, task_A)) ∧
  errors (process_task_file glob_exact task_A (example_env false)
            vault_A_done).2
  = [{| e_timestamp := example_clock 10;
        e_message :=
          failed_to_read_task_file
            (file_not_found (NEEDS_ACTION_FOLDER, task_A)) |}].
Proof. split_and!; vm_compute; reflexivity. Qed.
Import Orchestrator.



Import Orchestrator.

(** ** What a dry run leaves alone *)

Section Keeps.

Variable C : env → Prop.
Variable R : vault → vault → Prop.
Hypothesis R_refl : ∀ v, R v v.
Hypothesis R_trans : ∀ v1 v2 v3, R v1 v2 → R v2 v3 → R v1 v3.

Lemma keeps_ret {A} (a : A) : keeps C R (mret a).
Proof. intros e v _. apply R_refl. Qed.

Lemma keeps_raise {A} x : keeps C R (@raise A x).
Proof. intros e v _. apply R_refl. Qed.

Lemma keeps_ask : keeps C R ask.
Proof. intros e v _. apply R_refl. Qed.

Lemma keeps_get : keeps C R get.
Proof. intros e v _. apply R_refl. Qed.

Lemma keeps_modify f : (∀ v, R v (f v)) → keeps C R (modify f).
Proof. intros Hf e v _. apply Hf. Qed.

Lemma keeps_bind {A B} (m : M A) (f : A → M B) :
  keeps C R m → (∀ a, keeps C R (f a)) → keeps C R (m ≫= f).
Proof.
  intros Hm Hf e v He. unfold mbind, M_bind, bind.
  specialize (Hm e v He). destruct (m e v) as [[a|x] v1]; [|done].
  eapply R_trans; [exact Hm|by apply Hf].
Qed.

Lemma keeps_try {A} (body : M A) (handler : exn → M A) :
  keeps C R body → (∀ x, keeps C R (handler x)) →
  keeps C R (try_except body handler).
Proof.
  intros Hb Hh e v He. unfold try_except.
  specialize (Hb e v He). destruct (body e v) as [[a|x] v1]; [done|].
  eapply R_trans; [exact Hb|by apply Hh].
Qed.

Lemma keeps_for_each {A} (l : list A) (body : A → M unit) :
  (∀ x, keeps C R (body x)) → keeps C R (for_each l body).
Proof.
  intros Hb. induction l as [|x l IH]; simpl; [apply keeps_ret|].
  apply (keeps_bind (body x)); [apply Hb|by intros _].
Qed.

(** A computation that looks at the environment first. *)
Lemma keeps_ask_bind {A} (f : env → M A) :
  (∀ e, C e → keeps (fun e' => e' = e) R (f e)) → keeps C R (ask ≫= f).
Proof.
  intros Hf e v He. unfold mbind, M_bind, bind, ask. by apply (Hf e He).
Qed.

End Keeps.

Lemma same_documents_refl v : same_documents v v.
Proof. by split_and!. Qed.

Lemma same_documents_trans v1 v2 v3 :
  same_documents v1 v2 → same_documents v2 v3 → same_documents v1 v3.
Proof.
  intros (? & ? & ? & ?) (? & ? & ? & ?). split_and!; congruence.
Qed.

Section KeepsDocuments.

Variable C : env → Prop.

Lemma docs_ret {A} (a : A) : keeps C same_documents (mret a).
Proof. apply keeps_ret, same_documents_refl. Qed.

Lemma docs_raise {A} x : keeps C same_documents (@raise A x).
Proof. apply keeps_raise, same_documents_refl. Qed.

Lemma docs_ask : keeps C same_documents ask.
Proof. apply keeps_ask, same_documents_refl. Qed.

Lemma docs_get : keeps C same_documents get.
Proof. apply keeps_get, same_documents_refl. Qed.

Lemma docs_bind {A B} (m : M A) (f : A → M B) :
  keeps C same_documents m → (∀ a, keeps C same_documents (f a)) →
  keeps C same_documents (m ≫= f).
Proof. apply keeps_bind, same_documents_trans. Qed.

Lemma docs_try {A} (body : M A) (handler : exn → M A) :
  keeps C same_documents body → (∀ x, keeps C same_documents (handler x)) →
  keeps C same_documents (try_except body handler).
Proof. apply keeps_try, same_documents_trans. Qed.

Lemma docs_for_each {A} (l : list A) (body : A → M unit) :
  (∀ x, keeps C same_documents (body x)) →
  keeps C same_documents (for_each l body).
Proof.
  apply keeps_for_each; [apply same_documents_refl|apply same_documents_trans].
Qed.

End KeepsDocuments.

(** A computation for which the property is already among the
    hypotheses, recognised by its head. *)
Ltac keeps_known :=
  match goal with
  | H : keeps _ _ ?m |- keeps _ _ ?m => exact H
  | H : ∀ a, keeps _ _ (?f a) |- keeps _ _ (?f _) => apply H
  | H : ∀ a b, keeps _ _ (?f a b) |- keeps _ _ (?f _ _) => apply H
  | H : ∀ a b c, keeps _ _ (?f a b c) |- keeps _ _ (?f _ _ _) => apply H
  | H : ∀ a b c d, keeps _ _ (?f a b c d) |- keeps _ _ (?f _ _ _ _) =>
      apply H
  | H : ∀ a b c d e, keeps _ _ (?f a b c d e) |- keeps _ _ (?f _ _ _ _ _) =>
      apply H
  end.

Ltac keeps_step :=
  first
    [ keeps_known
    | apply docs_ret
    | apply docs_raise
    | apply docs_ask
    | apply docs_get
    | apply keeps_modify; intros ?; by split_and!
    | apply docs_bind; [|intros ?]
    | apply docs_try; [|intros ?]
    | apply docs_for_each; intros ?
    | match goal with
      | |- keeps _ _ (match ?x with _ => _ end) => destruct x
      end ].

Ltac keeps_all := repeat keeps_step.

Section DryRun.

Variable C : env → Prop.
Hypothesis C_dry : ∀ e, C e → dry e.

Lemma keeps_mkdir f : keeps C same_documents (mkdir f).
Proof. unfold mkdir. keeps_all. Qed.

Lemma keeps_now : keeps C same_documents now.
Proof. intros e v _. by split_and!. Qed.

Lemma keeps_log_error message : keeps C same_documents (log_error message).
Proof.
  pose proof keeps_mkdir. pose proof keeps_now.
  unfold log_error. keeps_all.
Qed.

Lemma keeps_log_activity action file st details :
  keeps C same_documents (log_activity action file st details).
Proof.
  pose proof keeps_mkdir. pose proof keeps_now. pose proof keeps_log_error.
  unfold log_activity. keeps_all.
Qed.

Lemma keeps_read_file name : keeps C same_documents (read_file name).
Proof. unfold read_file. keeps_all. Qed.

(** In a dry run [write_file] writes nothing. *)
Lemma keeps_write_file file_path content :
  keeps C same_documents (write_file file_path content).
Proof.
  intros e v He. apply C_dry in He. unfold dry in He.
  unfold write_file, mkdir, modify, ask, mbind, M_bind, bind. simpl.
  rewrite He. simpl. by split_and!.
Qed.

Lemma keeps_draft_email_response original_email analysis :
  keeps C same_documents (draft_email_response original_email analysis).
Proof.
  pose proof keeps_now. pose proof keeps_write_file.
  unfold draft_email_response, as_number. keeps_all.
Qed.

Lemma keeps_create_task_plan task_name description analysis :
  keeps C same_documents (create_task_plan task_name description analysis).
Proof.
  pose proof keeps_now. pose proof keeps_write_file.
  unfold create_task_plan. keeps_all.
Qed.

Lemma keeps_extract_data_from_content content :
  keeps C same_documents (extract_data_from_content content).
Proof.
  intros e v He. apply C_dry in He. unfold dry in He.
  unfold extract_data_from_content, now, modify, ask, get, mbind, M_bind, bind,
    mret, M_ret, ret, raise.
  destruct (clean_amounts _); simpl; [|by split_and!].
  rewrite He. simpl. by split_and!.
Qed.

Variable glob : list text → text → option (list text).

Lemma keeps_needs_action_glob pattern :
  keeps C same_documents (needs_action_glob glob pattern).
Proof. unfold needs_action_glob. keeps_all. Qed.

Lemma keeps_read_source source_file task_name :
  keeps C same_documents (read_source glob source_file task_name).
Proof.
  pose proof keeps_needs_action_glob. pose proof keeps_read_file.
  unfold read_source. keeps_all.
Qed.

Lemma keeps_route task_name task_content source_content analysis_content
    analysis :
  keeps C same_documents
    (route task_name task_content source_content analysis_content analysis).
Proof.
  pose proof keeps_draft_email_response. pose proof keeps_create_task_plan.
  pose proof keeps_extract_data_from_content.
  unfold route, format_2f. keeps_all.
Qed.

(** In a dry run nothing is archived. *)
Lemma keeps_archive task_file source_file task_name :
  keeps C same_documents (archive glob task_file source_file task_name).
Proof.
  intros e v He. apply C_dry in He. unfold dry in He.
  unfold archive, ask, mbind, M_bind, bind. simpl. rewrite He. simpl.
  by split_and!.
Qed.

Lemma keeps_process_task_file task_file :
  keeps C same_documents (process_task_file glob task_file).
Proof.
  pose proof keeps_read_file. pose proof keeps_log_error.
  pose proof keeps_read_source. pose proof keeps_log_activity.
  pose proof keeps_route. pose proof keeps_archive.
  unfold process_task_file, process_task_body. keeps_all.
Qed.

End DryRun.
Import Orchestrator.

(** ** A live run and a dry run, side by side *)

Section Lockstep.

Variable e : env.

Lemma lockstep_ret {A} P (a : A) : lockstep e P P (mret a).
Proof. by intros v1 v2 H. Qed.

Lemma lockstep_raise {A} P x : lockstep e P P (@raise A x).
Proof. by intros v1 v2 H. Qed.

Lemma lockstep_bind {A B} P Q R (m : M A) (f : A → M B) :
  lockstep e P Q m → (∀ a, lockstep e Q R (f a)) →
  (∀ v1 v2, Q v1 v2 → R v1 v2) →
  lockstep e P R (m ≫= f).
Proof.
  intros Hm Hf HQR v1 v2 HP. unfold mbind, M_bind, bind.
  destruct (Hm v1 v2 HP) as [Hr HQ].
  destruct (m (in_mode false e) v1) as [r1 w1],
           (m (in_mode true e) v2) as [r2 w2].
  simpl in *. subst r2. destruct r1 as [a|x]; [by apply Hf|].
  split; [done|by apply HQR].
Qed.

Lemma lockstep_try {A} P Q R (body : M A) (handler : exn → M A) :
  lockstep e P Q body → (∀ x, lockstep e Q R (handler x)) →
  (∀ v1 v2, Q v1 v2 → R v1 v2) →
  lockstep e P R (try_except body handler).
Proof.
  intros Hb Hh HQR v1 v2 HP. unfold try_except.
  destruct (Hb v1 v2 HP) as [Hr HQ].
  destruct (body (in_mode false e) v1) as [r1 w1],
           (body (in_mode true e) v2) as [r2 w2].
  simpl in *. subst r2. destruct r1 as [a|x]; [|by apply Hh].
  split; [done|by apply HQR].
Qed.

Variable J : gset folder → Prop.
Hypothesis J_mono : ∀ f d, J d → J ({[f]} ∪ d).

Ltac alike_start :=
  intros v1 v2 [(Ht & Hd & Hn & Hdo & Ha & He) HJ];
  unfold alike, same_but_artifacts.

Lemma lockstep_now : lockstep e (alike J) (alike J) now.
Proof. alike_start. simpl. rewrite Ht. by split_and!. Qed.

Lemma lockstep_mkdir f : lockstep e (alike J) (alike J) (mkdir f).
Proof.
  alike_start. simpl. rewrite Hd. split_and!; try done.
  rewrite <- Hd. by apply J_mono.
Qed.

Lemma lockstep_mkdir_logs :
  lockstep e (alike J) (alike has_logs) (mkdir LOGS_FOLDER).
Proof.
  alike_start. simpl. rewrite Hd. split_and!; try done.
  unfold has_logs. apply elem_of_union. left. by apply elem_of_singleton.
Qed.

Lemma lockstep_read_file name : lockstep e (alike J) (alike J) (read_file name).
Proof.
  alike_start. unfold read_file, mbind, M_bind, bind, ask, get. simpl.
  rewrite Hn. destruct (file_content name (needs_action v2)); simpl.
  - destruct (read_fails e _); simpl; by split_and!.
  - by split_and!.
Qed.

Lemma lockstep_log_error message :
  lockstep e (alike J) (alike J) (log_error message).
Proof.
  alike_start. rewrite !log_error_run. simpl. rewrite Ht, Hd, He.
  destruct (write_fails e ERROR_LOG_FILE); simpl; split_and!; try done;
    rewrite <- Hd; by apply J_mono.
Qed.

Lemma lockstep_needs_action_glob glob pattern :
  lockstep e (alike J) (alike J) (needs_action_glob glob pattern).
Proof.
  alike_start. unfold needs_action_glob, mbind, M_bind, bind, get. simpl.
  rewrite Hn. destruct (glob _ _); simpl; by split_and!.
Qed.

Lemma lockstep_seq {A B} (m : M A) (f : A → M B) :
  lockstep e (alike J) (alike J) m →
  (∀ a, lockstep e (alike J) (alike J) (f a)) →
  lockstep e (alike J) (alike J) (m ≫= f).
Proof. intros Hm Hf. by apply (lockstep_bind _ (alike J)). Qed.

End Lockstep.

Lemma lockstep_weaken {A} e P Q Q' (m : M A) :
  lockstep e P Q m → (∀ v1 v2, Q v1 v2 → Q' v1 v2) → lockstep e P Q' m.
Proof. intros Hm HQ v1 v2 HP. destruct (Hm v1 v2 HP). split; auto. Qed.

Lemma has_logs_mono (J : gset folder → Prop) :
  (∀ f d, J d → J ({[f]} ∪ d)) →
  ∀ f d, J d ∧ has_logs d → J ({[f]} ∪ d) ∧ has_logs ({[f]} ∪ d).
Proof.
  intros HJ f d [H1 H2]. split; [by apply HJ|].
  unfold has_logs. apply elem_of_union. by right.
Qed.

(** [log_activity] runs in lockstep, and leaves the [Logs] folder in
    place. *)
Lemma lockstep_log_activity e J action file st details :
  (∀ f d, J d → J ({[f]} ∪ d)) →
  lockstep e (alike J) (alike (fun d => J d ∧ has_logs d))
    (log_activity action file st details).
Proof.
  intros J_mono0. pose proof (has_logs_mono J J_mono0) as J_mono.
  unfold log_activity.
  apply (lockstep_bind e _ (alike (fun d => J d ∧ has_logs d))); [|intros _|done].
  { intros v1 v2 [(Ht & Hd & Hn & Hdo & Ha & He) HJ].
    unfold alike, same_but_artifacts. simpl. rewrite Hd. split_and!; try done.
    - rewrite <- Hd. by apply J_mono0.
    - unfold has_logs. apply elem_of_union. left. by apply elem_of_singleton. }
  apply lockstep_seq; [by apply lockstep_now|intros today].
  apply lockstep_seq; [by apply lockstep_now|intros timestamp].
  intros v1 v2 [(Ht & Hd & Hn & Hdo & Ha & He) [HJ1 HJ2]];
  unfold alike, same_but_artifacts.
  unfold try_except, mbind, M_bind, bind, ask, get, raise, modify, mret, M_ret,
    ret.
  simpl. rewrite Ha.
  destruct (activity v2 !! day today) as [logs|]; simpl;
    repeat match goal with
           | H : write_fails e ?p = _ |- context [write_fails e ?p] =>
               rewrite H; simpl
           | |- context [write_fails e ?p] =>
               destruct (write_fails e p) eqn:?; simpl
           | |- context [read_fails e ?p] => destruct (read_fails e p); simpl
           | |- context [log_error ?m ?x ?v] => rewrite (log_error_run m x v); simpl
           end;
    rewrite ?Ht, ?Hd, ?He, ?Ha; split_and!; try done;
    rewrite <- ?Hd;
    first [done|by apply J_mono0
          |by (unfold has_logs; apply elem_of_union; right)].
Qed.

Lemma lockstep_log_activity_same e J action file st details :
  (∀ f d, J d → J ({[f]} ∪ d)) →
  lockstep e (alike J) (alike J) (log_activity action file st details).
Proof.
  intros HJ. eapply lockstep_weaken; [by apply lockstep_log_activity|].
  intros v1 v2 [? [? _]]. by split.
Qed.

Section LockstepSkills.

Variable e : env.
Variable J : gset folder → Prop.
Hypothesis J_mono : ∀ f d, J d → J ({[f]} ∪ d).

Ltac alike_start :=
  intros v1 v2 [(Ht & Hd & Hn & Hdo & Ha & He) HJ];
  unfold alike, same_but_artifacts.

Hypothesis J_logs : ∀ d, J d → has_logs d.
Hypothesis no_fails : no_write_fails e.

(** When no write fails, [write_file] returns the same status in both
    modes. *)
Lemma lockstep_write_file file_path content :
  lockstep e (alike J) (alike J) (write_file file_path content).
Proof.
  alike_start.
  unfold write_file, mkdir, modify, mbind, M_bind, bind, ask, mret, M_ret, ret.
  simpl. rewrite no_fails. simpl. rewrite Hd. split_and!; try done.
  rewrite <- Hd. by apply J_mono.
Qed.

Lemma lockstep_extract_data_from_content content :
  lockstep e (alike J) (alike J) (extract_data_from_content content).
Proof.
  alike_start.
  unfold extract_data_from_content, now, modify, ask, get, mbind, M_bind, bind,
    mret, M_ret, ret, raise.
  destruct (clean_amounts _); simpl; [|by split_and!].
  rewrite no_fails. rewrite bool_decide_eq_false_2.
  - simpl. rewrite Ht. by split_and!.
  - intros Hno. apply Hno. by apply J_logs.
Qed.

End LockstepSkills.

(** A computation already known to run in lockstep, recognised by its
    head. *)
Ltac lock_known :=
  match goal with
  | H : lockstep _ _ _ ?m |- lockstep _ _ _ ?m => exact H
  | H : ∀ a, lockstep _ _ _ (?f a) |- lockstep _ _ _ (?f _) => apply H
  | H : ∀ a b, lockstep _ _ _ (?f a b) |- lockstep _ _ _ (?f _ _) => apply H
  | H : ∀ a b c, lockstep _ _ _ (?f a b c) |- lockstep _ _ _ (?f _ _ _) =>
      apply H
  | H : ∀ a b c d, lockstep _ _ _ (?f a b c d)
    |- lockstep _ _ _ (?f _ _ _ _) => apply H
  | H : ∀ a b c d x, lockstep _ _ _ (?f a b c d x)
    |- lockstep _ _ _ (?f _ _ _ _ _) => apply H
  end.

Ltac lock_step :=
  first
    [ lock_known
    | apply lockstep_ret
    | apply lockstep_raise
    | apply lockstep_seq; [|intros ?]
    | match goal with
      | |- lockstep _ _ _ (match ?x with _ => _ end) => destruct x
      end ].

Ltac lock_all := repeat lock_step.

Section LockstepRoute.

Variable e : env.
Variable J : gset folder → Prop.
Hypothesis J_mono : ∀ f d, J d → J ({[f]} ∪ d).
Variable glob : list text → text → option (list text).

Lemma lockstep_read_source source_file task_name :
  lockstep e (alike J) (alike J) (read_source glob source_file task_name).
Proof.
  pose proof (lockstep_needs_action_glob e J glob).
  pose proof (lockstep_read_file e J).
  unfold read_source. lock_all.
Qed.

Hypothesis J_logs : ∀ d, J d → has_logs d.
Hypothesis no_fails : no_write_fails e.

Lemma lockstep_create_task_plan task_name description analysis :
  lockstep e (alike J) (alike J)
    (create_task_plan task_name description analysis).
Proof.
  pose proof (lockstep_now e J).
  pose proof (lockstep_write_file e J J_mono no_fails).
  unfold create_task_plan. lock_all.
Qed.

Lemma lockstep_draft_email_response original_email analysis :
  lockstep e (alike J) (alike J)
    (draft_email_response original_email analysis).
Proof.
  pose proof (lockstep_now e J).
  pose proof (lockstep_write_file e J J_mono no_fails).
  unfold draft_email_response, as_number. lock_all.
Qed.

Lemma lockstep_route task_name task_content source_content analysis_content
    analysis :
  lockstep e (alike J) (alike J)
    (route task_name task_content source_content analysis_content analysis).
Proof.
  pose proof lockstep_create_task_plan.
  pose proof lockstep_draft_email_response.
  pose proof (lockstep_extract_data_from_content e J J_logs no_fails).
  unfold route, format_2f. lock_all.
Qed.

End LockstepRoute.
Import Orchestrator.

(** ** What archiving adds to the activity log *)

Lemma shutil_move_activity src dst e v :
  activity (shutil_move src dst e v).2 = activity v.
Proof.
  unfold shutil_move, mbind, M_bind, bind, ask, get, raise, modify. simpl.
  destruct (file_content src (needs_action v)); [|done].
  destruct (move_fails e _); [done|]. by case_bool_decide.
Qed.

Lemma for_each_activity {A} (body : A → M unit) e :
  (∀ x v, activity (body x e v).2 = activity v) →
  ∀ l v, activity (for_each l body e v).2 = activity v.
Proof.
  intros Hb. induction l as [|x l IH]; intros v; simpl; [done|].
  unfold mbind, M_bind, bind. specialize (Hb x v).
  destruct (body x e v) as [[[]|y] v1]; simpl in *; [|done].
  by rewrite IH.
Qed.

(** [log_activity] appends its entry to the log of the day, or leaves the
    activity log alone when the log file cannot be read or written. *)
Lemma log_activity_activity action file st details e v :
  activity (log_activity action file st details e v).2 = activity v ∨
  ∃ d entry, a_action entry = action ∧
    activity (log_activity action file st details e v).2
    = <[d := default [] (activity v !! d) ++ [entry]]> (activity v).
Proof.
  unfold log_activity, try_except, mkdir, now, mbind, M_bind, bind, ask, get,
    raise, modify, mret, M_ret, ret.
  simpl.
  destruct (activity v !! day (clock e (ticks v))) as [logs|] eqn:El; simpl;
    repeat match goal with
           | |- context [log_error ?m ?x ?w] =>
               rewrite (log_error_run m x w); simpl
           | |- context [if read_fails e ?p then _ else _] =>
               destruct (read_fails e p); simpl
           | |- context [if write_fails e ?p then _ else _] =>
               destruct (write_fails e p); simpl
           end;
    first [by left|right; eexists _, _; split; [|by rewrite El]; done].
Qed.

Section Trails.

Variable glob : list text → text → option (list text).
Variable e : env.

Lemma archived_more_bind {A B} (m : M A) (f : A → M B) x v0 v :
  (∀ w, activity (m x w).2 = activity w) →
  activity v = activity v0 →
  (∀ a w, activity w = activity v0 → archived_more (f a x w).2 v0) →
  archived_more ((m ≫= f) x v).2 v0.
Proof.
  intros Hm Hv Hf. unfold mbind, M_bind, bind. specialize (Hm v).
  destruct (m x v) as [[a|y] w]; simpl in *.
  - apply Hf. congruence.
  - left. congruence.
Qed.

Lemma needs_action_glob_activity pattern x w :
  activity (needs_action_glob glob pattern x w).2 = activity w.
Proof.
  unfold needs_action_glob, get, mbind, M_bind, bind. simpl.
  by destruct (glob _ pattern).
Qed.

Lemma archive_live_activity task_file source_file task_name v :
  archived_more
    (archive glob task_file source_file task_name (in_mode false e) v).2 v.
Proof.
  change (archive glob task_file source_file task_name (in_mode false e) v)
    with ((shutil_move task_file task_file ≫= fun _ =>
           match source_file with
           | Some (_ :: _) =>
               possible_files ← needs_action_glob glob task_name;
               for_each possible_files (fun pf =>
                 if bool_decide (pf ≠ task_file) then shutil_move pf pf
                 else mret tt)
           | _ => mret tt
           end ≫= fun _ =>
           log_activity task_archived (NEEDS_ACTION_FOLDER, task_file)
             moved_to_done (archived_details (DONE_FOLDER, task_file)))
            (in_mode false e) v).
  assert (Hlast : ∀ w', activity w' = activity v →
    archived_more
      (log_activity task_archived (NEEDS_ACTION_FOLDER, task_file) moved_to_done
         (archived_details (DONE_FOLDER, task_file)) (in_mode false e) w').2 v).
  { intros w' Hw'.
    destruct (log_activity_activity task_archived (NEEDS_ACTION_FOLDER, task_file)
                moved_to_done (archived_details (DONE_FOLDER, task_file))
                (in_mode false e) w') as [H|(d & entry & Ha & H)].
    - left. congruence.
    - right. exists d, entry. split; [done|]. rewrite H. by rewrite Hw'. }
  apply archived_more_bind; [apply shutil_move_activity|done|].
  intros _ w1 Hw1.
  apply archived_more_bind; [|done|by intros _ w2 Hw2; apply Hlast].
  intros w2. destruct source_file as [[|c s]|]; try done.
  unfold mbind, M_bind, bind.
  pose proof (needs_action_glob_activity task_name (in_mode false e) w2) as Hg.
  destruct (needs_action_glob glob task_name (in_mode false e) w2)
    as [[names|y] w3]; simpl in *; [|done].
  rewrite <- Hg. apply for_each_activity. intros pf w'.
  case_bool_decide; [apply shutil_move_activity|done].
Qed.

Lemma archive_dry task_file source_file task_name v :
  archive glob task_file source_file task_name (in_mode true e) v = (Ok tt, v).
Proof. done. Qed.

Lemma trails_archive J task_file source_file task_name :
  trails e (alike J) (archive glob task_file source_file task_name).
Proof.
  intros v1 v2 [(Ht & Hd & Hn & Hdo & Ha & He) HJ]. rewrite archive_dry. simpl.
  pose proof (archive_live_activity task_file source_file task_name v1) as H.
  unfold archived_more in *. by rewrite <- Ha.
Qed.

Lemma trails_bind {A B} P Q (m : M A) (f : A → M B) :
  lockstep e P Q m → (∀ a, trails e Q (f a)) →
  (∀ v1 v2, Q v1 v2 → activity v1 = activity v2) →
  trails e P (m ≫= f).
Proof.
  intros Hm Hf HQ v1 v2 HP. unfold mbind, M_bind, bind.
  destruct (Hm v1 v2 HP) as [Hr Hq].
  destruct (m (in_mode false e) v1) as [r1 w1],
           (m (in_mode true e) v2) as [r2 w2].
  simpl in *. subst r2. destruct r1 as [a|x]; [by apply Hf|].
  left. by apply HQ.
Qed.

Lemma trails_lockstep {A} P Q (m : M A) :
  lockstep e P Q m → (∀ v1 v2, Q v1 v2 → activity v1 = activity v2) →
  trails e P m.
Proof. intros Hm HQ v1 v2 HP. left. apply HQ. by apply Hm. Qed.

Lemma alike_activity J v1 v2 : alike J v1 v2 → activity v1 = activity v2.
Proof. by intros [(_ & _ & _ & _ & Ha & _) _]. Qed.

Hypothesis no_fails : no_write_fails e.

Lemma trails_process_task_body task_file :
  trails e (alike any_folders) (process_task_body glob task_file).
Proof.
  assert (Hany : ∀ f d, any_folders d → any_folders ({[f]} ∪ d)) by done.
  assert (Hlogs : ∀ f d, any_folders d ∧ has_logs d →
                         any_folders ({[f]} ∪ d) ∧ has_logs ({[f]} ∪ d))
    by (by apply has_logs_mono).
  set (L := fun d : gset folder => any_folders d ∧ has_logs d) in *.
  unfold process_task_body.
  apply (trails_bind (alike any_folders) (alike any_folders));
    [apply (lockstep_read_file e any_folders)| |apply alike_activity].
  intros [why|task_content].
  { apply (trails_lockstep (alike any_folders) (alike any_folders));
      [by apply (lockstep_log_error e any_folders)|apply alike_activity]. }
  apply (trails_bind (alike any_folders) (alike any_folders));
    [apply (lockstep_read_source e any_folders glob)| |apply alike_activity].
  intros source_content.
  apply (trails_bind (alike any_folders) (alike any_folders));
    [| |apply alike_activity].
  { destruct (analyze_intent _); [apply lockstep_ret|apply lockstep_raise]. }
  intros analysis.
  apply (trails_bind (alike any_folders) (alike L));
    [by apply (lockstep_log_activity e any_folders)| |apply alike_activity].
  intros _.
  apply (trails_bind (alike L) (alike L)); [| |apply alike_activity].
  { apply (lockstep_route e L Hlogs); [by intros d [_ ?]|done]. }
  intros _.
  apply (trails_bind (alike L) (alike L));
    [by apply (lockstep_log_activity_same e L)| |apply alike_activity].
  intros _. apply trails_archive.
Qed.

(** The activity log after a live run of [process_task_file] is the one
    after a dry run, or has one [task_archived] entry more. *)
Lemma process_task_file_trails task_file v :
  archived_more (process_task_file glob task_file (in_mode false e) v).2
                (process_task_file glob task_file (in_mode true e) v).2.
Proof.
  assert (Hv : alike any_folders v v) by (by split; [split_and!|]).
  pose proof (trails_process_task_body task_file v v Hv) as H.
  unfold process_task_file, try_except.
  destruct (process_task_body glob task_file (in_mode false e) v) as [[[]|x1] w1],
           (process_task_body glob task_file (in_mode true e) v) as [[[]|x2] w2];
    simpl in *; rewrite ?log_error_run; simpl;
    repeat match goal with
           | |- context [write_fails e ?p] => destruct (write_fails e p); simpl
           end;
    exact H.
Qed.

End Trails.
Import Orchestrator.

(** ** Dry run *)

(** In dry-run mode the detector changes nothing in [Needs_Action]. *)
Lemma process_file_dry_operations p kind o d :
  Watcher.operations (Watcher.process_file true p kind o d)
  = Watcher.operations d.
Proof.
  destruct (process_file_ending true p kind o d)
    as [[_ _ _ _ E|sz mt _ _ _ _ E|x _ _ _ _ _ E _|sz mt ? _ _ _ _ _ _ _ E] _];
    try done.
  unfold Detector.fails_after_write in E.
  destruct (Watcher.o_stat o), (Watcher.o_size o);
    rewrite ?andb_false_r in E; done.
Qed.

(** When its writes succeed, a live run of the detector marks the same
    fingerprints and completes as often as a dry run. *)
Lemma process_file_modes p kind o d :
  Watcher.o_write_fails o = false → Watcher.o_copy_fails o = false →
  Watcher.PROCESSED_FILES (Watcher.process_file false p kind o d)
  = Watcher.PROCESSED_FILES (Watcher.process_file true p kind o d) ∧
  Detector.completions (Watcher.process_file false p kind o d)
  = Detector.completions (Watcher.process_file true p kind o d).
Proof.
  intros Hw Hc. unfold Watcher.process_file, Watcher.failed. rewrite Hw, Hc.
  destruct (Watcher.supported p); simpl; [|done].
  destruct (Watcher.o_stat o) as [[sz mt]|]; [|done].
  case_bool_decide; [done|].
  destruct (Watcher.o_exists o); simpl; [|done].
  destruct (Watcher.o_size o) as [n|]; [|done].
  destruct (n =? 0)%N; [done|]. simpl. split; [done|].
  repeat first [rewrite completions_mark | rewrite completions_log
               | rewrite completions_perform]; simpl. done.
Qed.

(** C4, as amended: in dry-run mode, processing a task writes no artifact,
    moves nothing and leaves [Needs_Action], [Done], the artifacts and the
    dashboard as they were, and the detector writes no task file and
    copies nothing.  Folders are still created when missing and the log
    files are still written.  When no write fails, the activity log after
    a dry run is the one after a live run, except for the [task_archived]
    entry that only a live run appends; the detector marks the same
    fingerprints in both modes when its writes succeed. *)
Theorem C4_dry_run glob e v task_file :
  (dry e → same_documents v (process_task_file glob task_file e v).2) ∧
  (no_write_fails e →
   archived_more (process_task_file glob task_file (in_mode false e) v).2
                 (process_task_file glob task_file (in_mode true e) v).2) ∧
  (∀ p kind o d,
     Watcher.operations (Watcher.process_file true p kind o d)
     = Watcher.operations d ∧
     (Watcher.o_write_fails o = false → Watcher.o_copy_fails o = false →
      Watcher.PROCESSED_FILES (Watcher.process_file false p kind o d)
      = Watcher.PROCESSED_FILES (Watcher.process_file true p kind o d) ∧
      Detector.completions (Watcher.process_file false p kind o d)
      = Detector.completions (Watcher.process_file true p kind o d))).
Proof.
  split_and!.
  - intros He. by apply (keeps_process_task_file dry).
  - intros Hno. by apply process_task_file_trails.
  - intros p kind o d. split; [apply process_file_dry_operations|].
    apply process_file_modes.
Qed.

Lemma C4_dry_run_witness :
  same_documents (vault_with task_A scenario_A)
    (process_task_file glob_exact task_A (example_env true)
       (vault_with task_A scenario_A)).2 ∧
  archived_more
    (process_task_file glob_exact task_A (in_mode false (example_env true))
       (vault_with task_A scenario_A)).2
    (process_task_file glob_exact task_A (in_mode true (example_env true))
       (vault_with task_A scenario_A)).2 ∧
  Watcher.PROCESSED_FILES
    (Watcher.process_file false Detector.report Watcher.created
       Detector.seen_ok Watcher.initial)
  = Watcher.PROCESSED_FILES
      (Watcher.process_file true Detector.report Watcher.created
         Detector.seen_ok Watcher.initial).
Proof.
  destruct (C4_dry_run glob_exact (example_env true)
              (vault_with task_A scenario_A) task_A) as (Hdocs & Hlog & Hdet).
  split_and!.
  - apply Hdocs. reflexivity.
  - apply Hlog. intros p. reflexivity.
  - apply (Hdet Detector.report Watcher.created Detector.seen_ok Watcher.initial);
      reflexivity.
Defined.

(** C4 as stated fails.  A dry run on a vault without folders creates
    [Logs] and [Plans]; and on scenario A the live run logs three
    activities, the last one [task_archived], where the dry run logs
    two. *)
Lemma C4_counterexample :
  (dirs vault_bare = ∅ ∧
   let v' := (process_task_file glob_exact task_A (example_env true)
                vault_bare).2 in
   LOGS_FOLDER ∈ dirs v' ∧ PLANS_FOLDER ∈ dirs v') ∧
  (map a_action <$>
     activity (process_task_file glob_exact task_A (example_env false)
                 (vault_with task_A scenario_A)).2 !! T "2026-01-05"
   = Some [intent_analyzed; task_processed; task_archived]) ∧
  (map a_action <$>
     activity (process_task_file glob_exact task_A (example_env true)
                 (vault_with task_A scenario_A)).2 !! T "2026-01-05"
   = Some [intent_analyzed; task_processed]).
Proof.
  split_and!.
  - reflexivity.
  - intros v'. split; apply (bool_decide_unpack _); by vm_compute.
  - by vm_compute.
  - by vm_compute.
Qed.

(* ===================================================================== *)
(** * The detector over sequences of events *)
(* ===================================================================== *)

Section DetectorTrace.
Import Watcher Detector Trace.

Variable DRY_RUN : bool.

(** What one call of [process_file] adds to the operations. *)
Lemma process_file_adds p kind o d :
  let d' := process_file DRY_RUN p kind o d in
  operations d' = operations d ∨
  ∃ sz, DRY_RUN = false ∧ supported p = true ∧ sz ≠ 0%N ∧
    let w := write_task (task_filename (o_now o)) (task_for p sz (o_now o)) in
    (operations d' = operations d ++ [w] ∨
     operations d' = operations d ++ [w; copy_file p (name p)]).
Proof.
  unfold process_file, failed.
  destruct (supported p) eqn:Hs; simpl; [|by left].
  destruct (o_stat o) as [[sz mt]|]; [|by left].
  case_bool_decide; [by left|].
  destruct (o_exists o); simpl; [|by left].
  destruct (o_size o) as [n|]; [|by left].
  destruct (N.eqb_spec n 0); [by left|].
  destruct DRY_RUN; [by left|].
  destruct (o_write_fails o); [by left|].
  right. exists n. split_and!; try done.
  destruct (o_copy_fails o); simpl; [by left|right].
  by rewrite <- app_assoc.
Qed.

(** [process_file] forgets nothing. *)
Lemma process_file_grows p kind o d :
  let d' := process_file DRY_RUN p kind o d in
  PROCESSED_FILES d ⊆ PROCESSED_FILES d' ∧
  file_timers d' = file_timers d ∧
  logged d `prefix_of` logged d'.
Proof.
  unfold process_file, failed.
  assert (Hl : ∀ l d0, logged d `prefix_of` logged d0 →
                 logged d `prefix_of` logged (log l d0)).
  { intros l d0 H. simpl. by apply prefix_app_r. }
  destruct (supported p); simpl; [|split_and!; [done|done|by apply prefix_app_r]].
  destruct (o_stat o) as [[sz mt]|]; [|split_and!; [done|done|by apply prefix_app_r]].
  case_bool_decide; [split_and!; [done|done|by apply prefix_app_r]|].
  destruct (o_exists o); simpl; [|split_and!; [done|done|by apply prefix_app_r]].
  destruct (o_size o) as [n|]; [|split_and!; [done|done|by apply prefix_app_r]].
  destruct (n =? 0)%N; [split_and!; [done|done|by apply prefix_app_r]|].
  destruct DRY_RUN; simpl.
  { split_and!; [apply union_subseteq_r|done|]. rewrite <- !app_assoc.
    by apply prefix_app_r. }
  destruct (o_write_fails o); simpl.
  { split_and!; [done|done|]. rewrite <- !app_assoc. by apply prefix_app_r. }
  destruct (o_copy_fails o); simpl.
  { split_and!; [done|done|]. rewrite <- !app_assoc. by apply prefix_app_r. }
  split_and!; [apply union_subseteq_r|done|]. rewrite <- !app_assoc.
  by apply prefix_app_r.
Qed.

(** An event is dropped, or handled by [process_file] on a detector that
    differs from the one before by a log line and perhaps a timer. *)
Lemma handle_cases ev d :
  handle DRY_RUN ev d = d ∨
  ∃ d0, handle DRY_RUN ev d
        = process_file DRY_RUN (ev_path ev) (ev_kind ev) (ev_world ev) d0 ∧
    PROCESSED_FILES d0 = PROCESSED_FILES d ∧ operations d0 = operations d ∧
    logged d `prefix_of` logged d0 ∧
    dom (file_timers d) ⊆ dom (file_timers d0) ∧
    (ev_kind ev ≠ modified → file_timers d0 = file_timers d).
Proof.
  unfold handle.
  destruct (ev_kind ev) eqn:Hk; simpl.
  - unfold on_created. destruct (o_is_directory _); [by left|right].
    eexists. split; [done|]. simpl. split_and!; try done. by apply prefix_app_r.
  - unfold on_modified. destruct (o_is_directory _); [by left|].
    destruct (supported _); simpl; [|by left].
    destruct (Qlt_le_dec _ _); [right|by left].
    eexists. split; [done|]. simpl. split_and!; try done.
    + by apply prefix_app_r.
    + rewrite dom_insert. apply union_subseteq_r.
  - unfold on_moved. destruct (o_is_directory _); [by left|right].
    eexists. split; [done|]. simpl. split_and!; try done. by apply prefix_app_r.
  - unfold poll_file. destruct (_ && _); [|by left].
    destruct (o_poll_stat _) as [[sz mt]|]; [|by left].
    case_bool_decide; [right|by left].
    eexists. split; [done|]. simpl. split_and!; try done. by apply prefix_app_r.
  - unfold scan_file. destruct (_ && _); [right|by left].
    eexists. split; [done|]. simpl. split_and!; try done. by apply prefix_app_r.
Qed.

Lemma handle_grows ev d :
  let d' := handle DRY_RUN ev d in
  PROCESSED_FILES d ⊆ PROCESSED_FILES d' ∧
  dom (file_timers d) ⊆ dom (file_timers d') ∧
  operations d `prefix_of` operations d' ∧
  logged d `prefix_of` logged d'.
Proof.
  destruct (handle_cases ev d) as [->|(d0 & -> & HP & HO & HL & HT & _)]; [done|].
  destruct (process_file_grows (ev_path ev) (ev_kind ev) (ev_world ev) d0)
    as (H1 & H2 & H3).
  simpl. split_and!.
  - by rewrite <- HP.
  - by rewrite H2.
  - rewrite <- HO.
    destruct (process_file_adds (ev_path ev) (ev_kind ev) (ev_world ev) d0)
      as [->|(sz & _ & _ & _ & [->| ->])]; [done|by apply prefix_app_r..].
  - by etrans.
Qed.

Lemma sound_op_app ops ops' :
  Forall sound_op ops → Forall sound_op ops' → Forall sound_op (ops ++ ops').
Proof. intros. by apply Forall_app. Qed.





End DetectorTrace.

Section DetectorSequences.
Import Watcher Detector Trace.


(** The detector never forgets: over any sequence of events the
    processed fingerprints and the paths with a timer only grow, and the
    operations and the log are only extended at their end. *)
Theorem detector_only_grows DRY_RUN evs : ∀ d,
  let d' := handle_all DRY_RUN evs d in
  PROCESSED_FILES d ⊆ PROCESSED_FILES d' ∧
  dom (file_timers d) ⊆ dom (file_timers d') ∧
  operations d `prefix_of` operations d' ∧
  logged d `prefix_of` logged d'.
Proof.
  induction evs as [|ev evs IH]; intros d; simpl; [done|].
  destruct (handle_grows DRY_RUN ev d) as (H1 & H2 & H3 & H4).
  destruct (IH (handle DRY_RUN ev d)) as (I1 & I2 & I3 & I4).
  split_and!; by etrans.
Qed.

Lemma handle_dropped DRY_RUN ev d :
  dropped ev →
  let d' := handle DRY_RUN ev d in
  PROCESSED_FILES d' = PROCESSED_FILES d ∧ file_timers d' = file_timers d ∧
  operations d' = operations d ∧ completions d' = completions d.
Proof.
  intros H. unfold handle.
  assert (Hp : ∀ kind o d0, supported (ev_path ev) = false →
            process_file DRY_RUN (ev_path ev) kind o d0
            = log (IGNORED (suffix (ev_path ev))) d0).
  { intros kind o d0 Hs. unfold process_file. by rewrite Hs. }
  destruct H as [Hs|H].
  - destruct (ev_kind ev).
    + unfold on_created. destruct (o_is_directory _); [done|].
      rewrite Hp by done. split_and!; try done.
      rewrite !completions_log. simpl. lia.
    + unfold on_modified. destruct (o_is_directory _); [done|].
      by rewrite Hs.
    + unfold on_moved. destruct (o_is_directory _); [done|].
      rewrite Hp by done. split_and!; try done.
      rewrite !completions_log. simpl. lia.
    + unfold poll_file. by rewrite Hs, andb_false_r.
    + unfold scan_file. by rewrite Hs, andb_false_r.
  - destruct (ev_kind ev).
    + unfold on_created. by rewrite H.
    + unfold on_modified. by rewrite H.
    + unfold on_moved. by rewrite H.
    + unfold poll_file. by rewrite H.
    + unfold scan_file. by rewrite H.
Qed.

(** Directory events, events on files whose extension is not supported,
    and polled or scanned entries that are not files leave the processed
    fingerprints, the timers and [Needs_Action] as they were, and never
    run the task-creation path. *)
Theorem dropped_events_change_nothing DRY_RUN evs : ∀ d,
  Forall dropped evs →
  let d' := handle_all DRY_RUN evs d in
  PROCESSED_FILES d' = PROCESSED_FILES d ∧ file_timers d' = file_timers d ∧
  operations d' = operations d ∧ completions d' = completions d.
Proof.
  induction evs as [|ev evs IH]; intros d H; simpl; [done|].
  apply Forall_cons in H as [Hev Hevs].
  destruct (handle_dropped DRY_RUN ev d Hev) as (H1 & H2 & H3 & H4).
  destruct (IH (handle DRY_RUN ev d) Hevs) as (I1 & I2 & I3 & I4).
  split_and!; congruence.
Qed.

Lemma dropped_events_change_nothing_witness :
  let d' := handle_all false [folder_created; picture_modified] initial in
  PROCESSED_FILES d' = PROCESSED_FILES initial ∧
  file_timers d' = file_timers initial ∧
  operations d' = operations initial ∧ completions d' = completions initial.
Proof.
  apply (dropped_events_change_nothing false [folder_created; picture_modified]
           initial).
  apply Forall_cons. split; [right; reflexivity|].
  apply Forall_cons. split; [left; vm_compute; reflexivity|constructor].
Defined.

(** The two modes side by side, for one call of [process_file]. *)
Lemma process_file_sides p kind o d1 d2 :
  PROCESSED_FILES d1 = PROCESSED_FILES d2 →
  o_write_fails o = false → o_copy_fails o = false →
  let l := process_file false p kind o d1 in
  let r := process_file true p kind o d2 in
  PROCESSED_FILES l = PROCESSED_FILES r ∧
  ∃ n, completions l = (completions d1 + n)%nat ∧
       completions r = (completions d2 + n)%nat ∧
       tasks_written l = (tasks_written d1 + n)%nat.
Proof.
  intros HP Hw Hc. unfold process_file, failed. rewrite Hw, Hc, HP.
  assert (H0 : ∀ l d, is_completion l = false →
                 completions (log l d) = (completions d + 0)%nat ∧
                 tasks_written (log l d) = (tasks_written d + 0)%nat).
  { intros l d Hl. rewrite completions_log, Hl. done. }
  destruct (supported p); simpl; [|split; [done|exists 0%nat; rewrite !completions_log; simpl; done]].
  destruct (o_stat o) as [[sz mt]|];
    [|split; [done|exists 0%nat; rewrite !completions_log; simpl; done]].
  case_bool_decide;
    [split; [done|exists 0%nat; rewrite !completions_log; simpl; done]|].
  destruct (o_exists o); simpl;
    [|split; [done|exists 0%nat; rewrite !completions_log; simpl; done]].
  destruct (o_size o) as [n|];
    [|split; [done|exists 0%nat; rewrite !completions_log; simpl; done]].
  destruct (n =? 0)%N;
    [split; [done|exists 0%nat; rewrite !completions_log; simpl; done]|].
  simpl. split; [by rewrite HP|]. exists 1%nat.
  repeat first [rewrite completions_mark | rewrite completions_log
               | rewrite completions_perform]; simpl.
  split_and!; [lia|lia|].
  unfold tasks_written. simpl. rewrite !List.filter_app, !length_app. simpl. lia.
Qed.

Lemma handle_sides ev d1 d2 :
  same_memory d1 d2 → no_failure ev →
  let l := handle false ev d1 in
  let r := handle true ev d2 in
  same_memory l r ∧
  ∃ n, completions l = (completions d1 + n)%nat ∧
       completions r = (completions d2 + n)%nat ∧
       tasks_written l = (tasks_written d1 + n)%nat.
Proof.
  intros [HP HT] [Hw Hc]. unfold handle.
  assert (Hstay : same_memory d1 d2 ∧
    ∃ n, completions d1 = (completions d1 + n)%nat ∧
         completions d2 = (completions d2 + n)%nat ∧
         tasks_written d1 = (tasks_written d1 + n)%nat).
  { split; [done|]. exists 0%nat. lia. }
  assert (Hgo : ∀ kind l1 l2 (f : detector → detector),
    is_completion l1 = false → is_completion l2 = false →
    (∀ d, PROCESSED_FILES (f d) = PROCESSED_FILES d ∧
          completions (f d) = completions d ∧
          tasks_written (f d) = tasks_written d ∧ logged (f d) = logged d) →
    file_timers (f (log l1 d1)) = file_timers (f (log l2 d2)) →
    let l := process_file false (ev_path ev) kind (ev_world ev) (f (log l1 d1)) in
    let r := process_file true (ev_path ev) kind (ev_world ev) (f (log l2 d2)) in
    same_memory l r ∧
    ∃ n, completions l = (completions d1 + n)%nat ∧
         completions r = (completions d2 + n)%nat ∧
         tasks_written l = (tasks_written d1 + n)%nat).
  { intros kind l1 l2 f H1 H2 Hf Ht.
    destruct (process_file_sides (ev_path ev) kind (ev_world ev)
                (f (log l1 d1)) (f (log l2 d2))) as (E & n & C1 & C2 & C3);
      [|done|done|].
    { destruct (Hf (log l1 d1)) as (-> & _). by destruct (Hf (log l2 d2)) as (-> & _). }
    split.
    - split; [done|].
      destruct (process_file_grows false (ev_path ev) kind (ev_world ev)
                  (f (log l1 d1))) as (_ & -> & _).
      by destruct (process_file_grows true (ev_path ev) kind (ev_world ev)
                  (f (log l2 d2))) as (_ & -> & _).
    - exists n. rewrite C1, C2, C3.
      destruct (Hf (log l1 d1)) as (_ & -> & -> & _).
      destruct (Hf (log l2 d2)) as (_ & -> & _ & _).
      rewrite !completions_log, H1, H2. unfold tasks_written. simpl. lia. }
  destruct (ev_kind ev).
  - unfold on_created. destruct (o_is_directory _); [done|].
    by apply (Hgo created _ _ (fun d => d)).
  - unfold on_modified. destruct (o_is_directory _); [done|].
    destruct (supported _); simpl; [|done]. rewrite HT.
    destruct (Qlt_le_dec _ _); [|done].
    apply (Hgo modified _ _ (set_timer (ev_path ev) (o_time (ev_world ev))));
      [done|done|done|]. simpl. by rewrite HT.
  - unfold on_moved. destruct (o_is_directory _); [done|].
    by apply (Hgo moved _ _ (fun d => d)).
  - unfold poll_file. destruct (_ && _); [|done].
    destruct (o_poll_stat _) as [[sz mt]|]; [|done]. rewrite HP.
    case_bool_decide; [|done].
    by apply (Hgo poll _ _ (fun d => d)).
  - unfold scan_file. destruct (_ && _); [|done].
    by apply (Hgo scan _ _ (fun d => d)).
Qed.

Lemma handle_all_sides evs : ∀ d1 d2,
  same_memory d1 d2 → Forall no_failure evs →
  let l := handle_all false evs d1 in
  let r := handle_all true evs d2 in
  same_memory l r ∧
  ∃ n, completions l = (completions d1 + n)%nat ∧
       completions r = (completions d2 + n)%nat ∧
       tasks_written l = (tasks_written d1 + n)%nat.
Proof.
  induction evs as [|ev evs IH]; intros d1 d2 Hm H; simpl.
  { split; [done|]. exists 0%nat. lia. }
  apply Forall_cons in H as [Hev Hevs].
  destruct (handle_sides ev d1 d2 Hm Hev) as (Hm1 & n1 & A1 & A2 & A3).
  destruct (IH _ _ Hm1 Hevs) as (Hm2 & n2 & B1 & B2 & B3).
  split; [done|]. exists (n1 + n2)%nat.
  unfold handle_all in *. simpl in *. lia.
Qed.

Lemma handle_all_dry_operations evs : ∀ d,
  operations (handle_all true evs d) = operations d.
Proof.
  induction evs as [|ev evs IH]; intros d; [done|].
  change (handle_all true (ev :: evs) d)
    with (handle_all true evs (handle true ev d)).
  rewrite IH.
  destruct (handle_cases true ev d) as [->|(d0 & -> & _ & HO & _)]; [done|].
  destruct (process_file_adds true (ev_path ev) (ev_kind ev) (ev_world ev) d0)
    as [->|(sz & ? & _)]; done.
Qed.

(** Over any sequence of events during which no write or copy fails, a
    dry run and a live run started from the same state remember the same
    fingerprints and timers and run the task-creation path equally often;
    the dry run performs no operation, and the live run writes one task
    document for each time it ran the path to its end. *)
Theorem modes_agree_over_sequences evs d :
  Forall no_failure evs →
  let live := handle_all false evs d in
  let dry := handle_all true evs d in
  same_memory live dry ∧
  completions live = completions dry ∧
  operations dry = operations d ∧
  tasks_written live
  = (tasks_written d + (completions live - completions d))%nat.
Proof.
  intros H live dry.
  destruct (handle_all_sides evs d d) as (Hm & n & C1 & C2 & C3);
    [done|done|].
  fold live in Hm, C1, C3. fold dry in Hm, C2.
  split_and!; [done|lia| |lia].
  apply handle_all_dry_operations.
Qed.

Lemma modes_agree_over_sequences_witness :
  let live := handle_all false report_events initial in
  let dry := handle_all true report_events initial in
  same_memory live dry ∧
  completions live = completions dry ∧
  operations dry = operations initial ∧
  tasks_written live
  = (tasks_written initial + (completions live - completions initial))%nat.
Proof.
  apply (modes_agree_over_sequences report_events initial).
  repeat (apply Forall_cons; split; [split; reflexivity|]). constructor.
Defined.

End DetectorSequences.

(* ===================================================================== *)
(** * Names, stems and suffixes *)
(* ===================================================================== *)

Section Paths.
Import Orchestrator Watcher Trace.

Lemma index_of_split c : ∀ s j,
  index_of c s = Some j →
  ∃ pre post, s = pre ++ c :: post ∧ List.length pre = j ∧ c ∉ pre.
Proof.
  induction s as [|d s IH]; intros j; simpl; [done|].
  destruct (Ascii.eqb_spec c d) as [<-|Hne].
  - intros [= <-]. exists [], s. split_and!; [done|done|apply not_elem_of_nil].
  - destruct (index_of c s) as [j'|]; [|done]. simpl. intros [= <-].
    destruct (IH j' eq_refl) as (pre & post & -> & <- & Hpre).
    exists (d :: pre), post. split_and!; [done|done|].
    by intros [?|?]%elem_of_cons.
Qed.

Lemma index_of_None c : ∀ s, index_of c s = None → c ∉ s.
Proof.
  induction s as [|d s IH]; simpl; [intros; apply not_elem_of_nil|].
  destruct (Ascii.eqb_spec c d) as [<-|Hne]; [done|].
  destruct (index_of c s); [done|]. intros _.
  intros [?|?]%elem_of_cons; [done|]. by apply IH.
Qed.

(** A name with a last point: the part before it and the part after it. *)
Lemma last_point n j :
  index_of "." (rev n) = Some j →
  ∃ front ext, n = front ++ "."%char :: ext ∧ List.length ext = j ∧
    List.length n - 1 - j = List.length front ∧ ("."%char ∉ ext).
Proof.
  intros H. apply index_of_split in H as (pre & post & E & <- & Hpre).
  exists (rev post), (rev pre).
  assert (En : n = rev post ++ "."%char :: rev pre).
  { rewrite <- (rev_involutive n), E, rev_app_distr. simpl.
    by rewrite <- app_assoc. }
  split_and!; [done|by rewrite length_rev| |].
  - rewrite En at 1. rewrite length_app. simpl. rewrite !length_rev. lia.
  - intros H. apply Hpre. apply list_elem_of_In, in_rev.
    by apply list_elem_of_In.
Qed.

Lemma name_from_spec : ∀ p acc,
  ("/"%char ∉ p → name_from acc p = acc) ∧
  ("/"%char ∈ p →
   ("/"%char ∉ name_from acc p) ∧ name_from acc p `suffix_of` p).
Proof.
  induction p as [|c p IH]; intros acc; simpl.
  { split; [done|]. by intros ?%elem_of_nil. }
  destruct (Ascii.eqb_spec c "/") as [->|Hne].
  - split; [intros H; destruct H; by left|]. intros _.
    destruct (decide ("/"%char ∈ p)) as [Hin|Hout].
    + destruct (IH p) as [_ H]. destruct (H Hin) as [H1 H2].
      split; [done|]. by apply suffix_cons_r.
    + destruct (IH p) as [H _]. rewrite (H Hout).
      split; [done|]. by apply suffix_cons_r.
  - destruct (IH acc) as [H1 H2]. split.
    + intros H. apply H1. intros ?. apply H. by right.
    + intros [?|H]%elem_of_cons; [done|].
      destruct (H2 H) as [H3 H4]. split; [done|]. by apply suffix_cons_r.
Qed.

(** [Path.name] is the end of the path after its last slash. *)
Lemma name_spec p : ("/"%char ∉ name p) ∧ name p `suffix_of` p.
Proof.
  unfold name. destruct (decide ("/"%char ∈ p)) as [Hin|Hout].
  - by apply name_from_spec.
  - destruct (name_from_spec p p) as [H _]. by rewrite (H Hout).
Qed.

(** [Path.stem] and [Path.suffix] cut the name of a path in two: put
    together again they give the name.  The name holds no slash and ends
    the path.  A suffix that is not empty is the last point of the name
    with what follows it; at least one character follows the point, none
    of them a point, and the stem before it is not empty. *)
Theorem stem_and_suffix p :
  stem (name p) ++ suffix p = name p ∧
  ("/"%char ∉ name p) ∧ name p `suffix_of` p ∧
  (suffix p ≠ [] →
   ∃ ext, suffix p = "."%char :: ext ∧ ext ≠ [] ∧ ("."%char ∉ ext) ∧
          stem (name p) ≠ []).
Proof.
  destruct (name_spec p) as [Hslash Hend].
  unfold stem, suffix. set (n := name p) in *.
  destruct (index_of "." (rev n)) as [j|] eqn:E.
  2:{ split_and!; [by rewrite app_nil_r|done|done|done]. }
  destruct (last_point n j E) as (front & ext & En & Hj & Hi & Hext).
  rewrite Hi.
  destruct front as [|c front]; simpl.
  { split_and!; [by rewrite app_nil_r|done|done|done]. }
  destruct ext as [|x ext]; simpl in Hj; subst j; simpl.
  { split_and!; [by rewrite app_nil_r|done|done|done]. }
  change (S (List.length front)) with (List.length (c :: front)).
  clearbody n. subst n.
  rewrite take_app_length, drop_app_length.
  split_and!; [done..|].
  intros _. exists (x :: ext). split_and!; done.
Qed.

Lemma safe_spec : ∀ timestamp,
  List.length (safe timestamp) = List.length timestamp ∧
  (":"%char ∉ safe timestamp) ∧ ("."%char ∉ safe timestamp) ∧
  safe (safe timestamp) = safe timestamp.
Proof.
  unfold safe. induction timestamp as [|c s (IH1 & IH2 & IH3 & IH4)]; simpl.
  { split_and!; [done|apply not_elem_of_nil..|done]. }
  split_and!.
  - by rewrite IH1.
  - intros [H|H]%elem_of_cons; [|done].
    destruct (Ascii.eqb_spec c ":") as [->|]; [done|].
    destruct (Ascii.eqb c "."); simpl in H; [done|congruence].
  - intros [H|H]%elem_of_cons; [|done].
    destruct (Ascii.eqb_spec c ":") as [->|]; simpl in H; [done|].
    destruct (Ascii.eqb_spec c ".") as [->|]; simpl in H; [done|congruence].
  - rewrite IH4. f_equal.
    destruct (Ascii.eqb_spec c ":") as [->|]; simpl; [done|].
    destruct (Ascii.eqb_spec c ".") as [->|]; simpl; [done|].
    destruct (Ascii.eqb_spec c ":"); [done|].
    by destruct (Ascii.eqb_spec c ".").
Qed.

Lemma ends_with_app s front : ends_with s (front ++ s) = true.
Proof.
  unfold ends_with. rewrite rev_app_distr.
  induction (rev s) as [|c r IH]; simpl; [done|].
  by rewrite Ascii.eqb_refl.
Qed.

Lemma index_of_first c post : ∀ pre,
  c ∉ pre → index_of c (pre ++ c :: post) = Some (List.length pre).
Proof.
  induction pre as [|d pre IH]; simpl; intros H.
  - by rewrite Ascii.eqb_refl.
  - destruct (Ascii.eqb_spec c d) as [->|_]; [destruct H; by left|].
    rewrite IH; [done|]. intros ?. apply H. by right.
Qed.

Lemma stem_app front ext :
  front ≠ [] → ext ≠ [] → "."%char ∉ ext →
  stem (front ++ "."%char :: ext) = front.
Proof.
  intros Hf He Hp. unfold stem.
  replace (rev (front ++ "."%char :: ext)) with (rev ext ++ "."%char :: rev front)
    by (rewrite rev_app_distr; simpl; by rewrite <- app_assoc).
  rewrite index_of_first.
  2:{ intros H. apply Hp. apply list_elem_of_In, in_rev.
      by apply list_elem_of_In. }
  rewrite length_rev, length_app. simpl.
  replace (List.length front + S (List.length ext) - 1 - List.length ext)
    with (List.length front) by lia.
  destruct front; [done|]. destruct ext; [done|]. simpl.
  by rewrite take_app_length.
Qed.

(** The name the detector gives a task document holds no colon, and no
    point but the one of its extension: the scan of the orchestrator,
    which lists [*.md], finds it, and its stem, the task name the
    orchestrator falls back to, is the name without [.md]. *)
Theorem task_filename_is_listed timestamp :
  is_md (task_filename timestamp) = true ∧
  stem (task_filename timestamp) = T "task_" ++ safe timestamp ∧
  (":"%char ∉ task_filename timestamp) ∧
  ("."%char ∉ stem (task_filename timestamp)).
Proof.
  destruct (safe_spec timestamp) as (Hlen & Hcolon & Hpoint & _).
  assert (Hstem : stem (task_filename timestamp) = T "task_" ++ safe timestamp).
  { unfold task_filename. rewrite app_assoc.
    apply (stem_app (T "task_" ++ safe timestamp) (T "md")); [done|done|].
    intros H. repeat (apply elem_of_cons in H as [H|H]; [done|]).
    by apply elem_of_nil in H. }
  split_and!.
  - unfold is_md, task_filename. rewrite app_assoc. apply ends_with_app.
  - done.
  - unfold task_filename. rewrite !elem_of_app.
    intros [H|[H|H]]; [|done|];
      repeat (apply elem_of_cons in H as [H|H]; [done|]);
      by apply elem_of_nil in H.
  - rewrite Hstem, elem_of_app. intros [H|H]; [|done].
    repeat (apply elem_of_cons in H as [H|H]; [done|]).
    by apply elem_of_nil in H.
Qed.

Lemma lower_char_slash c : Ascii.eqb (lower_char c) "/" = Ascii.eqb c "/".
Proof. destruct c as [[] [] [] [] [] [] [] []]; by vm_compute. Qed.

Lemma lower_char_point c : Ascii.eqb "." (lower_char c) = Ascii.eqb "." c.
Proof. destruct c as [[] [] [] [] [] [] [] []]; by vm_compute. Qed.

Lemma lower_char_twice c : lower_char (lower_char c) = lower_char c.
Proof. destruct c as [[] [] [] [] [] [] [] []]; by vm_compute. Qed.

Lemma name_from_lower : ∀ p acc,
  name_from (lower acc) (lower p) = lower (name_from acc p).
Proof.
  induction p as [|c p IH]; intros acc; [done|].
  change (lower (c :: p)) with (lower_char c :: lower p).
  cbn [name_from]. rewrite lower_char_slash.
  destruct (Ascii.eqb c "/"); apply IH.
Qed.

Lemma index_of_point_lower : ∀ s,
  index_of "." (lower s) = index_of "." s.
Proof.
  induction s as [|c s IH]; [done|].
  change (lower (c :: s)) with (lower_char c :: lower s).
  cbn [index_of]. rewrite lower_char_point, IH. done.
Qed.

Lemma suffix_lower p : suffix (lower p) = lower (suffix p).
Proof.
  unfold suffix, name. rewrite name_from_lower.
  set (n := name_from p p).
  replace (rev (lower n)) with (lower (rev n))
    by (unfold lower; by rewrite map_rev).
  rewrite index_of_point_lower.
  unfold lower. rewrite length_map.
  destruct (index_of "." (rev n)) as [j|]; [|done].
  destruct (_ && _); [|done]. by rewrite fmap_drop.
Qed.

(** The extension test ignores case: a path is supported exactly when
    its lower-cased form is. *)
Theorem supported_ignores_case p : supported (lower p) = supported p.
Proof.
  unfold supported. rewrite suffix_lower.
  replace (lower (lower (suffix p))) with (lower (suffix p)); [done|].
  unfold lower. rewrite map_map. apply map_ext. intros c.
  by rewrite lower_char_twice.
Qed.

End Paths.

(* ===================================================================== *)
(** * What no run of the orchestrator undoes *)
(* ===================================================================== *)

(** The parts of [steady] that hold because a field is left alone. *)
Ltac steady_fields :=
  unfold steady, folders_kept, append_only, writes_within, moves_to_done;
  split_and!; simpl; try done; try lia;
  try (intros ? ? ?; exists []; by rewrite app_nil_r);
  try (intros ? ? ?; by left).

Lemma steady_refl v : steady v v.
Proof. steady_fields. Qed.

Lemma steady_trans v1 v2 v3 : steady v1 v2 → steady v2 v3 → steady v1 v3.
Proof.
  intros ([D1 T1] & [E1 A1] & [W1 X1] & N1 & O1 & M1)
         ([D2 T2] & [E2 A2] & [W2 X2] & N2 & O2 & M2).
  unfold steady, folders_kept, append_only, writes_within, moves_to_done.
  split_and!.
  - by etrans.
  - lia.
  - by etrans.
  - intros d l H. destruct (A1 d l H) as [l1 H1].
    destruct (A2 d _ H1) as [l2 H2]. exists (l1 ++ l2).
    by rewrite app_assoc.
  - by etrans.
  - intros p Hp. rewrite X2 by done. by apply X1.
  - by etrans.
  - by etrans.
  - intros n c H. destruct (M2 n c H) as [H2|H2].
    + by apply M1.
    + right. by eapply elem_of_sublist.
Qed.

(** Steps that touch one field of the vault. *)
Lemma steady_ticks n v : ticks v ≤ n → steady v (set_ticks n v).
Proof.
  intros H. steady_fields.
Qed.

Lemma steady_dirs f v : steady v (set_dirs ({[f]} ∪ dirs v) v).
Proof.
  steady_fields. apply union_subseteq_r.
Qed.

Lemma steady_errors line v : steady v (set_errors (errors v ++ [line]) v).
Proof.
  steady_fields. by apply prefix_app_r.
Qed.

Lemma steady_dashboard doc v : steady v (set_dashboard doc v).
Proof. steady_fields. Qed.

Lemma steady_activity d entry v :
  steady v
    (set_activity
       (<[d := default [] (activity v !! d) ++ [entry]]> (activity v)) v).
Proof.
  steady_fields. intros d' l Hl.
  destruct (decide (d' = d)) as [->|Hne].
  - rewrite lookup_insert_eq, Hl. simpl. eauto.
  - rewrite lookup_insert_ne by done. exists []. by rewrite app_nil_r.
Qed.

Lemma steady_artifact p doc v :
  p.1 ∈ OUTPUT_FOLDERS →
  steady v (set_artifacts (<[p := doc]> (artifacts v)) v).
Proof.
  intros Hp. steady_fields.
  - rewrite dom_insert. apply union_subseteq_r.
  - intros q Hq. rewrite lookup_insert_ne; [done|]. by intros ->.
Qed.

Lemma file_content_elem name : ∀ l c,
  Orchestrator.file_content name l = Some c → (name, c) ∈ l.
Proof.
  induction l as [|[n c'] l IH]; intros c; simpl; [done|].
  unfold text_eqb. case_bool_decide as E.
  - intros [= <-]. subst. by left.
  - intros H. right. by apply IH.
Qed.

Lemma steady_move name content v :
  Orchestrator.file_content name (needs_action v) = Some content →
  steady v
    (set_done (<[name := content]> (done v))
       (set_needs_action (Orchestrator.remove_file name (needs_action v)) v)).
Proof.
  intros Hc. steady_fields.
  - apply sublist_filter.
  - rewrite dom_insert. apply union_subseteq_r.
  - intros n c. destruct (decide (n = name)) as [->|Hne].
    + rewrite lookup_insert_eq. intros [= <-]. right.
      by apply file_content_elem.
    + rewrite lookup_insert_ne by done. by left.
Qed.

Lemma ensure_folders_exist_run e v :
  Orchestrator.ensure_folders_exist e v = (Ok tt, set_dirs (all_folders ∪ dirs v) v).
Proof.
  unfold Orchestrator.ensure_folders_exist, for_each, Orchestrator.mkdir, modify,
    bind, ret. simpl.
  f_equal. unfold set_dirs. simpl. f_equal.
  unfold all_folders. simpl. apply set_eq. intros x.
  rewrite !elem_of_union, !elem_of_singleton, elem_of_empty. tauto.
Qed.

Section Steady.
Import Orchestrator Run.

Lemma steady_mkdir f : keeps always steady (mkdir f).
Proof. intros e v _. apply steady_dirs. Qed.

Lemma output_folder f :
  bool_decide (f ∈ OUTPUT_FOLDERS) = true → f ∈ OUTPUT_FOLDERS.
Proof. apply bool_decide_eq_true_1. Qed.

Lemma steady_write_file file_path content :
  file_path.1 ∈ OUTPUT_FOLDERS →
  keeps always steady (write_file file_path content).
Proof.
  intros Hp e v _.
  unfold write_file, mkdir, modify, ask, mbind, M_bind, bind, mret, M_ret, ret.
  simpl. destruct (dry_run (config e)); [apply steady_dirs|].
  destruct (write_fails e file_path); simpl; [apply steady_dirs|].
  eapply steady_trans; [apply (steady_dirs file_path.1)|].
  by apply (steady_artifact file_path content (set_dirs _ v)).
Qed.

Lemma steady_shutil_move name : keeps always steady (shutil_move name name).
Proof.
  intros e v _.
  unfold shutil_move, mbind, M_bind, bind, ask, get, raise, modify. simpl.
  destruct (file_content name (needs_action v)) as [content|] eqn:E;
    [|apply steady_refl].
  destruct (move_fails e _); [apply steady_refl|].
  case_bool_decide; [|apply steady_refl]. by apply steady_move.
Qed.

Ltac steady_step :=
  first
    [ keeps_known
    | match goal with
      | |- keeps _ _ (write_file (?f, _) _) =>
          apply steady_write_file; apply output_folder; reflexivity
      | |- keeps _ _ (shutil_move ?n ?n) => apply steady_shutil_move
      | |- keeps _ _ (for_each _ _) =>
          apply (keeps_for_each always steady steady_refl steady_trans);
          intros ?
      end
    | apply (keeps_ret always steady steady_refl)
    | apply (keeps_raise always steady steady_refl)
    | apply (keeps_ask always steady steady_refl)
    | apply (keeps_get always steady steady_refl)
    | apply (keeps_bind always steady steady_trans); [|intros ?]
    | apply (keeps_try always steady steady_trans); [|intros ?]
    | match goal with
      | |- keeps _ _ (match ?x with _ => _ end) => destruct x
      end ].

Ltac steady_all := repeat steady_step.

Lemma steady_now : keeps always steady now.
Proof. intros e v _. apply steady_ticks. simpl. lia. Qed.

Lemma steady_log_error message : keeps always steady (log_error message).
Proof.
  intros e v _. rewrite log_error_run. simpl.
  eapply steady_trans; [apply (steady_dirs LOGS_FOLDER)|].
  eapply steady_trans; [apply (steady_ticks (S (ticks v))); simpl; lia|].
  destruct (write_fails e ERROR_LOG_FILE); [apply steady_refl|].
  apply (steady_errors _ (set_ticks _ (set_dirs _ v))).
Qed.

Lemma steady_log_activity action file st details :
  keeps always steady (log_activity action file st details).
Proof.
  intros e v _.
  unfold log_activity, try_except, mkdir, now, mbind, M_bind, bind, ask, get,
    raise, modify, mret, M_ret, ret.
  simpl.
  set (v1 := set_ticks _ (set_ticks _ (set_dirs _ v))).
  assert (H1 : steady v v1).
  { eapply steady_trans; [apply (steady_dirs LOGS_FOLDER)|].
    eapply steady_trans; [apply (steady_ticks (S (ticks v))); simpl; lia|].
    apply (steady_ticks (S (S (ticks v)))). simpl. lia. }
  assert (Herr : ∀ x, steady v (log_error (failed_to_write_activity_log x) e v1).2).
  { intros x. eapply steady_trans; [exact H1|]. by apply steady_log_error. }
  destruct (activity v !! day (clock e (ticks v))) as [logs|] eqn:El; simpl;
    repeat match goal with
           | |- context [if read_fails e ?p then _ else _] =>
               destruct (read_fails e p); simpl
           | |- context [if write_fails e ?p then _ else _] =>
               destruct (write_fails e p); simpl
           end;
    try apply Herr.
  - eapply steady_trans; [exact H1|].
    pose proof (steady_activity (day (clock e (ticks v)))
      {| a_timestamp := clock e (S (ticks v)); a_action := action;
         a_file := file; a_status := st; a_details := details |} v1) as H.
    simpl in H. rewrite El in H. exact H.
  - eapply steady_trans; [exact H1|].
    pose proof (steady_activity (day (clock e (ticks v)))
      {| a_timestamp := clock e (S (ticks v)); a_action := action;
         a_file := file; a_status := st; a_details := details |} v1) as H.
    simpl in H. rewrite El in H. exact H.
Qed.

Lemma steady_read_file name : keeps always steady (read_file name).
Proof. unfold read_file. steady_all. Qed.

Lemma steady_draft_email_response original_email analysis :
  keeps always steady (draft_email_response original_email analysis).
Proof.
  pose proof steady_now.
  unfold draft_email_response, as_number. steady_all.
Qed.

Lemma steady_create_task_plan task_name description analysis :
  keeps always steady (create_task_plan task_name description analysis).
Proof.
  pose proof steady_now.
  unfold create_task_plan. steady_all.
Qed.

Lemma steady_extract_data_from_content content :
  keeps always steady (extract_data_from_content content).
Proof.
  pose proof steady_now.
  unfold extract_data_from_content. steady_all.
  intros e v _. apply steady_artifact. simpl. unfold OUTPUT_FOLDERS.
  rewrite !elem_of_cons. auto.
Qed.

Variable glob : list text → text → option (list text).

Lemma steady_needs_action_glob pattern : keeps always steady (needs_action_glob glob pattern).
Proof. unfold needs_action_glob. steady_all. Qed.

Lemma steady_read_source source_file task_name :
  keeps always steady (read_source glob source_file task_name).
Proof.
  pose proof steady_needs_action_glob. pose proof steady_read_file.
  unfold read_source. steady_all.
Qed.

Lemma steady_route task_name task_content source_content analysis_content
    analysis :
  keeps always steady (route task_name task_content source_content analysis_content analysis).
Proof.
  pose proof steady_draft_email_response. pose proof steady_create_task_plan.
  pose proof steady_extract_data_from_content.
  unfold route, format_2f. steady_all.
Qed.

Lemma steady_archive task_file source_file task_name :
  keeps always steady (archive glob task_file source_file task_name).
Proof.
  pose proof steady_needs_action_glob. pose proof steady_log_activity.
  unfold archive. steady_all.
Qed.

Lemma steady_process_task_file task_file :
  keeps always steady (process_task_file glob task_file).
Proof.
  pose proof steady_read_file. pose proof steady_log_error.
  pose proof steady_read_source. pose proof steady_log_activity.
  pose proof steady_route. pose proof steady_archive.
  unfold process_task_file, process_task_body. steady_all.
Qed.

Lemma steady_ensure_folders_exist : keeps always steady ensure_folders_exist.
Proof. pose proof steady_mkdir. unfold ensure_folders_exist. steady_all. Qed.

Lemma steady_get_folder_count f : keeps always steady (get_folder_count f).
Proof. unfold get_folder_count. steady_all. Qed.

Lemma steady_get_recent_activities limit : keeps always steady (get_recent_activities limit).
Proof. pose proof steady_now. unfold get_recent_activities. steady_all. Qed.

Lemma steady_update_dashboard : keeps always steady update_dashboard.
Proof.
  pose proof steady_get_folder_count. pose proof steady_get_recent_activities.
  pose proof steady_log_activity. pose proof steady_log_error.
  unfold update_dashboard. steady_all.
Qed.

Lemma steady_scan_and_process : keeps always steady (scan_and_process glob).
Proof.
  pose proof steady_ensure_folders_exist. pose proof steady_process_task_file.
  pose proof steady_update_dashboard.
  unfold scan_and_process, process_all. steady_all.
Qed.

Lemma steady_scans n : keeps always steady (scans glob n).
Proof.
  pose proof steady_scan_and_process.
  induction n as [|n IH]; simpl; steady_all.
Qed.


Lemma after_ensure_folders_exist (m : M unit) e v :
  keeps always steady m →
  all_folders ∪ dirs v ⊆ dirs ((ensure_folders_exist;; m) e v).2.
Proof.
  intros H. unfold mbind, M_bind, bind. rewrite ensure_folders_exist_run.
  destruct (H e (set_dirs (all_folders ∪ dirs v) v) I) as ([Hd _] & _).
  exact Hd.
Qed.

Lemma scan_and_process_folders e v :
  all_folders ∪ dirs v ⊆ dirs (scan_and_process glob e v).2.
Proof.
  pose proof steady_process_task_file. pose proof steady_update_dashboard.
  unfold scan_and_process. apply after_ensure_folders_exist.
  unfold process_all. steady_all.
Qed.

Lemma main_folders e v : all_folders ∪ dirs v ⊆ dirs (main glob e v).2.
Proof.
  pose proof steady_update_dashboard. pose proof steady_scans.
  unfold main. apply after_ensure_folders_exist. steady_all.
Qed.

End Steady.

Section RunProperties.
Import Orchestrator Run.

Variable glob : list text → text → option (list text).





(** A scan that finds no task document creates the missing folders,
    reads the clock once for the line it prints, and does nothing else:
    it writes no log entry, moves no file and leaves the dashboard as it
    is.  When the terminal refuses the line, the exception leaves the
    scan. *)
Theorem idle_scan refuses e v :
  List.filter is_md (needs_action v).*1 = [] →
  Console.scan_and_process glob refuses e v
  = (if refuses (Console.No_tasks_found (clock e (ticks v)))
     then Raise ValueError else Ok tt,
     set_ticks (S (ticks v)) (set_dirs (all_folders ∪ dirs v) v)).
Proof.
  intros H. unfold Console.scan_and_process, mbind, M_bind, bind, get.
  rewrite ensure_folders_exist_run. simpl. rewrite H.
  unfold now, Console.print. simpl. by destruct (refuses _).
Qed.

(** ** The whole run never raises *)

Lemma returns_get_folder_count f : returns (get_folder_count f).
Proof. unfold get_folder_count. returns_all. Qed.

Lemma returns_get_recent_activities limit :
  returns (get_recent_activities limit).
Proof. unfold get_recent_activities. returns_all. Qed.

Lemma returns_update_dashboard : returns update_dashboard.
Proof. unfold update_dashboard. returns_all. Qed.

Lemma returns_ensure_folders_exist : returns ensure_folders_exist.
Proof.
  unfold ensure_folders_exist. apply returns_for_each. intros f.
  apply returns_mkdir.
Qed.

Lemma returns_scan_and_process : returns (scan_and_process glob).
Proof.
  pose proof returns_ensure_folders_exist.
  pose proof returns_update_dashboard.
  pose proof (returns_process_task_file glob).
  unfold scan_and_process, process_all.
  apply returns_bind; [done|intros _].
  apply returns_bind; [apply returns_get|intros w].
  destruct (List.filter is_md _); [apply returns_ret|].
  apply returns_bind; [|done]. by apply returns_for_each.
Qed.

Lemma returns_scans n : returns (scans glob n).
Proof.
  induction n as [|n IH]; simpl; [apply returns_ret|].
  apply returns_bind; [apply returns_scan_and_process|done].
Qed.

(** ** On a terminal that accepts every line, no scan raises *)

Section Accepted.

Variable refuses : Console.line → bool.
Hypothesis accepted : ∀ l, refuses l = false.

Lemma returns_print l : returns (Console.print refuses l).
Proof. intros e v. exists tt. unfold Console.print. by rewrite accepted. Qed.

Lemma returns_console_log_error message :
  returns (Console.log_error refuses message).
Proof.
  pose proof returns_print. unfold Console.log_error. returns_all.
Qed.

Lemma returns_console_log_activity action file st details :
  returns (Console.log_activity refuses action file st details).
Proof.
  pose proof returns_print.
  unfold Console.log_activity, Console.log_error. returns_all.
Qed.

Lemma returns_console_update_dashboard :
  returns (Console.update_dashboard refuses).
Proof.
  pose proof returns_print. pose proof returns_console_log_error.
  unfold Console.update_dashboard.
  apply returns_try. intros x.
  apply returns_bind; [done|intros _]. done.
Qed.

Lemma returns_console_process_task_file task_file :
  returns (Console.process_task_file glob refuses task_file).
Proof.
  pose proof returns_print. pose proof returns_console_log_error.
  unfold Console.process_task_file.
  apply returns_bind; [done|intros _].
  apply returns_bind; [done|intros _].
  apply returns_bind; [done|intros _].
  apply returns_try. intros x.
  apply returns_bind; [done|intros _].
  apply returns_bind; [done|intros _]. done.
Qed.

Lemma returns_console_scan_and_process :
  returns (Console.scan_and_process glob refuses).
Proof.
  pose proof returns_print. pose proof returns_console_update_dashboard.
  pose proof returns_console_process_task_file.
  unfold Console.scan_and_process, Console.process_all.
  apply returns_bind; [apply returns_ensure_folders_exist|intros _].
  apply returns_bind; [apply returns_get|intros w].
  destruct (List.filter is_md _).
  - apply returns_bind; [apply returns_now|intros stamp]. done.
  - apply returns_bind; [apply returns_now|intros stamp].
    apply returns_bind; [done|intros _].
    apply returns_bind; [|done]. by apply returns_for_each.
Qed.

End Accepted.

(** On a terminal that accepts every line, whatever else fails while the
    orchestrator scans (a file that cannot be read, written or moved, a
    pattern that [glob] refuses, a log that cannot be written), no
    exception leaves [process_task_file], [update_dashboard] or
    [scan_and_process]: each of them returns. *)
Theorem run_never_raises refuses e v :
  (∀ l, refuses l = false) →
  (∀ task_file,
     ∃ v', Console.process_task_file glob refuses task_file e v = (Ok tt, v')) ∧
  (∃ v', Console.update_dashboard refuses e v = (Ok tt, v')) ∧
  (∃ v', Console.scan_and_process glob refuses e v = (Ok tt, v')).
Proof.
  intros Hacc.
  assert (H : ∀ m : M unit, returns m → ∃ v', m e v = (Ok tt, v')).
  { intros m Hm. destruct (Hm e v) as [[] H].
    destruct (m e v) as [r v']. simpl in H. subst r. by exists v'. }
  split_and!; [intros task_file|..]; apply H.
  - by apply returns_console_process_task_file.
  - by apply returns_console_update_dashboard.
  - by apply returns_console_scan_and_process.
Qed.

(** ** A dry run of the whole program *)

Lemma keeps_dry_update_dashboard : keeps dry same_documents update_dashboard.
Proof.
  pose proof (keeps_now dry) as Hn.
  pose proof (keeps_log_activity dry) as Ha.
  pose proof (keeps_log_error dry) as He.
  assert (Hc : ∀ f, keeps dry same_documents (get_folder_count f)).
  { intros f. unfold get_folder_count. keeps_all. }
  assert (Hr : ∀ n, keeps dry same_documents (get_recent_activities n)).
  { intros n. unfold get_recent_activities. keeps_all. }
  unfold update_dashboard.
  apply docs_try; [|intros x; apply He].
  apply docs_bind; [apply Hc|intros n1].
  apply docs_bind; [apply Hc|intros n2].
  apply docs_bind; [apply Hc|intros n3].
  apply docs_bind; [apply Hc|intros n4].
  apply docs_bind; [apply Hr|intros l].
  apply keeps_ask_bind. intros e He'.
  apply docs_bind; [|intros _; intros e' v' ->; by apply Ha].
  intros e' v' ->. unfold dry in He'. rewrite He'. simpl.
  apply same_documents_refl.
Qed.

Lemma keeps_dry_scan_and_process :
  keeps dry same_documents (scan_and_process glob).
Proof.
  pose proof (keeps_mkdir dry) as Hm.
  pose proof (keeps_process_task_file dry (fun e H => H) glob) as Hp.
  pose proof keeps_dry_update_dashboard as Hu.
  unfold scan_and_process, process_all, ensure_folders_exist.
  apply docs_bind; [by apply docs_for_each|intros _].
  apply docs_bind; [apply docs_get|intros w].
  destruct (List.filter is_md _); [apply docs_ret|].
  apply docs_bind; [by apply docs_for_each|done].
Qed.

Lemma keeps_dry_scans n : keeps dry same_documents (scans glob n).
Proof.
  induction n as [|n IH]; simpl; [apply docs_ret|].
  apply docs_bind; [apply keeps_dry_scan_and_process|done].
Qed.

(** In dry-run mode a whole run of the orchestrator, with its scans and
    its updates of the dashboard, leaves every document of the vault as it
    was: [Needs_Action], [Done], the artifacts and [Dashboard.md]. *)
Theorem dry_run_of_the_whole_run e v :
  dry e →
  same_documents v (update_dashboard e v).2 ∧
  same_documents v (scan_and_process glob e v).2 ∧
  same_documents v (main glob e v).2.
Proof.
  intros He. split_and!.
  - by apply keeps_dry_update_dashboard.
  - by apply keeps_dry_scan_and_process.
  - assert (Hk : keeps dry same_documents (main glob)); [|by apply Hk].
    pose proof (keeps_mkdir dry) as Hm.
    unfold main, ensure_folders_exist.
    apply docs_bind; [by apply docs_for_each|intros _].
    apply docs_bind; [apply keeps_dry_update_dashboard|intros _].
    apply docs_bind; [apply docs_ask|intros e'].
    apply docs_bind; [apply keeps_dry_scans|intros _].
    apply keeps_dry_update_dashboard.
Qed.

End RunProperties.

Lemma glob_exact_lists : glob_lists glob_exact.
Proof.
  intros names pattern. eexists. split; [done|]. split.
  - intros x [_ H]%list_elem_of_filter. done.
  - apply NoDup_filter.
Qed.





Lemma idle_scan_witness :
  Console.scan_and_process glob_exact Console.accepting (example_env false)
    vault_idle
  = (Ok tt,
     set_ticks 1 (set_dirs (all_folders ∪ dirs vault_idle) vault_idle)).
Proof.
  apply (idle_scan glob_exact Console.accepting (example_env false) vault_idle).
  reflexivity.
Defined.

Lemma run_never_raises_witness :
  let e := example_env false in
  let v := vault_with task_A scenario_A in
  (∀ task_file,
     ∃ v', Console.process_task_file glob_exact Console.accepting task_file e v
           = (Ok tt, v')) ∧
  (∃ v', Console.update_dashboard Console.accepting e v = (Ok tt, v')) ∧
  (∃ v', Console.scan_and_process glob_exact Console.accepting e v
         = (Ok tt, v')).
Proof.
  apply (run_never_raises glob_exact Console.accepting (example_env false)
           (vault_with task_A scenario_A)).
  intros l. reflexivity.
Defined.

Lemma dry_run_of_the_whole_run_witness :
  let v := vault_with task_A scenario_A in
  same_documents v (Orchestrator.update_dashboard (example_env true) v).2 ∧
  same_documents v
    (Orchestrator.scan_and_process glob_exact (example_env true) v).2 ∧
  same_documents v (Run.main glob_exact (example_env true) v).2.
Proof.
  apply (dry_run_of_the_whole_run glob_exact (example_env true)
           (vault_with task_A scenario_A)).
  reflexivity.
Defined.

(* ===================================================================== *)
(** * What the classifier returns *)
(* ===================================================================== *)

Lemma Matches_groupless r st st' :
  Matches r st st' → groupless r = true → caps st' = caps st.
Proof.
  induction 1 as [| |r1 r2 st st1 st2 _ IH1 _ IH2| | |
                 |g r st st1 st2 _ IH1 _ IH2| | |]; simpl; try done.
  - intros [H1 H2]%andb_true_iff. rewrite IH2, IH1; done.
  - intros [H1 H2]%andb_true_iff. auto.
  - intros [H1 H2]%andb_true_iff. auto.
  - intros Hg. rewrite IH2, IH1; done.
Qed.

Lemma Matches_Seq r1 r2 st st' :
  Matches (Seq r1 r2) st st' → ∃ st1, Matches r1 st st1 ∧ Matches r2 st1 st'.
Proof. inversion 1; subst; eauto. Qed.

Lemma Matches_Alt r1 r2 st st' :
  Matches (Alt r1 r2) st st' → Matches r1 st st' ∨ Matches r2 st st'.
Proof. inversion 1; subst; eauto. Qed.

Lemma Matches_Group i r st st' :
  Matches (Group i r) st st' →
  ∃ st1, Matches r st st1 ∧ st' = set_cap i st st1.
Proof. inversion 1; subst; eauto. Qed.

(** One or more characters of a class. *)
Lemma Matches_Plus_Chr p st st' :
  Matches (Plus (Chr p)) st st' →
  ∃ c w, rest st = (c :: w) ++ rest st' ∧ p c = true ∧
         Forall (fun c => p c = true) w ∧ caps st' = caps st.
Proof.
  intros H. pose proof (Matches_groupless _ _ _ H eq_refl) as Hc.
  apply Matches_Seq in H as (st1 & H1 & H2).
  apply Matches_Chr in H1 as (c & E1 & Hp).
  apply Matches_Star_Chr in H2 as (w & E2 & Hw).
  exists c, w. split_and!; try done. by rewrite E1, E2.
Qed.

(** A group that captures one or more characters of a class, at the end
    of a pattern. *)
Lemma Matches_Group_Plus i p st st' :
  Matches (Group i (Plus (Chr p))) st st' →
  ∃ c w, caps st' = (i, c :: w) :: caps st ∧ p c = true ∧
         Forall (fun c => p c = true) w.
Proof.
  intros (st1 & H & ->)%Matches_Group.
  apply Matches_Plus_Chr in H as (c & w & E & Hc & Hw & Hcaps).
  exists c, w. simpl. rewrite (consumed_app _ _ _ E), Hcaps. done.
Qed.

Lemma match_at_Matches r before ahead m :
  match_at r before ahead = Some m →
  ∃ st', Matches r (MState before ahead []) st' ∧
         m = RMatch (consumed (MState before ahead []) st') (caps st') (rest st').
Proof.
  unfold match_at. destruct (run r Some _) as [st'|] eqn:E; [|done].
  intros [= <-]. apply run_sound in E as (st1 & HM & [= ->]). eauto.
Qed.

Lemma search_from_Matches r m : ∀ ahead before,
  search_from r before ahead = Some m →
  ∃ b a, match_at r b a = Some m.
Proof.
  induction ahead as [|c ahead IH]; intros before; simpl;
    destruct (match_at r before _) as [m'|] eqn:E; try done.
  - intros [= <-]. eauto.
  - intros [= <-]. eauto.
  - intros H. by apply IH in H.
Qed.

Lemma search_Matches r s m :
  search r s = Some m → ∃ b a, match_at r b a = Some m.
Proof. apply search_from_Matches. Qed.

(** Group 1 of the invoice pattern. *)
Lemma INVOICE_group before ahead m :
  match_at INVOICE before ahead = Some m →
  ∃ c w, group 1 m = Some (c :: w) ∧
         Forall (fun c => invoice_char c = true) (c :: w).
Proof.
  intros (st' & H & ->)%match_at_Matches. unfold INVOICE in H.
  apply Matches_Seq in H as (st1 & _ & H).
  apply Matches_Seq in H as (st2 & _ & H).
  apply Matches_Seq in H as (st3 & _ & H).
  apply Matches_Seq in H as (st4 & _ & H).
  apply Matches_Group_Plus in H as (c & w & E & Hc & Hw).
  exists c, w. unfold group. simpl. rewrite E. simpl. split; [done|].
  by constructor.
Qed.

Lemma dot_no_newline w :
  Forall (fun c => negb (Ascii.eqb c newline) = true) w → newline ∉ w.
Proof.
  intros H Hin. rewrite Forall_forall in H. specialize (H _ Hin).
  by rewrite Ascii.eqb_refl in H.
Qed.

Lemma after_label_group label i st st' :
  Matches (after_label label i) st st' →
  ∃ c w, caps st' = (i, c :: w) :: caps st ∧ newline ∉ c :: w.
Proof.
  unfold after_label. intros H.
  apply Matches_Seq in H as (st1 & H1 & H).
  apply Matches_Seq in H as (st2 & H2 & H).
  apply Matches_Seq in H as (st3 & H3 & H).
  apply Matches_Seq in H as (st4 & H4 & H).
  apply Matches_Group_Plus in H as (c & w & E & Hc & Hw).
  exists c, w. split.
  - rewrite E. f_equal.
    rewrite (Matches_groupless _ _ _ H4 eq_refl).
    rewrite (Matches_groupless _ _ _ H3 eq_refl).
    rewrite (Matches_groupless _ _ _ H2 eq_refl).
    apply (Matches_groupless _ _ _ H1).
    unfold lit_ci. clear. induction (T label) as [|c [|d s] IH]; simpl; auto.
  - apply dot_no_newline. by constructor.
Qed.

(** [vendor.group(1) or vendor.group(2)] is a string. *)
Lemma VENDOR_group before ahead m :
  match_at VENDOR before ahead = Some m →
  ∃ c w, group_or 1 2 m = VStr (c :: w) ∧ newline ∉ c :: w.
Proof.
  intros (st' & H & ->)%match_at_Matches. unfold VENDOR in H.
  apply Matches_Alt in H as [H|H];
    apply after_label_group in H as (c & w & E & Hn);
    exists c, w; unfold group_or, group; simpl; rewrite E; simpl; done.
Qed.

(** Every address [findall] returns holds an [@]. *)
Lemma EMAIL_ADDRESS_whole before ahead m :
  match_at EMAIL_ADDRESS before ahead = Some m → "@"%char ∈ whole m.
Proof.
  intros (st' & H & ->)%match_at_Matches. unfold EMAIL_ADDRESS in H.
  apply Matches_Seq in H as (st1 & H1 & H).
  apply Matches_Seq in H as (st2 & H2 & H3).
  apply Matches_rest in H1 as [w1 E1].
  apply Matches_Chr in H2 as (c & E2 & Hc%Ascii.eqb_eq).
  apply Matches_rest in H3 as [w3 E3]. subst c. simpl in *.
  assert (E : ahead = (w1 ++ "@"%char :: w3) ++ rest st')
    by (rewrite E1, E2, E3; by rewrite <- app_assoc).
  rewrite (consumed_app (w1 ++ "@"%char :: w3) (MState before ahead []) st' E).
  apply elem_of_app. right. by left.
Qed.

(** [analyze_intent] returns on every text, and what it returns is fixed
    by the intent: an email draft always needs approval, for the reply
    rule, at priority medium; a payment request needs approval, at
    priority high, exactly when it has an amount above the threshold; a
    data extraction and an unknown request carry no entity and never
    need approval.  The intents [payment_acknowledgment] and [general]
    are never returned. *)
Theorem analyze_intent_shape content :
  ∃ r, analyze_intent content = Some r ∧ shape_of_result r.
Proof.
  destruct (analyze_intent_returns content) as [r Hr]. exists r.
  split; [done|]. revert Hr. unfold analyze_intent, shape_of_result.
  destruct (search EMAIL_REPLY _) as [me|].
  { intros [= <-].
    destruct (map whole _); destruct (search SUBJECT _); simpl;
      rewrite ?lookup_insert_ne by done; done. }
  destruct (search PAYMENT _) as [mp|];
    [|destruct (search EXTRACTION _); by intros [= <-]].
  destruct (map (group_text 1) (findall AMOUNT content)) as [|a l]; simpl.
  - intros [= <-].
    destruct (search INVOICE _); destruct (search VENDOR _); simpl;
      rewrite ?lookup_insert_ne by done; done.
  - destruct (py_float a) as [x|]; simpl; [|done]. intros [= <-].
    destruct (THRESHOLD <? x)%N eqn:Ex;
      destruct (search INVOICE _); destruct (search VENDOR _); simpl;
      rewrite ?lookup_insert_ne by done; rewrite lookup_insert_eq, Ex; done.
Qed.

Ltac entities_ok :=
  repeat match goal with
         | |- map_Forall _ (<[_ := _]> _) => apply map_Forall_insert_2
         | |- map_Forall _ ∅ => apply map_Forall_empty
         end.

Lemma analyze_intent_typed content r :
  analyze_intent content = Some r →
  map_Forall entity_of_classifier (entities r).
Proof.
  unfold analyze_intent.
  assert (Hsender : ∀ e l, map whole (findall EMAIL_ADDRESS content) = e :: l →
                           entity_of_classifier "sender" (VStr e)).
  { intros e l H. destruct (findall EMAIL_ADDRESS content) as [|m ms] eqn:E;
      [done|]. injection H as <- _.
    destruct (findall_match EMAIL_ADDRESS content m) as (b & a & Hm);
      [rewrite E; by left|].
    left. split; [done|]. by eapply EMAIL_ADDRESS_whole. }
  assert (Hinvoice : ∀ m, search INVOICE content = Some m →
            entity_of_classifier "invoice_number" (VStr (group_text 1 m))).
  { intros m (b & a & Hm)%search_Matches.
    apply INVOICE_group in Hm as (c & w & Hg & Hw).
    unfold group_text. rewrite Hg. simpl. right. right. left. done. }
  assert (Hvendor : ∀ m, search VENDOR content = Some m →
            entity_of_classifier "vendor" (group_or 1 2 m)).
  { intros m (b & a & Hm)%search_Matches.
    apply VENDOR_group in Hm as (c & w & -> & Hw).
    simpl. right. right. right. done. }
  destruct (search EMAIL_REPLY _) as [me|].
  { intros [= <-].
    destruct (map whole _) as [|e l] eqn:Ee;
      destruct (search SUBJECT _) as [ms|]; simpl; entities_ok; eauto;
      by (right; left). }
  destruct (search PAYMENT _) as [mp|];
    [|destruct (search EXTRACTION _); intros [= <-]; apply map_Forall_empty].
  destruct (map (group_text 1) (findall AMOUNT content)) as [|a l]; simpl.
  - intros [= <-].
    destruct (search INVOICE _) eqn:Ei; destruct (search VENDOR _) eqn:Ev;
      simpl; entities_ok; eauto.
  - destruct (py_float a) as [x|]; simpl; [|done]. intros [= <-].
    destruct (THRESHOLD <? x)%N;
      destruct (search INVOICE _) eqn:Ei; destruct (search VENDOR _) eqn:Ev;
      simpl; entities_ok; eauto; done.
Qed.

(** On a text of Latin-1 characters, the entities [analyze_intent]
    returns are of the kinds the skills expect: the amount is a float;
    the sender, the invoice number and the vendor are strings, never
    [None]: a sender holds an [@], an invoice number is a non-empty run
    of ASCII letters, digits and hyphens, a vendor is non-empty and holds
    no newline; no other key is set. *)
Theorem analyze_intent_entities content :
  ∃ r, analyze_intent content = Some r ∧
       map_Forall entity_of_classifier (entities r).
Proof.
  destruct (analyze_intent_returns content) as [r Hr]. exists r.
  split; [done|]. by apply (analyze_intent_typed content).
Qed.

(* ===================================================================== *)
(** * The data extractor *)
(* ===================================================================== *)

Section Extractor.
Import Orchestrator.

Lemma remove_commas_app a b :
  remove_commas (a ++ b) = remove_commas a ++ remove_commas b.
Proof. unfold remove_commas. apply filter_app. Qed.

Lemma remove_commas_digits w : all_digits w → remove_commas w = w.
Proof.
  induction 1 as [|c w Hc _ IH]; [done|].
  unfold remove_commas, text in *. rewrite filter_cons_True; [by rewrite IH|].
  intros ->. by vm_compute in Hc.
Qed.

(** The groups of three digits set off by commas. *)
Lemma Matches_comma_groups g st st' :
  Matches (Star g (Seq (chr ",") (Seq digit (Seq digit digit)))) st st' →
  ∃ w, rest st = w ++ rest st' ∧ all_digits (remove_commas w).
Proof.
  intros H.
  remember (Star g (Seq (chr ",") (Seq digit (Seq digit digit)))) as r eqn:Er.
  induction H as [| | | | |g' r' st|g' r' st st1 st2 H1 _ H2 IH2| | |];
    try discriminate.
  - exists []. split; [done|constructor].
  - injection Er as -> ->.
    destruct (IH2 eq_refl) as (w & E2 & Hw).
    apply Matches_Seq in H1 as (sa & Ha & H1).
    apply Matches_Seq in H1 as (sb & Hb & H1).
    apply Matches_Seq in H1 as (sc & Hc & Hd).
    apply Matches_Chr in Ha as (a & Ea & Ha%Ascii.eqb_eq). subst a.
    apply Matches_Chr in Hb as (b & Eb & Hb).
    apply Matches_Chr in Hc as (c & Ec & Hc).
    apply Matches_Chr in Hd as (d & Ed & Hd).
    exists (","%char :: b :: c :: d :: w). split.
    + by rewrite Ea, Eb, Ec, Ed, E2.
    + change (","%char :: b :: c :: d :: w) with ([","%char] ++ [b; c; d] ++ w).
      rewrite !remove_commas_app.
      rewrite (remove_commas_digits [b; c; d]) by (by repeat constructor).
      replace (remove_commas [","%char]) with (@nil ascii) by (by vm_compute).
      simpl. by repeat constructor.
Qed.

(** Without its commas, what group 1 of the grouped-amount pattern holds
    is a numeral [float] reads. *)
Lemma Matches_GROUPED_AMOUNT st st' :
  Matches GROUPED_AMOUNT st st' →
  ∃ w, assoc 1 (caps st') = Some w ∧ amount_numeral (remove_commas w).
Proof.
  unfold GROUPED_AMOUNT. intros H.
  apply Matches_Seq in H as (s0 & _ & H).
  apply Matches_Group in H as (s9 & H & ->).
  apply Matches_Seq in H as (s3 & Hhead & H).
  apply Matches_Seq in H as (s4 & Hgroups & Hfrac).
  apply Matches_comma_groups in Hgroups as (wg & Eg & Hg).
  assert (Hh : ∃ h, rest s0 = h ++ rest s3 ∧ h ≠ [] ∧ all_digits h).
  { apply Matches_Seq in Hhead as (s1 & H1 & Hhead).
    apply Matches_Chr in H1 as (d1 & E1 & Hd1).
    apply Matches_Alt in Hhead as [Hhead|Hhead].
    - apply Matches_Seq in Hhead as (s2 & H2 & Hhead).
      apply Matches_Chr in H2 as (d2 & E2 & Hd2).
      apply Matches_Alt in Hhead as [Hhead|Hhead].
      + apply Matches_Chr in Hhead as (d3 & E3 & Hd3).
        exists [d1; d2; d3]. split_and!; [by rewrite E1, E2, E3|done|].
        by repeat constructor.
      + inversion Hhead; subst.
        exists [d1; d2]. split_and!; [by rewrite E1, E2|done|].
        by repeat constructor.
    - inversion Hhead; subst.
      exists [d1]. split_and!; [by rewrite E1|done|]. by repeat constructor. }
  destruct Hh as (h & Eh & Hne & Hh).
  assert (Hf : ∃ f, rest s4 = f ++ rest s9 ∧
                (f = [] ∨ ∃ d1 d2, is_digit d1 = true ∧ is_digit d2 = true ∧
                                   f = "."%char :: [d1; d2])).
  { apply Matches_Alt in Hfrac as [Hfrac|Hfrac].
    - apply Matches_Seq in Hfrac as (s5 & Hp & Hfrac).
      apply Matches_Seq in Hfrac as (s6 & H1 & H2).
      apply Matches_Chr in Hp as (p & Ep & Hp%Ascii.eqb_eq). subst p.
      apply Matches_Chr in H1 as (d1 & E1 & Hd1).
      apply Matches_Chr in H2 as (d2 & E2 & Hd2).
      exists ("."%char :: [d1; d2]). split; [by rewrite Ep, E1, E2|].
      right. by exists d1, d2.
    - inversion Hfrac; subst. exists []. split; [done|by left]. }
  destruct Hf as (f & Ef & Hf).
  assert (E : rest s0 = (h ++ wg ++ f) ++ rest s9).
  { rewrite Eh, Eg, Ef. by rewrite <- !app_assoc. }
  exists (h ++ wg ++ f). simpl. rewrite (consumed_app _ _ _ E).
  split; [done|].
  rewrite !remove_commas_app, (remove_commas_digits h) by done.
  exists (h ++ remove_commas wg). split_and!.
  - by destruct h.
  - by apply Forall_app.
  - destruct Hf as [->|(d1 & d2 & H1 & H2 & ->)].
    + left. by rewrite app_nil_r.
    + right. exists d1, d2. split_and!; [done|done|].
      rewrite <- app_assoc. do 2 f_equal.
      change ("."%char :: [d1; d2]) with (["."%char] ++ [d1; d2]).
      rewrite remove_commas_app.
      rewrite (remove_commas_digits [d1; d2]) by (by repeat constructor).
      by replace (remove_commas ["."%char]) with ["."%char] by (by vm_compute).
Qed.

(** [float(a.replace(',', ''))] is defined on every amount found. *)
Lemma grouped_amounts_are_numerals content :
  Forall (fun a => ∃ x, py_float (remove_commas a) = Some x)
    (map (group_text 1) (findall GROUPED_AMOUNT content)).
Proof.
  apply Forall_forall. intros a Ha.
  apply list_elem_of_fmap in Ha as (m & -> & Hm).
  apply findall_match in Hm as (b & ah & Hm).
  apply match_at_Matches in Hm as (st' & HM & ->).
  apply Matches_GROUPED_AMOUNT in HM as (w & Hw & Hn).
  unfold group_text, group. simpl. rewrite Hw. simpl.
  by apply py_float_numeral.
Qed.

Lemma clean_amounts_total amounts :
  Forall (fun a => ∃ x, py_float (remove_commas a) = Some x) amounts →
  ∃ l, clean_amounts amounts = Some l ∧ Forall kept_amount l.
Proof.
  induction 1 as [|a amounts [x Hx] _ (l & Hl & Hk)]; simpl.
  { exists []. split; [done|constructor]. }
  rewrite Hx, Hl. simpl.
  destruct (N.ltb_spec 0 x); destruct (N.ltb_spec x 10000000); simpl;
    eexists; split; try done.
  constructor; [|done]. unfold kept_amount. lia.
Qed.

End Extractor.

Section ExtractorRuns.
Import Orchestrator.

Lemma extract_data_run content e v :
  extraction_log_writable e v →
  ∃ cleaned data v',
    clean_amounts (map (group_text 1) (findall GROUPED_AMOUNT content))
    = Some cleaned ∧
    Forall kept_amount cleaned ∧
    extract_data_from_content content e v = (Ok data, v') ∧
    x_amounts data = nonempty cleaned ∧
    x_email data = head (map whole (findall EMAIL_ADDRESS content)) ∧
    x_invoice_number data = (group_text 1 <$> search INVOICE content) ∧
    needs_action v' = needs_action v ∧ done v' = done v ∧ dirs v' = dirs v.
Proof.
  intros Hw.
  destruct (clean_amounts_total _ (grouped_amounts_are_numerals content))
    as (cleaned & Hc & Hk).
  exists cleaned.
  unfold extract_data_from_content, now, modify, ask, get, mbind, M_bind, bind,
    mret, M_ret, ret, raise.
  rewrite Hc. simpl.
  destruct (dry_run (config e)) eqn:Hd; simpl.
  { eexists _, _. split_and!; done. }
  destruct (Hw Hd) as [Hlogs Hwrite]. rewrite Hwrite.
  rewrite bool_decide_eq_false_2 by (by intros H; apply H).
  simpl. eexists _, _. split_and!; done.
Qed.

(** On a text of Latin-1 characters, the data extractor returns
    whenever its log can be written: [float] is defined on every amount
    the pattern finds once the commas are removed.  The amounts it
    returns are the ones strictly between 0 and 100000, and the key is
    left out when there is none; an email address returned holds an [@],
    and an invoice number is a non-empty run of ASCII letters, digits and
    hyphens. *)
Theorem extraction_returns content e v :
  extraction_log_writable e v →
  ∃ data v', extract_data_from_content content e v = (Ok data, v') ∧
    (∀ l, x_amounts data = Some l → l ≠ [] ∧ Forall kept_amount l) ∧
    (∀ s, x_email data = Some s → "@"%char ∈ s) ∧
    (∀ s, x_invoice_number data = Some s →
          s ≠ [] ∧ Forall (fun c => invoice_char c = true) s).
Proof.
  intros Hw.
  destruct (extract_data_run content e v Hw)
    as (cleaned & data & v' & Hc & Hk & Hrun & Ha & He & Hi & _).
  exists data, v'. split_and!; [done|..].
  - intros l. rewrite Ha. destruct cleaned; [done|]. by intros [= <-].
  - intros s. rewrite He.
    destruct (findall EMAIL_ADDRESS content) as [|m ms] eqn:E; [done|].
    simpl. intros [= <-].
    destruct (findall_match EMAIL_ADDRESS content m) as (b & a & Hm);
      [rewrite E; by left|].
    by eapply EMAIL_ADDRESS_whole.
  - intros s. rewrite Hi.
    destruct (search INVOICE content) as [m|] eqn:E; [|done].
    simpl. intros [= <-].
    apply search_Matches in E as (b & a & Hm).
    apply INVOICE_group in Hm as (c & w & Hg & Hcw).
    unfold group_text. rewrite Hg. done.
Qed.

End ExtractorRuns.

Lemma extraction_returns_witness :
  ∃ data v',
    Orchestrator.extract_data_from_content two_amounts (example_env true)
      vault_idle = (Ok data, v') ∧
    (∀ l, x_amounts data = Some l → l ≠ [] ∧ Forall kept_amount l) ∧
    (∀ s, x_email data = Some s → "@"%char ∈ s) ∧
    (∀ s, x_invoice_number data = Some s →
          s ≠ [] ∧ Forall (fun c => invoice_char c = true) s).
Proof.
  apply (extraction_returns two_amounts (example_env true) vault_idle).
  intros H. discriminate H.
Defined.

(* ===================================================================== *)
(** * A task processed without a fault *)
(* ===================================================================== *)

Lemma files_kept_refl v : files_kept v v.
Proof. by split_and!. Qed.

Lemma files_kept_trans v1 v2 v3 :
  files_kept v1 v2 → files_kept v2 v3 → files_kept v1 v3.
Proof.
  intros (N1 & D1 & F1) (N2 & D2 & F2).
  split_and!; [congruence|congruence|by etrans].
Qed.

Section FilesKept.
Import Orchestrator.

Ltac kept_step :=
  first
    [ keeps_known
    | match goal with
      | |- keeps _ _ (for_each _ _) =>
          apply (keeps_for_each always files_kept files_kept_refl
                   files_kept_trans);
          intros ?
      | |- keeps _ _ (modify _) =>
          apply keeps_modify; intros ?; by split_and!
      end
    | apply (keeps_ret always files_kept files_kept_refl)
    | apply (keeps_raise always files_kept files_kept_refl)
    | apply (keeps_ask always files_kept files_kept_refl)
    | apply (keeps_get always files_kept files_kept_refl)
    | apply (keeps_bind always files_kept files_kept_trans); [|intros ?]
    | apply (keeps_try always files_kept files_kept_trans); [|intros ?]
    | match goal with
      | |- keeps _ _ (match ?x with _ => _ end) => destruct x
      end ].

Ltac kept_all := repeat kept_step.

Lemma kept_mkdir f : keeps always files_kept (mkdir f).
Proof. intros e v _. split_and!; [done|done|apply union_subseteq_r]. Qed.

Lemma kept_now : keeps always files_kept now.
Proof. intros e v _. by split_and!. Qed.

Lemma kept_log_error message : keeps always files_kept (log_error message).
Proof.
  pose proof kept_mkdir. pose proof kept_now. unfold log_error. kept_all.
Qed.

Lemma kept_log_activity action file st details :
  keeps always files_kept (log_activity action file st details).
Proof.
  pose proof kept_mkdir. pose proof kept_now. pose proof kept_log_error.
  unfold log_activity. kept_all.
Qed.

Lemma kept_write_file file_path content :
  keeps always files_kept (write_file file_path content).
Proof. pose proof kept_mkdir. unfold write_file. kept_all. Qed.

Lemma kept_draft_email_response original_email analysis :
  keeps always files_kept (draft_email_response original_email analysis).
Proof.
  pose proof kept_now. pose proof kept_write_file.
  unfold draft_email_response, as_number. kept_all.
Qed.

Lemma kept_create_task_plan task_name description analysis :
  keeps always files_kept (create_task_plan task_name description analysis).
Proof.
  pose proof kept_now. pose proof kept_write_file.
  unfold create_task_plan. kept_all.
Qed.

Lemma kept_extract_data_from_content content :
  keeps always files_kept (extract_data_from_content content).
Proof.
  pose proof kept_now. unfold extract_data_from_content. kept_all.
Qed.

Lemma kept_route task_name task_content source_content analysis_content
    analysis :
  keeps always files_kept
    (route task_name task_content source_content analysis_content analysis).
Proof.
  pose proof kept_draft_email_response. pose proof kept_create_task_plan.
  pose proof kept_extract_data_from_content.
  unfold route, format_2f. kept_all.
Qed.

(** A computation that returns, with what it leaves of the files. *)
Lemma returns_kept {A} (m : M A) e v :
  returns m → keeps always files_kept m →
  ∃ a v', m e v = (Ok a, v') ∧ files_kept v v'.
Proof.
  intros Hr Hk. destruct (Hr e v) as [a Ha]. specialize (Hk e v I).
  destruct (m e v) as [r v']. simpl in *. subst r. by exists a, v'.
Qed.

(** [log_activity] returns and leaves the [Logs] folder in place. *)
Lemma log_activity_run action file st details e v :
  ∃ v', log_activity action file st details e v = (Ok tt, v') ∧
        files_kept v v' ∧ LOGS_FOLDER ∈ dirs v'.
Proof.
  destruct (returns_kept (log_activity action file st details) e v)
    as ([] & v' & Hrun & Hk);
    [apply returns_log_activity|apply kept_log_activity|].
  exists v'. split_and!; [done|done|].
  pose proof (steady_log_activity action file st details e v I) as Hs.
  rewrite Hrun in Hs. simpl in Hs.
  revert Hrun. unfold log_activity at 1.
  unfold mbind at 1, M_bind at 1, bind at 1. unfold mkdir at 1, modify at 1.
  set (rest := now ≫= _). intros Hrun.
  assert (Hrest : keeps always files_kept rest).
  { pose proof kept_now. pose proof kept_log_error. subst rest. kept_all. }
  specialize (Hrest e (set_dirs ({[LOGS_FOLDER]} ∪ dirs v) v) I).
  rewrite Hrun in Hrest. destruct Hrest as (_ & _ & Hd). simpl in Hd.
  apply Hd. apply elem_of_union. left. by apply elem_of_singleton.
Qed.

(** The drafter returns when the sender is a string and the amount, if
    any, a float. *)
Lemma draft_email_response_run original_email analysis e v :
  (∃ s, from original_email = VStr s) →
  (∀ x, entities analysis !! "amount" = Some x → ∃ h, x = VFloat h) →
  ∃ st v', draft_email_response original_email analysis e v = (Ok st, v') ∧
           files_kept v v'.
Proof.
  intros [s Hs] Ha.
  pose proof (kept_draft_email_response original_email analysis e v I) as Hk.
  assert (H : ∃ st, (draft_email_response original_email analysis e v).1 = Ok st).
  { unfold draft_email_response. rewrite Hs.
    assert (Hkind : returns
      (match intent analysis with
       | payment_acknowledgment =>
           let invoice :=
             default (VStr (T "UNKNOWN")) (entities analysis !! "invoice_number") in
           amount ← as_number (default (VFloat 0) (entities analysis !! "amount"));
           mret (invoice_acknowledgment invoice amount)
       | _ => mret generic_response
       end)).
    { destruct (intent analysis); try apply returns_ret.
      destruct (entities analysis !! "amount") as [x|] eqn:E; simpl.
      - destruct (Ha x eq_refl) as [h ->]. simpl.
        apply returns_bind; [apply returns_ret|intros ?; apply returns_ret].
      - apply returns_bind; [apply returns_ret|intros ?; apply returns_ret]. }
    apply returns_bind; [apply returns_now|intros created].
    apply returns_bind; [exact Hkind|intros kind].
    apply returns_bind; [apply returns_ret|intros to].
    apply returns_bind; [apply returns_now|intros t].
    apply returns_write_file. }
  destruct H as [st Hst].
  destruct (draft_email_response original_email analysis e v) as [r v'].
  simpl in *. subst r. by exists st, v'.
Qed.

Lemma create_task_plan_run task_name description analysis e v :
  ∃ st v', create_task_plan task_name description analysis e v = (Ok st, v') ∧
           files_kept v v'.
Proof.
  apply returns_kept; [|apply kept_create_task_plan].
  unfold create_task_plan. returns_all.
Qed.

(** A string under a key of the classifier's entities, or the default. *)
Lemma entity_is_string content a key dflt :
  analyze_intent content = Some a → key ≠ "amount" →
  ∃ s, entity a key (VStr dflt) = VStr s.
Proof.
  intros Ha Hk. unfold entity.
  destruct (entities a !! key) as [x|] eqn:E; simpl; [|eauto].
  pose proof (analyze_intent_typed content a Ha key x E) as Ht.
  destruct x; simpl in Ht; [done|eauto|done].
Qed.

Lemma amount_is_float content a x :
  analyze_intent content = Some a →
  entities a !! "amount" = Some x → ∃ h, x = VFloat h.
Proof.
  intros Ha E.
  pose proof (analyze_intent_typed content a Ha "amount" x E) as Ht.
  destruct x; simpl in Ht; [done| |eauto].
  destruct Ht as [[? _]|[?|[[? _]|[? _]]]]; done.
Qed.

Lemma route_run content a task_name task_content source_content
    analysis_content e v :
  analyze_intent content = Some a →
  (intent a = data_extraction → extraction_log_writable e v) →
  ∃ v', route task_name task_content source_content analysis_content a e v
        = (Ok tt, v') ∧ files_kept v v'.
Proof.
  intros Ha Hx.
  assert (Hamount : ∀ i x, entities (with_intent i a) !! "amount" = Some x →
                           ∃ h, x = VFloat h).
  { intros i x. simpl. by apply (amount_is_float content). }
  unfold route. destruct (intent a) eqn:Hi.
  - (* unknown *)
    destruct (create_task_plan_run [Txt task_name]
                [Lit "Process task: "; Txt task_name] a e v)
      as (st & v' & Hrun & Hk).
    exists v'. unfold mbind, M_bind, bind. rewrite Hrun. done.
  - (* email_draft *)
    match goal with
    | |- context [draft_email_response ?em ?an] =>
        destruct (draft_email_response_run em an e v) as (st & v' & Hrun & Hk)
    end.
    { simpl. by apply (entity_is_string content). }
    { apply Hamount. }
    exists v'. unfold mbind, M_bind, bind. rewrite Hrun. done.
  - (* payment_request *)
    unfold mbind, M_bind, bind, format_2f.
    assert (Hf : ∃ h, entity a "amount" (VFloat 0) = VFloat h).
    { unfold entity. destruct (entities a !! "amount") as [x|] eqn:E; simpl.
      - by apply (amount_is_float content a).
      - eauto. }
    destruct Hf as [h ->]. simpl.
    match goal with
    | |- context [create_task_plan ?n ?d ?an e v] =>
        destruct (create_task_plan_run n d an e v) as (st & v1 & Hrun & Hk)
    end.
    rewrite Hrun.
    match goal with
    | |- context [draft_email_response ?em ?an e v1] =>
        destruct (draft_email_response_run em an e v1)
          as (st' & v' & Hrun' & Hk')
    end.
    { simpl. by apply (entity_is_string content). }
    { apply Hamount. }
    exists v'. rewrite Hrun'. split; [done|]. by eapply files_kept_trans.
  - (* data_extraction *)
    destruct (extract_data_run (text_or source_content analysis_content) e v
                (Hx eq_refl))
      as (cl & data & v1 & _ & _ & Hrun & _ & _ & _ & N1 & D1 & F1).
    unfold mbind, M_bind, bind. rewrite Hrun.
    match goal with
    | |- context [create_task_plan ?n ?d ?an e v1] =>
        destruct (create_task_plan_run n d an e v1) as (st & v' & Hrun' & Hk)
    end.
    exists v'. rewrite Hrun'. split; [done|].
    eapply files_kept_trans; [|exact Hk]. split_and!; [done|done|by rewrite F1].
  - (* payment_acknowledgment *)
    destruct (create_task_plan_run [Txt task_name]
                [Lit "Process task: "; Txt task_name] a e v)
      as (st & v' & Hrun & Hk).
    exists v'. unfold mbind, M_bind, bind. rewrite Hrun. done.
  - (* general *)
    destruct (create_task_plan_run [Txt task_name]
                [Lit "Process task: "; Txt task_name] a e v)
      as (st & v' & Hrun & Hk).
    exists v'. unfold mbind, M_bind, bind. rewrite Hrun. done.
Qed.

(** On what [analyze_intent] returns, the routing step raises only when
    the extraction log cannot be written: the drafter and the planner
    get a float for the amount and strings for the sender and the
    vendor, and their own failed writes are returned, not raised. *)
Theorem route_returns_on_analysis content :
  ∃ a, analyze_intent content = Some a ∧
    ∀ task_name task_content source_content analysis_content e v,
      (intent a = data_extraction → extraction_log_writable e v) →
      ∃ v', route task_name task_content source_content analysis_content a e v
            = (Ok tt, v') ∧ files_kept v v'.
Proof.
  destruct (analyze_intent_returns content) as [a Ha]. exists a.
  split; [done|]. intros task_name task_content source_content
    analysis_content e v Hx.
  by apply (route_run content).
Qed.

End FilesKept.


Section Archive.
Import Orchestrator.

Variable glob : list text → text → option (list text).
Hypothesis glob_ok : glob_lists glob.

Lemma remove_file_names n l :
  (remove_file n l).*1 = filter (fun x => x ≠ n) l.*1.
Proof.
  unfold remove_file, text. induction l as [|[x c] l IH]; [done|].
  rewrite filter_cons, fmap_cons, filter_cons. cbn [fst].
  repeat case_decide; try done. by rewrite fmap_cons, IH.
Qed.

Lemma file_content_names n : ∀ l,
  n ∈ l.*1 → ∃ c, file_content n l = Some c.
Proof.
  induction l as [|[x c] l IH]; simpl; [by intros ?%elem_of_nil|].
  unfold text_eqb. case_bool_decide as E; [eauto|].
  intros [?|H]%elem_of_cons; [done|]. by apply IH.
Qed.

Lemma read_file_run name content e v :
  file_content name (needs_action v) = Some content →
  read_fails e (NEEDS_ACTION_FOLDER, name) = false →
  read_file name e v = (Ok (inr content), v).
Proof.
  intros Hc Hr.
  unfold read_file, ask, get, mbind, M_bind, bind, mret, M_ret, ret.
  by rewrite Hc, Hr.
Qed.

Lemma read_file_state name e v : ∃ r, read_file name e v = (Ok r, v).
Proof.
  unfold read_file, ask, get, mbind, M_bind, bind, mret, M_ret, ret.
  destruct (file_content _ _); [|eauto]. destruct (read_fails _ _); eauto.
Qed.

Lemma read_source_run source_file task_name e v :
  ∃ source_content,
    read_source glob source_file task_name e v = (Ok source_content, v).
Proof.
  unfold read_source. destruct source_file as [[|c s]|]; [by eexists| |by eexists].
  unfold needs_action_glob, get, mbind, M_bind, bind, mret, M_ret, ret.
  destruct (glob_ok (needs_action v).*1 task_name) as (l & -> & _).
  destruct l as [|pf l]; [by eexists|].
  destruct (read_file_state pf e v) as [r ->].
  destruct r; by eexists.
Qed.

Lemma shutil_move_run name content e v :
  file_content name (needs_action v) = Some content →
  move_fails e (NEEDS_ACTION_FOLDER, name) = false →
  DONE_FOLDER ∈ dirs v →
  shutil_move name name e v
  = (Ok tt,
     set_done (<[name := content]> (done v))
       (set_needs_action (remove_file name (needs_action v)) v)).
Proof.
  intros Hc Hm Hd.
  unfold shutil_move, ask, get, modify, mbind, M_bind, bind.
  rewrite Hc, Hm. by rewrite bool_decide_eq_true_2.
Qed.

(** The files [glob] listed are moved one after the other; the task
    file, already in [Done], stays there. *)
Lemma move_listed_files task_file content e : ∀ l v,
  (∀ p, move_fails e p = false) →
  NoDup l → l ⊆ (needs_action v).*1 →
  task_file ∉ (needs_action v).*1 →
  DONE_FOLDER ∈ dirs v →
  done v !! task_file = Some content →
  ∃ v',
    for_each l
      (fun pf => if bool_decide (pf ≠ task_file) then shutil_move pf pf
                 else mret tt) e v = (Ok tt, v') ∧
    done v' !! task_file = Some content ∧
    (task_file ∉ (needs_action v').*1) ∧
    dirs v' = dirs v.
Proof.
  intros l v Hm. revert v.
  induction l as [|pf l IH]; intros v Hnd Hl Ht Hd Hdone; simpl.
  { by exists v. }
  apply NoDup_cons in Hnd as [Hpf Hnd].
  assert (Hin : pf ∈ (needs_action v).*1) by (apply Hl; by left).
  destruct (file_content_names pf _ Hin) as [c Hc].
  assert (Hne : pf ≠ task_file) by (by intros ->).
  rewrite bool_decide_eq_true_2 by done.
  unfold bind. rewrite (shutil_move_run pf c e v Hc (Hm _) Hd).
  destruct (IH (set_done (<[pf := c]> (done v))
                  (set_needs_action (remove_file pf (needs_action v)) v)))
    as (v' & Hrun & H1 & H2 & H3); simpl.
  - done.
  - intros x Hx. rewrite remove_file_names. apply list_elem_of_filter.
    split; [by intros ->|]. apply Hl. by right.
  - rewrite remove_file_names. intros [_ H]%list_elem_of_filter. done.
  - done.
  - by rewrite lookup_insert_ne.
  - by exists v'.
Qed.

Lemma archive_run task_file source_file task_name content e v :
  dry_run (config e) = false →
  (∀ p, move_fails e p = false) →
  NoDup (needs_action v).*1 →
  file_content task_file (needs_action v) = Some content →
  DONE_FOLDER ∈ dirs v →
  ∃ v', archive glob task_file source_file task_name e v = (Ok tt, v') ∧
        done v' !! task_file = Some content ∧
        task_file ∉ (needs_action v').*1.
Proof.
  intros Hlive Hm Hnd Hc Hd.
  unfold archive, ask. unfold mbind at 1, M_bind at 1, bind at 1.
  rewrite Hlive.
  unfold mbind at 1, M_bind at 1, bind at 1.
  rewrite (shutil_move_run task_file content e v Hc (Hm _) Hd).
  set (v1 := set_done _ _).
  assert (Ht1 : task_file ∉ (needs_action v1).*1).
  { subst v1. simpl. rewrite remove_file_names.
    by intros [? _]%list_elem_of_filter. }
  assert (Hd1 : done v1 !! task_file = Some content).
  { subst v1. simpl. apply lookup_insert_eq. }
  assert (Hnd1 : NoDup (needs_action v1).*1).
  { subst v1. simpl. rewrite remove_file_names. by apply NoDup_filter. }
  assert (Hmoves : ∃ v2,
    (match source_file with
     | Some (_ :: _) =>
         possible_files ← needs_action_glob glob task_name;
         for_each possible_files (fun pf =>
           if bool_decide (pf ≠ task_file) then shutil_move pf pf else mret tt)
     | _ => mret tt
     end) e v1 = (Ok tt, v2) ∧
    done v2 !! task_file = Some content ∧
    task_file ∉ (needs_action v2).*1).
  { destruct source_file as [[|c s]|]; [by exists v1| |by exists v1].
    unfold needs_action_glob, get, mbind, M_bind, bind, mret, M_ret, ret.
    destruct (glob_ok (needs_action v1).*1 task_name) as (l & -> & Hl & Hn).
    destruct (move_listed_files task_file content e l v1)
      as (v2 & Hrun & H1 & H2 & _); try done; [by apply Hn|].
    by exists v2. }
  destruct Hmoves as (v2 & Hrun & H1 & H2).
  unfold mbind at 1, M_bind at 1, bind at 1. rewrite Hrun.
  destruct (log_activity_run task_archived (NEEDS_ACTION_FOLDER, task_file)
              moved_to_done (archived_details (DONE_FOLDER, task_file)) e v2)
    as (v' & Hlog & (N & D & _) & _).
  exists v'. rewrite Hlog, N, D. done.
Qed.

(** The [try] block of [process_task_file], step by step. *)
Lemma process_task_body_archives task_file content e v :
  lets_archive e task_file →
  NoDup (needs_action v).*1 →
  file_content task_file (needs_action v) = Some content →
  DONE_FOLDER ∈ dirs v →
  ∃ v', process_task_body glob task_file e v = (Ok tt, v') ∧
        done v' !! task_file = Some content ∧
        task_file ∉ (needs_action v').*1.
Proof.
  intros (Hlive & Hread & Hmove & Hwrite) Hnd Hc Hd.
  unfold process_task_body.
  unfold mbind at 1, M_bind at 1, bind at 1.
  rewrite (read_file_run task_file content e v Hc Hread).
  cbv zeta.
  match goal with
  | |- context [read_source glob ?sf ?tn] =>
      destruct (read_source_run sf tn e v) as [source_content Hsrc];
      set (source_file := sf) in *; set (task_name := tn) in *
  end.
  unfold mbind at 1, M_bind at 1, bind at 1. rewrite Hsrc.
  destruct (analyze_intent_returns (content ++ [newline] ++ source_content))
    as [a Ha].
  unfold mbind at 1, M_bind at 1, bind at 1. rewrite Ha.
  unfold mret at 1, M_ret at 1, ret at 1.
  destruct (log_activity_run intent_analyzed (NEEDS_ACTION_FOLDER, task_file)
              (status_intent (intent a)) (analysis_details a) e v)
    as (v1 & Hlog1 & K1 & L1).
  unfold mbind at 1, M_bind at 1, bind at 1. rewrite Hlog1.
  destruct (route_run
              (content ++ [newline] ++ source_content) a task_name content
              source_content (content ++ [newline] ++ source_content) e v1 Ha)
    as (v2 & Hroute & K2).
  { intros _ _. split; [done|apply Hwrite]. }
  unfold mbind at 1, M_bind at 1, bind at 1. rewrite Hroute.
  destruct (log_activity_run task_processed (NEEDS_ACTION_FOLDER, task_file)
              completed
              (processed_details (intent a) (requires_approval a)) e v2)
    as (v3 & Hlog2 & K3 & _).
  unfold mbind at 1, M_bind at 1, bind at 1. rewrite Hlog2.
  pose proof (files_kept_trans _ _ _ (files_kept_trans _ _ _ K1 K2) K3)
    as (N & D & F).
  apply (archive_run task_file source_file task_name content e v3);
    try done.
  - by rewrite N.
  - by rewrite N.
  - by apply F.
Qed.

(** In a live run in which the task file can be read, nothing fails to
    be moved and the [Logs] folder can be written, every task is
    archived: [process_task_file] leaves the task file in [Done], with
    its content, and no longer in [Needs_Action], whatever the intent
    found and even when the plan or the draft could not be written. *)
Theorem task_is_archived task_file content e v :
  lets_archive e task_file →
  NoDup (needs_action v).*1 →
  file_content task_file (needs_action v) = Some content →
  DONE_FOLDER ∈ dirs v →
  ∃ v', process_task_file glob task_file e v = (Ok tt, v') ∧
        done v' !! task_file = Some content ∧
        task_file ∉ (needs_action v').*1.
Proof.
  intros Henv Hnd Hc Hd.
  destruct (process_task_body_archives task_file content e v Henv Hnd Hc Hd)
    as (v' & Hrun & Hdone & Hgone).
  exists v'. unfold process_task_file, try_except. by rewrite Hrun.
Qed.

End Archive.

Lemma task_is_archived_witness :
  ∃ v', Orchestrator.process_task_file glob_exact task_A no_artifact_env
          (vault_with task_A scenario_A) = (Ok tt, v') ∧
        done v' !! task_A = Some scenario_A ∧
        task_A ∉ (needs_action v').*1.
Proof.
  apply (task_is_archived glob_exact glob_exact_lists task_A scenario_A
           no_artifact_env (vault_with task_A scenario_A)).
  - split_and!; [reflexivity|reflexivity|reflexivity|].
    intros n. reflexivity.
  - apply NoDup_singleton.
  - reflexivity.
  - apply (bool_decide_unpack _). by vm_compute.
Defined.

(* ===================================================================== *)
(** * What the matcher finds *)
(* ===================================================================== *)

(** Greedy repetition of a character class passes the longest run of
    characters of the class, when the rest of the pattern matches after
    it. *)
Lemma run_Star_greedy p k res : ∀ w st tail,
  rest st = w ++ tail →
  Forall (fun c => p c = true) w →
  match tail with [] => True | c :: _ => p c = false end →
  k (MState (rev w ++ seen st) tail (caps st)) = Some res →
  run (Star true (Chr p)) k st = Some res.
Proof.
  intros w st tail E Hw Ht Hk. simpl.
  assert (Hlen : List.length w ≤ List.length (rest st))
    by (rewrite E, length_app; lia).
  revert Hlen. generalize (List.length (rest st)) at 1 2. intros n Hlen.
  revert n st tail E Ht Hk Hlen.
  induction Hw as [|c w Hc Hw IH]; intros n st tail E Ht Hk Hlen.
  - simpl in E, Hk. destruct st as [sn rs cp]. simpl in *. subst rs.
    destruct n as [|n]; [done|].
    destruct tail as [|c tail]; simpl; [done|]. by rewrite Ht.
  - destruct n as [|n]; [simpl in Hlen; lia|].
    destruct st as [sn rs cp]. simpl in *. subst rs. rewrite Hc.
    rewrite (IH n (MState (c :: sn) (w ++ tail) cp) tail);
      [|done|done|simpl; by rewrite <- app_assoc in Hk|simpl in Hlen; lia].
    match goal with
    | |- context [(?a <? ?b)%nat] => destruct (Nat.ltb_spec a b) as [_|Hge]
    end; [done|].
    simpl in Hge. lia.
Qed.

Lemma digits_of_spec : ∀ s,
  s = (digits_of s).1 ++ (digits_of s).2 ∧
  all_digits (digits_of s).1 ∧
  match (digits_of s).2 with [] => True | c :: _ => is_digit c = false end.
Proof.
  induction s as [|c s (IH1 & IH2 & IH3)]; simpl;
    [split_and!; [done|constructor|done]|].
  destruct (is_digit c) eqn:Hc.
  - destruct (digits_of s) as [d r]. simpl in *.
    split_and!; [by rewrite IH1 at 1|by constructor|done].
  - simpl. split_and!; [done|constructor|done].
Qed.

(** The optional fraction, then the end of group 1. *)
Lemma run_fraction st0 st :
  let K := fun st' => Some (set_cap 1 st0 st') in
  run (Opt (Seq (chr ".") (Seq digit digit))) K st
  = K (advance (fraction_of (rest st)) st).
Proof.
  intros K. destruct st as [sn rs cp].
  unfold Opt, advance, fraction_of, chr, digit. cbn [run rest seen caps].
  destruct rs as [|p [|d1 [|d2 rs]]]; try done.
  - by destruct (Ascii.eqb "." p).
  - destruct (Ascii.eqb "." p); [|done]. by destruct (is_digit d1).
  - destruct (Ascii.eqb "." p); [|done].
    destruct (is_digit d1); [|done]. by destruct (is_digit d2).
Qed.

(** The equations of the matcher. *)
Lemma run_Seq r1 r2 k st : run (Seq r1 r2) k st = run r1 (run r2 k) st.
Proof. done. Qed.

Lemma run_Alt r1 r2 k st :
  run (Alt r1 r2) k st
  = match run r1 k st with Some x => Some x | None => run r2 k st end.
Proof. done. Qed.

Lemma run_Eps k st : run Eps k st = k st.
Proof. done. Qed.

Lemma run_Group i r k st :
  run (Group i r) k st = run r (fun st' => k (set_cap i st st')) st.
Proof. done. Qed.

Lemma run_Chr p k sn c t cp :
  run (Chr p) k (MState sn (c :: t) cp)
  = if p c then k (MState (c :: sn) t cp) else None.
Proof. done. Qed.

Lemma run_Chr_nil p k sn cp : run (Chr p) k (MState sn [] cp) = None.
Proof. done. Qed.

(** Group 1 of the amount pattern, at a digit. *)
Lemma run_AMOUNT_group sn c s :
  is_digit c = true →
  let st1 := MState sn (c :: s) [] in
  let st2 := MState (rev (fraction_of (digits_of s).2) ++
                     rev (digits_of s).1 ++ c :: sn)
               (drop (List.length (fraction_of (digits_of s).2))
                  (digits_of s).2) [] in
  run (Group 1 (Seq (Seq digit (Star true digit))
                    (Alt (Seq (chr ".") (Seq digit digit)) Eps))) Some st1
  = Some (set_cap 1 st1 st2) ∧
  consumed st1 st2 = numeral_at (c :: s).
Proof.
  intros Hc st1 st2.
  destruct (digits_of_spec s) as (Es & Hds & Hr). split.
  - rewrite run_Group, !run_Seq. unfold st1 at 1, digit at 1.
    rewrite (run_Chr is_digit _ sn c s []), Hc.
    apply (run_Star_greedy is_digit _ _ (digits_of s).1
             (MState (c :: sn) s []) (digits_of s).2); try done.
    apply (run_fraction st1).
  - apply consumed_app. unfold st1, st2, numeral_at. cbn [rest digits_of].
    rewrite Hc. destruct (digits_of s) as [d r]. cbn [fst snd] in *.
    rewrite Es at 1. rewrite <- !app_assoc. simpl. do 2 f_equal.
    unfold fraction_of. destruct r as [|p [|d1 [|d2 r]]]; try done.
    by destruct (_ && _).
Qed.

Lemma digit_not_dollar c : is_digit c = true → Ascii.eqb "$" c = false.
Proof.
  intros Hc. destruct (Ascii.eqb_spec "$" c) as [<-|]; [by vm_compute in Hc|done].
Qed.

(** At a digit the amount pattern matches the numeral that starts there. *)
Lemma match_at_AMOUNT_numeral before c s :
  is_digit c = true →
  ∃ m, match_at AMOUNT before (c :: s) = Some m ∧
       group_text 1 m = numeral_at (c :: s).
Proof.
  intros Hc. destruct (run_AMOUNT_group before c s Hc) as [Hrun Hcons].
  unfold match_at, AMOUNT, Opt, Plus. rewrite run_Seq, run_Alt.
  unfold chr at 1.
  rewrite (run_Chr (Ascii.eqb "$") _ before c s []), (digit_not_dollar c Hc).
  rewrite run_Eps, Hrun.
  eexists. split; [done|].
  unfold group_text, group. cbn [groups set_cap caps assoc Nat.eqb default].
  by rewrite Hcons.
Qed.

(** At a dollar sign it matches the numeral that follows, if one does. *)
Lemma match_at_AMOUNT_dollar before s :
  match s with
  | d :: s' =>
      if is_digit d
      then ∃ m, match_at AMOUNT before ("$"%char :: s) = Some m ∧
                group_text 1 m = numeral_at s
      else match_at AMOUNT before ("$"%char :: s) = None
  | [] => match_at AMOUNT before ("$"%char :: s) = None
  end.
Proof.
  assert (Hback : run Eps
            (run (Group 1 (Seq (Seq digit (Star true digit))
                              (Alt (Seq (chr ".") (Seq digit digit)) Eps)))
               Some) (MState before ("$"%char :: s) []) = None).
  { rewrite run_Eps, run_Group, !run_Seq. unfold digit at 1.
    by rewrite (run_Chr is_digit _ before "$" s []). }
  assert (Hgo : run AMOUNT Some (MState before ("$"%char :: s) [])
                = run (Group 1 (Seq (Seq digit (Star true digit))
                                  (Alt (Seq (chr ".") (Seq digit digit)) Eps)))
                    Some (MState ("$"%char :: before) s [])).
  { unfold AMOUNT, Opt, Plus. rewrite run_Seq, run_Alt. unfold chr at 1.
    rewrite (run_Chr (Ascii.eqb "$") _ before "$" s []), Ascii.eqb_refl.
    rewrite Hback.
    match goal with
    | |- match ?x with _ => _ end = _ => by destruct x
    end. }
  destruct s as [|d s'].
  - unfold match_at. rewrite Hgo, run_Group, !run_Seq. unfold digit at 1.
    by rewrite run_Chr_nil.
  - destruct (is_digit d) eqn:Hd.
    + destruct (run_AMOUNT_group ("$"%char :: before) d s' Hd) as [Hrun Hcons].
      unfold match_at. rewrite Hgo, Hrun. eexists. split; [done|].
      unfold group_text, group.
      cbn [groups set_cap caps assoc Nat.eqb default]. by rewrite Hcons.
    + unfold match_at. rewrite Hgo, run_Group, !run_Seq. unfold digit at 1.
      by rewrite (run_Chr is_digit _ ("$"%char :: before) d s' []), Hd.
Qed.

(** Elsewhere it does not match. *)
Lemma match_at_AMOUNT_none before c s :
  is_digit c = false → Ascii.eqb "$" c = false →
  match_at AMOUNT before (c :: s) = None.
Proof.
  intros Hc Hd. unfold match_at, AMOUNT, Opt, Plus. rewrite run_Seq, run_Alt.
  unfold chr at 1. rewrite (run_Chr (Ascii.eqb "$") _ before c s []), Hd.
  rewrite run_Eps, run_Group, !run_Seq. unfold digit at 1.
  by rewrite (run_Chr is_digit _ before c s []), Hc.
Qed.

Lemma first_numeral_dollar s : first_numeral ("$"%char :: s) = first_numeral s.
Proof. done. Qed.

(** [amounts[0]] is the numeral at the first digit of the text. *)
Lemma findall_AMOUNT_head : ∀ s before fuel,
  List.length s < fuel →
  head (map (group_text 1) (findall_from fuel AMOUNT before s))
  = first_numeral s.
Proof.
  induction s as [|c s IH]; intros before [|fuel] Hf; try (simpl in Hf; lia).
  { done. }
  cbn [findall_from first_numeral].
  destruct (is_digit c) eqn:Hc.
  - destruct (match_at_AMOUNT_numeral before c s Hc) as (m & -> & Hg).
    rewrite <- Hg. by destruct (whole m).
  - destruct (Ascii.eqb_spec "$" c) as [<-|Hne].
    + pose proof (match_at_AMOUNT_dollar before s) as H.
      destruct s as [|d s'].
      * rewrite H. destruct fuel; done.
      * destruct (is_digit d) eqn:Hd.
        -- destruct H as (m & -> & Hg). cbn [first_numeral]. rewrite Hd.
           rewrite <- Hg. by destruct (whole m).
        -- rewrite H. apply IH. simpl in *. lia.
    + rewrite match_at_AMOUNT_none; [|done|by apply Ascii.eqb_neq].
      apply IH. simpl in *. lia.
Qed.

(** The first amount of a text is the numeral at its first digit: its
    first run of digits, with the point and the two digits that follow
    when there are such.  A dollar sign plays no part, and neither does
    what precedes the digits. *)
Theorem first_amount_is_first_numeral content :
  head (map (group_text 1) (findall AMOUNT content)) = first_numeral content ∧
  first_amount content = first_numeral content ≫= py_float.
Proof.
  assert (H : head (map (group_text 1) (findall AMOUNT content))
              = first_numeral content).
  { unfold findall. apply findall_AMOUNT_head. lia. }
  split; [done|]. unfold first_amount. by rewrite H.
Qed.

(* ===================================================================== *)
(** * From the detector to the orchestrator *)
(* ===================================================================== *)

Section HandoffAmount.
Import Watcher Handoff.

Lemma digit_char m :
  (m < 10)%N →
  is_digit (ascii_of_N (48 + m)) = true ∧
  code (ascii_of_N (48 + m)) = (48 + m)%N.
Proof.
  intros H.
  assert (Hm : (m = 0 ∨ m = 1 ∨ m = 2 ∨ m = 3 ∨ m = 4 ∨ m = 5 ∨ m = 6 ∨
                m = 7 ∨ m = 8 ∨ m = 9)%N) by lia.
  repeat destruct Hm as [->|Hm]; try subst m; by vm_compute.
Qed.

Lemma digits_value_app x : ∀ a y,
  digits_value a (x ++ y) = digits_value a x ≫= fun m => digits_value m y.
Proof.
  induction x as [|c x IH]; intros a y; simpl; [done|].
  destruct (is_digit c); [apply IH|done].
Qed.

Lemma decimal_from_S fuel n acc :
  decimal_from (S fuel) n acc
  = if (n <? 10)%N then ascii_of_N (48 + n mod 10) :: acc
    else decimal_from fuel (n / 10) (ascii_of_N (48 + n mod 10) :: acc).
Proof. done. Qed.

Lemma decimal_from_spec : ∀ fuel n acc,
  (n < 2 ^ N.of_nat (S fuel))%N →
  ∃ ds, decimal_from (S fuel) n acc = ds ++ acc ∧ ds ≠ [] ∧ all_digits ds ∧
        digits_value 0 ds = Some n.
Proof.
  induction fuel as [|fuel IH]; intros n acc Hn.
  - assert (n < 10)%N by (change (2 ^ N.of_nat 1)%N with 2%N in Hn; lia).
    destruct (digit_char (n mod 10)) as [Hd Hc]; [by apply N.mod_upper_bound|].
    rewrite decimal_from_S. destruct (N.ltb_spec n 10); [|lia].
    exists [ascii_of_N (48 + n mod 10)]. split_and!; [done|done|by repeat constructor|].
    cbn [digits_value]. rewrite Hd, Hc. f_equal.
    rewrite N.mod_small by done. lia.
  - destruct (digit_char (n mod 10)) as [Hd Hc]; [by apply N.mod_upper_bound|].
    rewrite decimal_from_S. destruct (N.ltb_spec n 10) as [Hlt|Hge].
    + exists [ascii_of_N (48 + n mod 10)].
      split_and!; [done|done|by repeat constructor|].
      cbn [digits_value]. rewrite Hd, Hc. f_equal.
      rewrite N.mod_small by done. lia.
    + destruct (IH (n / 10)%N (ascii_of_N (48 + n mod 10) :: acc))
        as (ds & E & Hne & Hds & Hv).
      { apply N.Div0.div_lt_upper_bound.
        replace (N.of_nat (S (S fuel))) with (N.succ (N.of_nat (S fuel))) in Hn
          by lia.
        rewrite N.pow_succ_r' in Hn. lia. }
      exists (ds ++ [ascii_of_N (48 + n mod 10)]). split_and!.
      * rewrite E. by rewrite <- app_assoc.
      * by destruct ds.
      * apply Forall_app. split; [done|by repeat constructor].
      * rewrite digits_value_app, Hv. cbn [mbind option_bind digits_value].
        rewrite Hd, Hc. f_equal.
        pose proof (N.div_mod n 10 ltac:(done)) as Hdm.
        set (q := (n / 10)%N) in *. set (r := (n mod 10)%N) in *. lia.
Qed.

(** [str] of a size is a non-empty run of digits that [float] reads
    back. *)
Lemma decimal_spec n :
  decimal n ≠ [] ∧ all_digits (decimal n) ∧
  py_float (decimal n) = Some (100 * n)%N.
Proof.
  unfold decimal.
  destruct (decimal_from_spec (N.to_nat (N.size n)) n [])
    as (ds & E & Hne & Hds & Hv).
  { replace (N.of_nat (S (N.to_nat (N.size n)))) with (N.succ (N.size n))
      by lia.
    rewrite N.pow_succ_r'. pose proof (N.size_gt n). lia. }
  rewrite E, app_nil_r. split_and!; [done|done|].
  unfold py_float.
  rewrite <- (app_nil_r ds), split_point_digits by done.
  rewrite app_nil_r. destruct ds as [|c ds]; [done|].
  cbn -[digits_value N.mul]. rewrite Hv. done.
Qed.

Lemma first_numeral_skip pre s :
  digit_free pre → first_numeral (pre ++ s) = first_numeral s.
Proof.
  induction 1 as [|c pre Hc _ IH]; [done|].
  cbn [app first_numeral]. by rewrite Hc.
Qed.

Lemma digits_of_run ds c rest :
  all_digits ds → is_digit c = false →
  digits_of (ds ++ c :: rest) = (ds, c :: rest).
Proof.
  intros Hds Hc. induction Hds as [|d ds Hd _ IH]; simpl.
  - by rewrite Hc.
  - by rewrite Hd, IH.
Qed.

(** The numeral at the start of a run of digits that a character other
    than a digit or a point ends. *)
Lemma first_numeral_run ds c rest :
  ds ≠ [] → all_digits ds → is_digit c = false → Ascii.eqb "." c = false →
  first_numeral (ds ++ c :: rest) = Some ds.
Proof.
  intros Hne Hds Hc Hp. destruct ds as [|d ds]; [done|].
  inversion Hds as [|? ? Hd Hds']; subst.
  cbn [app first_numeral]. rewrite Hd. f_equal.
  unfold numeral_at.
  change (d :: ds ++ c :: rest) with ((d :: ds) ++ c :: rest).
  rewrite (digits_of_run (d :: ds) c rest Hds Hc). cbn [fst snd].
  unfold fraction_of. destruct rest as [|d1 [|d2 rest]]; rewrite ?Hp;
    by rewrite app_nil_r.
Qed.

Lemma digits_of_last : ∀ s c b,
  is_digit c = false →
  digits_of (s ++ c :: b)
  = ((digits_of (s ++ [c])).1, (digits_of (s ++ [c])).2 ++ b) ∧
  (digits_of (s ++ [c])).2 ≠ [] ∧
  last (digits_of (s ++ [c])).2 = Some c.
Proof.
  induction s as [|d s IH]; intros c b Hc.
  - simpl. rewrite Hc. done.
  - cbn [app digits_of]. destruct (is_digit d).
    + destruct (IH c b Hc) as (E & Hne & Hl). rewrite E.
      destruct (digits_of (s ++ [c])) as [x y]. done.
    + cbn [fst snd]. split_and!; [|done|].
      * f_equal. simpl. by rewrite <- app_assoc.
      * change (d :: s ++ [c]) with ((d :: s) ++ [c]). apply last_snoc.
Qed.

Lemma fraction_of_last r c b :
  r ≠ [] → last r = Some c → is_digit c = false → Ascii.eqb "." c = false →
  fraction_of (r ++ b) = fraction_of r.
Proof.
  intros Hne Hl Hc Hp. unfold fraction_of.
  destruct r as [|p [|d1 [|d2 r]]]; [done|..]; simpl in *.
  - injection Hl as ->. rewrite Hp. by destruct b as [|? [|? ?]].
  - injection Hl as ->. rewrite Hc, andb_false_r. by destruct b.
  - done.
Qed.

Lemma numeral_at_last s c b :
  is_digit c = false → Ascii.eqb "." c = false →
  numeral_at (s ++ c :: b) = numeral_at (s ++ [c]).
Proof.
  intros Hc Hp. unfold numeral_at.
  destruct (digits_of_last s c b Hc) as (-> & Hne & Hl). cbn [fst snd].
  by rewrite (fraction_of_last _ c b).
Qed.

(** What follows a text that holds a digit and ends with a character
    other than a digit or a point plays no part in its first numeral. *)
Lemma first_numeral_last : ∀ s c b,
  Exists (fun x => is_digit x = true) s →
  is_digit c = false → Ascii.eqb "." c = false →
  first_numeral (s ++ c :: b) = first_numeral (s ++ [c]).
Proof.
  induction s as [|d s IH]; intros c b Hs Hc Hp; [by inversion Hs|].
  cbn [app first_numeral]. destruct (is_digit d) eqn:Hd.
  - f_equal. by apply (numeral_at_last (d :: s)).
  - apply IH; [|done|done]. inversion Hs; [congruence|done].
Qed.

Lemma decimal_has_digit n : Exists (fun x => is_digit x = true) (decimal n).
Proof.
  destruct (decimal_spec n) as (Hne & Hd & _).
  destruct (decimal n) as [|c s]; [done|].
  inversion Hd; subst. by left.
Qed.

(** The task document ends with a newline and holds a digit: its size. *)
Lemma task_content_shape t :
  ∃ s, task_content t = s ++ [newline] ∧
       Exists (fun x => is_digit x = true) s.
Proof.
  unfold task_content. eexists. split.
  - rewrite !app_assoc. reflexivity.
  - pose proof (decimal_has_digit (size t)) as Hdec.
    repeat first [ apply Exists_app; right; exact Hdec
                 | apply Exists_app; left ].
Qed.

(** The analyser's amount for a task the detector wrote never comes from
    the dropped file: the first amount of the task document followed by
    the content of the file is the first amount of the task document
    alone, whatever the file holds. *)
Theorem task_amount_ignores_the_file t source_content :
  first_amount (analysis_content t source_content)
  = first_amount (task_content t).
Proof.
  unfold first_amount, findall.
  rewrite !findall_AMOUNT_head by lia.
  unfold analysis_content.
  destruct (task_content_shape t) as (s & -> & Hs).
  rewrite <- app_assoc.
  change ([newline] ++ [newline] ++ source_content)
    with (newline :: newline :: source_content).
  by rewrite (first_numeral_last s newline (newline :: source_content)).
Qed.

(** When neither the name nor the path of the dropped file holds a
    digit, the amount the analyser finds is the size of the file in
    bytes: a task that is classified as a payment request then needs
    approval exactly when the file is larger than 500 bytes, whatever
    amount the file states. *)
Theorem task_amount_is_the_size t source_content :
  digit_free (original_name t) → digit_free (source_path t) →
  first_amount (analysis_content t source_content) = Some (100 * size t)%N ∧
  ∀ r, analyze_intent (analysis_content t source_content) = Some r →
       intent r = payment_request →
       entities r !! "amount" = Some (VFloat (100 * size t)) ∧
       (requires_approval r = true ↔ (500 < size t)%N).
Proof.
  intros Hname Hpath.
  destruct (decimal_spec (size t)) as (Hne & Hds & Hfloat).
  assert (Hfirst : first_amount (analysis_content t source_content)
                   = Some (100 * size t)%N).
  { unfold first_amount, findall. rewrite findall_AMOUNT_head by lia.
    unfold analysis_content, task_content. rewrite <- !app_assoc.
    assert (Hlit : ∀ s : string,
              forallb (fun c => negb (is_digit c)) (T s) = true →
              digit_free (T s)).
    { intros s H. apply Forall_forall. intros c Hc.
      rewrite forallb_forall in H. apply negb_true_iff, H.
      by apply list_elem_of_In. }
    rewrite (first_numeral_skip (T "---")) by (by apply Hlit).
    rewrite (first_numeral_skip [newline]) by (by repeat constructor).
    rewrite (first_numeral_skip (T "type: file_drop")) by (by apply Hlit).
    rewrite (first_numeral_skip [newline]) by (by repeat constructor).
    rewrite (first_numeral_skip (T "original_name: ")) by (by apply Hlit).
    rewrite (first_numeral_skip (original_name t)) by done.
    rewrite (first_numeral_skip [newline]) by (by repeat constructor).
    rewrite (first_numeral_skip (T "source_path: ")) by (by apply Hlit).
    rewrite (first_numeral_skip (source_path t)) by done.
    rewrite (first_numeral_skip [newline]) by (by repeat constructor).
    rewrite (first_numeral_skip (T "size: ")) by (by apply Hlit).
    change ([newline] ++ ?x) with (newline :: x).
    rewrite first_numeral_run by done. simpl. exact Hfloat. }
  split; [done|]. intros r Hr Hi.
  pose proof (analyze_intent_payment _ _ Hr Hi) as H.
  rewrite Hfirst in H. destruct H as [He H]. split; [done|].
  unfold THRESHOLD in H.
  destruct (N.ltb_spec 50000 (100 * size t)) as [Hlt|Hge].
  - destruct H as (-> & _). split; [lia|done].
  - destruct H as (-> & _). split; [done|lia].
Qed.

End HandoffAmount.

Lemma task_amount_is_the_size_witness :
  first_amount (Handoff.analysis_content Handoff.invoice_task
                  Handoff.invoice_text) = Some 204800%N ∧
  ∀ r, analyze_intent (Handoff.analysis_content Handoff.invoice_task
                         Handoff.invoice_text) = Some r →
       intent r = payment_request →
       entities r !! "amount" = Some (VFloat 204800) ∧
       (requires_approval r = true ↔ (500 < 2048)%N).
Proof.
  apply (task_amount_is_the_size Handoff.invoice_task Handoff.invoice_text).
  - unfold Handoff.digit_free. simpl. by repeat constructor.
  - unfold Handoff.digit_free. simpl. by repeat constructor.
Defined.

(* ===================================================================== *)
(** * The names the orchestrator reads back *)
(* ===================================================================== *)

Section HandoffNames.
Import Orchestrator Watcher Handoff.














End HandoffNames.

(* ===================================================================== *)
(** * The dashboard *)
(* ===================================================================== *)

Section Dashboard.
Import Orchestrator Run.

Lemma get_folder_count_eq f e v :
  get_folder_count f e v
  = (Ok (if bool_decide (f ∈ dirs v) then
           match f with
           | NEEDS_ACTION_FOLDER => count_md (needs_action v).*1
           | DONE_FOLDER => count_md (elements (dom (done v)))
           | _ => count_md (artifact_names f v)
           end
         else 0), v).
Proof.
  unfold get_folder_count, mbind, M_bind, bind, get.
  by destruct (bool_decide (f ∈ dirs v)).
Qed.

(** A count does not change with the logs. *)
Lemma get_folder_count_kept f e v v' n :
  f ≠ LOGS_FOLDER →
  same_documents v v' → dirs v' = {[LOGS_FOLDER]} ∪ dirs v →
  get_folder_count f e v = (Ok n, v) →
  get_folder_count f e v' = (Ok n, v').
Proof.
  intros Hf (Hn & Hd & Ha & _) Hdirs. rewrite !get_folder_count_eq.
  intros [= <-]. f_equal. f_equal.
  unfold artifact_names. rewrite Hn, Hd, Ha.
  assert (E : bool_decide (f ∈ dirs v') = bool_decide (f ∈ dirs v)).
  { apply bool_decide_ext. rewrite Hdirs, elem_of_union, elem_of_singleton.
    tauto. }
  by rewrite E.
Qed.

Lemma last_n_length {A} n (l : list A) : List.length (last_n n l) ≤ n.
Proof. unfold last_n. rewrite length_drop. lia. Qed.

Lemma get_recent_activities_run e v :
  ∃ l, get_recent_activities 5 e v = (Ok l, set_ticks (S (ticks v)) v) ∧
       List.length l ≤ 5.
Proof.
  unfold get_recent_activities, mbind, M_bind, bind, now, ask, get.
  cbn [ticks set_ticks activity].
  destruct (activity v !! _) as [logs|]; [|exists []; split; [done|simpl; lia]].
  destruct (read_fails e _); [exists []; split; [done|simpl; lia]|].
  exists (last_n 5 logs). split; [done|apply last_n_length].
Qed.

(** The folders after an entry was added to the activity log. *)
Lemma log_error_dirs message e v :
  dirs (log_error message e v).2 = {[LOGS_FOLDER]} ∪ dirs v.
Proof.
  unfold log_error, mbind, M_bind, bind, mkdir, modify, now, ask.
  cbn. by destruct (write_fails e ERROR_LOG_FILE).
Qed.

Lemma log_activity_dirs action file st details e v :
  dirs (log_activity action file st details e v).2 = {[LOGS_FOLDER]} ∪ dirs v.
Proof.
  unfold log_activity, try_except, mbind, M_bind, bind, mkdir, modify, now,
    ask, get.
  cbn [ticks set_ticks set_dirs activity dirs fst snd].
  assert (Hu : ∀ d : gset folder,
            {[LOGS_FOLDER]} ∪ ({[LOGS_FOLDER]} ∪ d) = {[LOGS_FOLDER]} ∪ d).
  { intros d. apply set_eq. intros x.
    rewrite !elem_of_union, !elem_of_singleton. tauto. }
  destruct (activity v !! _) as [logs|].
  - destruct (read_fails e _).
    + cbn. rewrite log_error_dirs. cbn. apply Hu.
    + cbn. destruct (write_fails e _); cbn; [|done].
      rewrite log_error_dirs. cbn. apply Hu.
  - cbn. destruct (write_fails e _); cbn; [|done].
    rewrite log_error_dirs. cbn. apply Hu.
Qed.

(** A dashboard that can be written shows the vault as it is when
    [update_dashboard] returns. *)
Lemma update_dashboard_current e v :
  dashboard_writable e → dashboard_current e (update_dashboard e v).2.
Proof.
  intros [Hlive Hw].
  unfold update_dashboard, try_except.
  unfold mbind at 1, M_bind at 1, bind at 1. rewrite get_folder_count_eq.
  unfold mbind at 1, M_bind at 1, bind at 1. rewrite get_folder_count_eq.
  unfold mbind at 1, M_bind at 1, bind at 1. rewrite get_folder_count_eq.
  unfold mbind at 1, M_bind at 1, bind at 1. rewrite get_folder_count_eq.
  unfold mbind at 1, M_bind at 1, bind at 1.
  destruct (get_recent_activities_run e v) as (recent & -> & Hrecent).
  unfold mbind at 1, M_bind at 1, bind at 1. unfold ask at 1.
  rewrite Hlive, Hw.
  unfold mbind at 1, M_bind at 1, bind at 1. unfold modify at 1.
  set (d := {| d_needs_action := _ |}).
  set (v1 := set_dashboard (Some d) _).
  set (details := dashboard_details _ _ _ _).
  pose proof (keeps_log_activity always dashboard_update DASHBOARD_FILE
                updated details e v1 I) as Hdocs.
  pose proof (log_activity_dirs dashboard_update DASHBOARD_FILE updated
                details e v1) as Hdirs.
  destruct (returns_log_activity dashboard_update DASHBOARD_FILE updated
              details e v1) as [[] Hret].
  destruct (log_activity _ _ _ _ e v1) as [[[]|x] v2]; [|done].
  cbn [fst snd] in *.
  exists d. split_and!; [by destruct Hdocs as (_ & _ & _ & ->)| |done].
  assert (Hv : ∀ f n, f ≠ LOGS_FOLDER →
            get_folder_count f e v = (Ok n, v) →
            get_folder_count f e v2 = (Ok n, v2)).
  { intros f n Hf H.
    apply (get_folder_count_kept f e v1 v2 n); [done..|].
    rewrite get_folder_count_eq in H |- *. by injection H as <-. }
  unfold shows.
  split_and!; apply Hv; try done; by rewrite get_folder_count_eq.
Qed.

(** What holds after the last step of a sequence holds after the
    sequence, when the steps before return. *)
Lemma after_bind {A B} (m : M A) (f : A → M B) (P : vault → Prop) e v :
  returns m → (∀ a v', P (f a e v').2) → P ((m ≫= f) e v).2.
Proof.
  intros Hm Hf. unfold mbind, M_bind, bind.
  destruct (Hm e v) as [a Ha]. destruct (m e v) as [[a'|x] v']; [|done].
  apply Hf.
Qed.

Variable glob : list text → text → option (list text).

(** When the dashboard can be written, the dashboard [update_dashboard]
    leaves shows the vault as it is at that moment, not as it was when
    the counting began: the four counts are those of [Needs_Action],
    [Pending_Approval], [Done] and [Plans] when it returns (the entry it
    adds to the activity log changes none of them), with at most five
    recent activities.  [main] ends with such a dashboard, and so does a
    scan that found a task file. *)
Theorem dashboard_is_current e v :
  dashboard_writable e →
  dashboard_current e (update_dashboard e v).2 ∧
  dashboard_current e (main glob e v).2 ∧
  (List.filter is_md (needs_action v).*1 ≠ [] →
   dashboard_current e (scan_and_process glob e v).2).
Proof.
  intros Hw. split_and!.
  - by apply update_dashboard_current.
  - unfold main.
    apply after_bind; [apply returns_ensure_folders_exist|intros _ v1].
    apply after_bind; [apply returns_update_dashboard|intros _ v2].
    apply after_bind; [apply returns_ask|intros e' v3].
    apply after_bind; [apply returns_scans|intros _ v4].
    by apply update_dashboard_current.
  - intros Htasks. unfold scan_and_process.
    unfold mbind at 1, M_bind at 1, bind at 1.
    rewrite ensure_folders_exist_run.
    unfold mbind at 1, M_bind at 1, bind at 1. unfold get at 1.
    cbn [needs_action set_dirs].
    destruct (List.filter is_md (needs_action v).*1) as [|t l]; [done|].
    apply after_bind; [|intros _ v1; by apply update_dashboard_current].
    unfold process_all. apply returns_for_each. intros f.
    apply returns_process_task_file.
Qed.

End Dashboard.

Lemma dashboard_is_current_witness :
  let e := example_env false in
  let v := vault_with task_A scenario_A in
  dashboard_current e (Orchestrator.update_dashboard e v).2 ∧
  dashboard_current e (Run.main glob_exact e v).2 ∧
  (List.filter Orchestrator.is_md (needs_action v).*1 ≠ [] →
   dashboard_current e (Orchestrator.scan_and_process glob_exact e v).2).
Proof.
  apply (dashboard_is_current glob_exact (example_env false)
           (vault_with task_A scenario_A)).
  split; reflexivity.
Defined.

(* ===================================================================== *)
(** * What the routing step writes *)
(* ===================================================================== *)



Section Adds.
Import Orchestrator.

Variable P : document → Prop.












End Adds.

Section Follows.
Import Orchestrator.

Variable content : text.
Variable a : IntentResult.
Hypothesis Ha : analyze_intent content = Some a.



End Follows.


(* ===================================================================== *)
(** * No file is lost *)
(* ===================================================================== *)

Lemma conserves_refl v : conserves v v.
Proof.
  intros Hnd. split_and!; [done| |].
  - by intros n Hn.
  - intros n c H. by left.
Qed.

Lemma conserves_trans v1 v2 v3 :
  conserves v1 v2 → conserves v2 v3 → conserves v1 v3.
Proof.
  intros H12 H23 Hnd.
  destruct (H12 Hnd) as (Hnd2 & E12 & L12).
  destruct (H23 Hnd2) as (Hnd3 & E23 & L23).
  split_and!; [done| |].
  - intros n Hn. destruct (E12 n Hn) as [Hn2 D2].
    destruct (E23 n Hn2) as [Hn3 D3]. split; [done|congruence].
  - intros n c H. destruct (L12 n c H) as [H2|[Hn2 D2]].
    + by apply L23.
    + right. destruct (E23 n Hn2) as [Hn3 D3]. split; [done|congruence].
Qed.

Lemma conserves_same v v' :
  needs_action v' = needs_action v → done v' = done v → conserves v v'.
Proof. intros N D. unfold conserves, done_elsewhere_kept, no_file_lost.
  rewrite N, D. intros Hnd. split_and!; [done|done|]. intros n c H. by left.
Qed.

Lemma files_kept_conserves v v' : files_kept v v' → conserves v v'.
Proof. intros (N & D & _). by apply conserves_same. Qed.

Lemma conserves_of_kept {A} (m : M A) :
  keeps always files_kept m → keeps always conserves m.
Proof. intros H e v He. apply files_kept_conserves. by apply H. Qed.

Lemma one_content (l : list (text * text)) n c1 c2 :
  NoDup l.*1 → (n, c1) ∈ l → (n, c2) ∈ l → c1 = c2.
Proof.
  induction l as [|[x y] l IH]; [by intros _ ?%elem_of_nil|].
  rewrite fmap_cons. cbn [fst].
  intros [Hx Hnd]%NoDup_cons [H1|H1]%elem_of_cons [H2|H2]%elem_of_cons.
  - congruence.
  - injection H1 as -> _. destruct Hx. apply list_elem_of_fmap.
    by exists (x, c2).
  - injection H2 as -> _. destruct Hx. apply list_elem_of_fmap.
    by exists (x, c1).
  - by apply IH.
Qed.

(** A file moved to [Done] is there with its content. *)
Lemma conserves_move name content v :
  Orchestrator.file_content name (needs_action v) = Some content →
  conserves v
    (set_done (<[name := content]> (done v))
       (set_needs_action (Orchestrator.remove_file name (needs_action v)) v)).
Proof.
  intros Hc Hnd. apply file_content_elem in Hc.
  unfold done_elsewhere_kept, no_file_lost.
  cbn [needs_action done set_done set_needs_action].
  rewrite remove_file_names. split_and!.
  - by apply NoDup_filter.
  - intros n Hn. split.
    + intros [_ H]%list_elem_of_filter. done.
    + rewrite lookup_insert_ne; [done|]. intros <-. apply Hn.
      apply list_elem_of_fmap. by exists (name, content).
  - intros n c H. destruct (decide (n = name)) as [->|Hne].
    + right. split; [by intros [? _]%list_elem_of_filter|].
      rewrite lookup_insert_eq. f_equal.
      by apply (one_content (needs_action v) name).
    + left. unfold Orchestrator.remove_file. apply list_elem_of_filter.
      by split.
Qed.

Section Conserves.
Import Orchestrator Run.

Variable glob : list text → text → option (list text).

Lemma conserves_shutil_move name :
  keeps always conserves (shutil_move name name).
Proof.
  intros e v _.
  unfold shutil_move, mbind, M_bind, bind, ask, get, raise, modify. simpl.
  destruct (file_content name (needs_action v)) as [content|] eqn:E;
    [|apply conserves_refl].
  destruct (move_fails e _); [apply conserves_refl|].
  case_bool_decide; [|apply conserves_refl]. by apply conserves_move.
Qed.

Ltac conserves_step :=
  first
    [ keeps_known
    | match goal with
      | |- keeps _ _ (shutil_move ?n ?n) => apply conserves_shutil_move
      | |- keeps _ _ (for_each _ _) =>
          apply (keeps_for_each always conserves conserves_refl
                   conserves_trans);
          intros ?
      | |- keeps _ _ (modify _) =>
          apply keeps_modify; intros ?; by apply conserves_same
      end
    | apply (keeps_ret always conserves conserves_refl)
    | apply (keeps_raise always conserves conserves_refl)
    | apply (keeps_ask always conserves conserves_refl)
    | apply (keeps_get always conserves conserves_refl)
    | apply (keeps_bind always conserves conserves_trans); [|intros ?]
    | apply (keeps_try always conserves conserves_trans); [|intros ?]
    | match goal with
      | |- keeps _ _ (match ?x with _ => _ end) => destruct x
      end ].

Ltac conserves_all := repeat conserves_step.

Lemma conserves_now : keeps always conserves now.
Proof. apply conserves_of_kept, kept_now. Qed.

Lemma conserves_log_error message : keeps always conserves (log_error message).
Proof. apply conserves_of_kept, kept_log_error. Qed.

Lemma conserves_log_activity action file st details :
  keeps always conserves (log_activity action file st details).
Proof. apply conserves_of_kept, kept_log_activity. Qed.

Lemma conserves_route task_name task_content source_content analysis_content
    analysis :
  keeps always conserves
    (route task_name task_content source_content analysis_content analysis).
Proof. apply conserves_of_kept, kept_route. Qed.

Lemma conserves_read_file name : keeps always conserves (read_file name).
Proof. unfold read_file. conserves_all. Qed.

Lemma conserves_needs_action_glob pattern :
  keeps always conserves (needs_action_glob glob pattern).
Proof. unfold needs_action_glob. conserves_all. Qed.

Lemma conserves_read_source source_file task_name :
  keeps always conserves (read_source glob source_file task_name).
Proof.
  pose proof conserves_needs_action_glob. pose proof conserves_read_file.
  unfold read_source. conserves_all.
Qed.

Lemma conserves_archive task_file source_file task_name :
  keeps always conserves (archive glob task_file source_file task_name).
Proof.
  pose proof conserves_needs_action_glob. pose proof conserves_log_activity.
  unfold archive. conserves_all.
Qed.

Lemma conserves_process_task_file task_file :
  keeps always conserves (process_task_file glob task_file).
Proof.
  pose proof conserves_read_file. pose proof conserves_log_error.
  pose proof conserves_read_source. pose proof conserves_log_activity.
  pose proof conserves_route. pose proof conserves_archive.
  unfold process_task_file, process_task_body. conserves_all.
Qed.

Lemma conserves_ensure_folders_exist :
  keeps always conserves ensure_folders_exist.
Proof.
  intros e v _. rewrite ensure_folders_exist_run. by apply conserves_same.
Qed.

Lemma conserves_update_dashboard : keeps always conserves update_dashboard.
Proof.
  pose proof conserves_now.
  pose proof conserves_log_activity. pose proof conserves_log_error.
  unfold update_dashboard, get_folder_count, get_recent_activities.
  conserves_all.
Qed.

Lemma conserves_scan_and_process :
  keeps always conserves (scan_and_process glob).
Proof.
  pose proof conserves_ensure_folders_exist.
  pose proof conserves_process_task_file.
  pose proof conserves_update_dashboard.
  unfold scan_and_process, process_all. conserves_all.
Qed.




End Conserves.


(* ===================================================================== *)
(** * A scan archives every task *)
(* ===================================================================== *)

Section ScanArchives.
Import Orchestrator Run.

Variable glob : list text → text → option (list text).
Hypothesis glob_ok : glob_lists glob.

Variable e : env.
Hypothesis e_ok : ∀ task_file, lets_archive e task_file.

(** One task: afterwards its name is not in the folder. *)
Lemma process_task_file_clears task_file v :
  NoDup (needs_action v).*1 → DONE_FOLDER ∈ dirs v →
  ∃ v', process_task_file glob task_file e v = (Ok tt, v') ∧
        NoDup (needs_action v').*1 ∧ DONE_FOLDER ∈ dirs v' ∧
        done_elsewhere_kept v v' ∧
        task_file ∉ (needs_action v').*1.
Proof.
  intros Hnd Hd.
  destruct (process_task_file_ok glob task_file e v) as [v' Hrun].
  pose proof (conserves_process_task_file glob task_file e v I Hnd)
    as (Hnd' & E & _).
  pose proof (steady_process_task_file glob task_file e v I) as ([Hd' _] & _).
  rewrite Hrun in Hnd', E, Hd'. cbn [snd] in *.
  exists v'. split_and!; [done|done|by apply Hd'|done|].
  destruct (decide (task_file ∈ (needs_action v).*1)) as [Hin|Hout];
    [|by apply E].
  destruct (file_content_names task_file _ Hin) as [content Hc].
  destruct (process_task_body_archives glob glob_ok task_file content e v
              (e_ok task_file) Hnd Hc Hd) as (v1 & Hbody & _ & Hgone).
  revert Hrun. unfold process_task_file, try_except. rewrite Hbody.
  by intros [= <-].
Qed.

(** The loop over the task files. *)
Lemma process_all_clears : ∀ task_files v,
  NoDup (needs_action v).*1 → DONE_FOLDER ∈ dirs v →
  ∃ v', process_all glob task_files e v = (Ok tt, v') ∧
        NoDup (needs_action v').*1 ∧
        done_elsewhere_kept v v' ∧
        ∀ n, n ∈ task_files → n ∉ (needs_action v').*1.
Proof.
  unfold process_all.
  induction task_files as [|task_file l IH]; intros v Hnd Hd.
  { exists v. split_and!; [done|done|by intros n Hn|by intros n ?%elem_of_nil]. }
  destruct (process_task_file_clears task_file v Hnd Hd)
    as (v1 & Hrun & Hnd1 & Hd1 & E1 & Hgone).
  destruct (IH v1 Hnd1 Hd1) as (v' & Hrest & Hnd' & E' & Hl).
  exists v'. cbn [for_each]. unfold bind. rewrite Hrun.
  split_and!; [done|done| |].
  - intros n Hn. destruct (E1 n Hn) as [Hn1 D1].
    destruct (E' n Hn1) as [Hn' D']. split; [done|congruence].
  - intros n [->|Hn]%elem_of_cons; [|by apply Hl].
    by apply E'.
Qed.

(** A live scan in which the task files can be read, no move fails and
    the [Logs] folder can be written archives every task of a folder
    that holds each name once: afterwards [Needs_Action] holds no task
    file, every task file it held is in [Done] with its content, and the
    next scan finds nothing to do and changes nothing. *)
Theorem live_scan_archives_every_task v :
  NoDup (needs_action v).*1 →
  ∃ v', scan_and_process glob e v = (Ok tt, v') ∧
        List.filter is_md (needs_action v').*1 = [] ∧
        (∀ n c, is_md n = true → (n, c) ∈ needs_action v →
                done v' !! n = Some c) ∧
        scan_and_process glob e v' = (Ok tt, v').
Proof.
  intros Hnd.
  pose proof (conserves_scan_and_process glob e v I Hnd) as (_ & E & L).
  pose proof (scan_and_process_folders glob e v) as Hall.
  assert (Hrun : ∃ v', scan_and_process glob e v = (Ok tt, v') ∧
            ∀ n, n ∈ List.filter is_md (needs_action v).*1 →
                 n ∉ (needs_action v').*1).
  { unfold scan_and_process.
    unfold mbind at 1, M_bind at 1, bind at 1.
    rewrite ensure_folders_exist_run.
    unfold mbind at 1, M_bind at 1, bind at 1. unfold get at 1.
    cbn [needs_action set_dirs].
    set (v0 := set_dirs (all_folders ∪ dirs v) v).
    destruct (List.filter is_md (needs_action v).*1) as [|t l] eqn:Ef.
    { exists v0. split; [done|]. by intros n ?%elem_of_nil. }
    destruct (process_all_clears (t :: l) v0) as (v1 & Hloop & Hnd1 & _ & Hl).
    { done. }
    { subst v0. cbn [dirs set_dirs]. apply elem_of_union. left.
      apply (bool_decide_unpack _). by vm_compute. }
    destruct (returns_update_dashboard e v1) as [[] Hret].
    pose proof (steady_update_dashboard e v1 I) as (_ & _ & _ & Hsub & _).
    destruct (update_dashboard e v1) as [r v'] eqn:Hdash.
    cbn [fst snd] in *. subst r.
    exists v'. unfold mbind at 1, M_bind at 1, bind at 1.
    rewrite Hloop, Hdash. split; [done|].
    intros n Hn Hin. apply (Hl n Hn).
    eapply elem_of_sublist; [exact Hin|]. by apply fmap_sublist. }
  destruct Hrun as (v' & Hrun & Hclear).
  rewrite Hrun in E, L, Hall. cbn [snd] in *.
  assert (Hnone : List.filter is_md (needs_action v').*1 = []).
  { destruct (List.filter is_md (needs_action v').*1) as [|x l] eqn:Ef; [done|].
    exfalso.
    assert (Hx : x ∈ List.filter is_md (needs_action v').*1)
      by (rewrite Ef; by left).
    apply list_elem_of_In, filter_In in Hx as [Hx Hmd].
    apply list_elem_of_In in Hx.
    destruct (decide (x ∈ (needs_action v).*1)) as [Hin|Hout].
    - apply (Hclear x); [|done].
      apply list_elem_of_In, filter_In. split; [by apply list_elem_of_In|done].
    - by destruct (E x Hout). }
  exists v'. split_and!; [done|done| |].
  - intros n c Hmd Hin. destruct (L n c Hin) as [Hstill|[_ Hd]]; [|done].
    exfalso. apply (Hclear n).
    + apply list_elem_of_In, filter_In. split; [|done].
      apply list_elem_of_In, list_elem_of_fmap. by exists (n, c).
    + apply list_elem_of_fmap. by exists (n, c).
  - unfold scan_and_process, mbind, M_bind, bind, get.
    rewrite ensure_folders_exist_run. cbn [needs_action set_dirs].
    rewrite Hnone.
    assert (Hd : all_folders ∪ dirs v' = dirs v').
    { apply set_eq. intros f. rewrite elem_of_union. split; [|by right].
      intros [Hf|Hf]; [|done]. apply Hall. apply elem_of_union. by left. }
    rewrite Hd. by destruct v'.
Qed.

End ScanArchives.

Lemma live_scan_archives_every_task_witness :
  let v := vault_with task_A scenario_A in
  ∃ v', Orchestrator.scan_and_process glob_exact no_artifact_env v
          = (Ok tt, v') ∧
        List.filter Orchestrator.is_md (needs_action v').*1 = [] ∧
        (∀ n c, Orchestrator.is_md n = true → (n, c) ∈ needs_action v →
                done v' !! n = Some c) ∧
        Orchestrator.scan_and_process glob_exact no_artifact_env v'
          = (Ok tt, v').
Proof.
  apply (live_scan_archives_every_task glob_exact glob_exact_lists
           no_artifact_env).
  - intros task_file. split_and!; [reflexivity|reflexivity|reflexivity|].
    intros n. reflexivity.
  - apply NoDup_singleton.
Defined.
